(** * Protocol Zero: the self-healing agent

    A shallow embedding of the self-healing orchestrator
    ([orchestrator.ts], both revisions), of the repository manager
    ([repo-manager.ts], both revisions), of the test runner
    ([test-runner.ts]) and of the computations of the dashboard's score
    breakdown and bug table, together with the properties the
    specification states about them and further properties of the code.

    Conventions of the embedding
    - JavaScript numbers that the code only ever uses as counters
      (attempt numbers, commit counts, line numbers, HTTP status codes) are
      [Z]; the elapsed time in seconds and the quotient
      [bugsFixed / totalBugs] are exact rationals ([Q]), and [Math.round]
      is rounding to the nearest integer with ties upwards.
    - JavaScript strings are [string]s. The functions that follow Unicode
      ([toUpperCase], [toLowerCase], the class [\s]) are embedded for
      strings of ASCII characters, and a property that depends on them is
      stated for such strings.
    - Code that can throw is written in the error monad [Exc]; the
      orchestrator threads its mutable variables through a record.
    - Calls that leave the repository (the GitHub API, git, the test
      runner's child process, the two AI agents) are oracles: fields of an
      environment record that give the outcome of every call. *)

From Stdlib Require Import ZArith QArith Qround String Ascii List Lia Bool.
From stdpp Require Import base decidable option list gmap strings pretty.
Import ListNotations.

Local Open Scope string_scope.
Local Open Scope Z_scope.

(** ** Types ([@/types]) *)

(** Modelled from the spec: the declarations of [@/types] are not part of the
    sources; the records below follow section 3 of the specification and the
    object literals the orchestrator builds. *)
Inductive BugCategory : Type :=
  | SYNTAX | LINTING | RUNTIME | LOGIC | IMPORT | TYPE | DEPENDENCY.

Inductive HealingStatus : Type :=
  | queued | cloning | scanning | testing | fixing | pushing
  | completed | partial_success | failed.

Record HealingBug : Type := mkBug {
  bug_id : string;
  category : BugCategory;
  filePath : string;
  line : Z;
  message : string;
  severity : string;
  fixed : bool;
  fixedAtAttempt : option Z
}.

Inductive AttemptStatus : Type := att_passed | att_failed | att_running.

Record HealingAttempt : Type := mkAttempt {
  attempt : Z;
  status : AttemptStatus;
  testOutput : string;
  bugsFound : Z;
  attemptBugsFixed : Z;
  commitSha : option string;
  commitMessage : option string
}.

Record HealingScore : Type := mkScore {
  totalBugs : Z;
  bugsFixed : Z;
  testsPassed : bool;
  attempts : Z;
  totalCommits : Z;
  timeSeconds : Z;
  speedBonus : Z;
  commitPenalty : Z;
  finalScore : Z
}.

(** ** Scoring ([orchestrator.ts], [calculateScore]) *)

Definition SPEED_BONUS_THRESHOLD_SEC : Q := 300%Q.
Definition MAX_COMMITS_PENALTY_THRESHOLD : Z := 20.

(** [Math.round]: nearest integer, a tie goes up. *)
Definition Math_round (x : Q) : Z := Qfloor (x + (1 # 2))%Q.

(** [a < b] on numbers. *)
Definition Qltb (a b : Q) : bool := negb (Qle_bool b a).

(** [bugs.filter((b) => b.fixed).length] *)
Definition fixedCount (bugs : list HealingBug) : Z :=
  Z.of_nat (length (List.filter fixed bugs)).

Definition calculateScore (bugs : list HealingBug) (testsPassed : bool)
    (attempts totalCommits : Z) (timeSeconds : Q) : HealingScore :=
  let totalBugs := Z.of_nat (length bugs) in
  let bugsFixed := fixedCount bugs in
  let baseScore :=
    if 0 <? totalBugs
    then Math_round ((inject_Z bugsFixed / inject_Z totalBugs) * 60)%Q
    else 0 in
  let baseScore := if testsPassed then baseScore + 20 else baseScore in
  let baseScore :=
    if attempts <=? 2 then baseScore + 10
    else if attempts <=? 3 then baseScore + 5
    else baseScore in
  let speedBonus := if Qltb timeSeconds SPEED_BONUS_THRESHOLD_SEC then 10 else 0 in
  let commitPenalty :=
    if MAX_COMMITS_PENALTY_THRESHOLD <? totalCommits
    then totalCommits - MAX_COMMITS_PENALTY_THRESHOLD
    else 0 in
  let finalScore := Z.max 0 (Z.min 100 (baseScore + speedBonus - commitPenalty)) in
  {| totalBugs := totalBugs;
     bugsFixed := bugsFixed;
     testsPassed := testsPassed;
     attempts := attempts;
     totalCommits := totalCommits;
     timeSeconds := Math_round timeSeconds;
     speedBonus := speedBonus;
     commitPenalty := commitPenalty;
     finalScore := finalScore |}.

(** The formula of the specification, written after its words. *)
Module ScoreSpec.

Definition clamp (x lo hi : Z) : Z :=
  if x <? lo then lo else if hi <? x then hi else x.

Definition bugTerm (bugsFixed totalBugs : Z) : Z :=
  if totalBugs =? 0 then 0
  else Math_round ((inject_Z bugsFixed / inject_Z totalBugs) * 60)%Q.

Definition base (bugsFixed totalBugs : Z) (testsPassed : bool) (attempts : Z) : Z :=
  bugTerm bugsFixed totalBugs
  + (if testsPassed then 20 else 0)
  + (if attempts <=? 2 then 10 else if attempts <=? 3 then 5 else 0).

Definition speedBonus (elapsedSeconds : Q) : Z :=
  if Qltb elapsedSeconds 300%Q then 10 else 0.

Definition commitPenalty (totalCommits : Z) : Z := Z.max 0 (totalCommits - 20).

Definition final (bugsFixed totalBugs : Z) (testsPassed : bool)
    (attempts totalCommits : Z) (elapsedSeconds : Q) : Z :=
  clamp (base bugsFixed totalBugs testsPassed attempts
         + speedBonus elapsedSeconds - commitPenalty totalCommits) 0 100.

End ScoreSpec.

(** ** Exceptions *)

(** [new Error(message)] *)
Record JsError : Type := mkError { err_message : string }.

(** A computation that returns a value or throws. *)
Inductive Exc (A : Type) : Type :=
  | Ok (a : A)
  | Throw (e : JsError).
Arguments Ok {A} a.
Arguments Throw {A} e.

#[global] Instance Exc_ret : MRet Exc := fun A a => Ok a.
#[global] Instance Exc_bind : MBind Exc := fun A B f c =>
  match c with
  | Ok a => f a
  | Throw e => Throw e
  end.

(** [try { c } catch (e) { h e }] *)
Definition try_catch {A} (c : Exc A) (h : JsError -> Exc A) : Exc A :=
  match c with
  | Ok a => Ok a
  | Throw e => h e
  end.

(** [promise.catch(() => dflt)] *)
Definition catch_default {A} (c : Exc A) (dflt : A) : A :=
  match c with
  | Ok a => a
  | Throw _ => dflt
  end.

(** ** Strings *)

(** The rest of [s] after the prefix [p], when [s] starts with [p]. *)
Fixpoint strip_prefix (p s : string) : option string :=
  match p with
  | EmptyString => Some s
  | String a p' =>
      match s with
      | String b s' => if Ascii.eqb a b then strip_prefix p' s' else None
      | EmptyString => None
      end
  end.

(** [s.includes(sub)] *)
Fixpoint includes (sub s : string) : bool :=
  match strip_prefix sub s with
  | Some _ => true
  | None =>
      match s with
      | String _ s' => includes sub s'
      | EmptyString => false
      end
  end.

(** The first [n] code units of [s]. *)
Fixpoint take_string (n : nat) (s : string) : string :=
  match n, s with
  | S n', String c s' => String c (take_string n' s')
  | _, _ => EmptyString
  end.

Fixpoint map_string (f : ascii -> ascii) (s : string) : string :=
  match s with
  | EmptyString => EmptyString
  | String c s' => String (f c) (map_string f s')
  end.

Fixpoint filter_string (p : ascii -> bool) (s : string) : string :=
  match s with
  | EmptyString => EmptyString
  | String c s' => if p c then String c (filter_string p s') else filter_string p s'
  end.

Fixpoint forall_string (p : ascii -> bool) (s : string) : bool :=
  match s with
  | EmptyString => true
  | String c s' => p c && forall_string p s'
  end.

Definition in_range (lo hi c : ascii) : bool :=
  (nat_of_ascii lo <=? nat_of_ascii c)%nat && (nat_of_ascii c <=? nat_of_ascii hi)%nat.

Definition is_upper (c : ascii) : bool := in_range "A" "Z" c.
Definition is_lower (c : ascii) : bool := in_range "a" "z" c.
Definition is_digit (c : ascii) : bool := in_range "0" "9" c.



(** The class [\s] on the code units below U+0100: tab, line feed, vertical
    tab, form feed, carriage return, space and the no-break space. *)
Definition is_space (c : ascii) : bool :=
  in_range "009" "013" c || Ascii.eqb c " " || Ascii.eqb c "160".

Definition upper_char (c : ascii) : ascii :=
  if is_lower c then ascii_of_nat (nat_of_ascii c - 32) else c.

(** [s.toUpperCase()] for a string [s] of ASCII characters. *)
Definition toUpperCase (s : string) : string := map_string upper_char s.

(** ** Regular expressions

    The fragment of JavaScript's regular expressions that the repository
    manager uses, with the backtracking order of the language: a greedy
    quantifier tries the longest repetition first, a lazy one the shortest,
    an optional group is tried present before absent, and a search tries the
    start positions from the left. *)
Inductive regex : Type :=
  | RLit (l : string)                       (* literal characters *)
  | RSet (p : ascii -> bool)                (* a character class *)
  | RSeq (r1 r2 : regex)
  | RPlus (greedy : bool) (p : ascii -> bool)  (* [class+] and [class+?] *)
  | ROpt (r : regex)                        (* [(?:r)?] *)
  | RGroup (i : nat) (r : regex)            (* the i-th capturing group *)
  | REnd.                                   (* [$] *)

Definition captures : Type := list (nat * string).

Fixpoint plus_greedy {R} (p : ascii -> bool) (s : string) (k : string -> option R)
    : option R :=
  match s with
  | String c s' =>
      if p c then
        match plus_greedy p s' k with
        | Some r => Some r
        | None => k s'
        end
      else None
  | EmptyString => None
  end.

Fixpoint plus_lazy {R} (p : ascii -> bool) (s : string) (k : string -> option R)
    : option R :=
  match s with
  | String c s' =>
      if p c then
        match k s' with
        | Some r => Some r
        | None => plus_lazy p s' k
        end
      else None
  | EmptyString => None
  end.

(** The text a sub-match consumed: [s] without its suffix [rest]. *)
Definition consumed (s rest : string) : string :=
  take_string (String.length s - String.length rest) s.

(** [rmatch r s caps k]: match [r] at the start of [s], then continue with
    [k] on the rest; [None] when every alternative fails. *)
Fixpoint rmatch {R} (r : regex) (s : string) (caps : captures)
    (k : string -> captures -> option R) : option R :=
  match r with
  | RLit l =>
      match strip_prefix l s with
      | Some s' => k s' caps
      | None => None
      end
  | RSet p =>
      match s with
      | String c s' => if p c then k s' caps else None
      | EmptyString => None
      end
  | RSeq r1 r2 => rmatch r1 s caps (fun s' caps' => rmatch r2 s' caps' k)
  | RPlus true p => plus_greedy p s (fun s' => k s' caps)
  | RPlus false p => plus_lazy p s (fun s' => k s' caps)
  | ROpt r1 =>
      match rmatch r1 s caps k with
      | Some x => Some x
      | None => k s caps
      end
  | RGroup i r1 => rmatch r1 s caps (fun s' caps' => k s' ((i, consumed s s') :: caps'))
  | REnd =>
      match s with
      | EmptyString => k s caps
      | String _ _ => None
      end
  end.

(** [s.match(r)] for a pattern without the [g] flag: the captures of the
    leftmost match. *)
Fixpoint rexec (r : regex) (s : string) : option captures :=
  match rmatch r s [] (fun _ caps => Some caps) with
  | Some caps => Some caps
  | None =>
      match s with
      | String _ s' => rexec r s'
      | EmptyString => None
      end
  end.

(** [match[i]] *)
Fixpoint capture (i : nat) (caps : captures) : string :=
  match caps with
  | [] => EmptyString
  | (j, v) :: rest => if Nat.eqb i j then v else capture i rest
  end.

(** One match of [r] at the start of [s]: the rest of the input. *)
Definition rmatch_here (r : regex) (s : string) : option string :=
  rmatch r s [] (fun s' _ => Some s').

(** [s.replace(r, rep)] for a pattern with the [g] flag. Every step consumes
    a code unit, so [String.length s] steps are enough. *)
Fixpoint replace_steps (n : nat) (r : regex) (rep s : string) : string :=
  match n with
  | O => s
  | S n' =>
      match s with
      | EmptyString => EmptyString
      | String c s' =>
          match rmatch_here r s with
          | Some rest =>
              if (String.length rest <? String.length s)%nat
              then rep ++ replace_steps n' r rep rest
              else rep ++ String c (replace_steps n' r rep s')
          | None => String c (replace_steps n' r rep s')
          end
      end
  end.

Definition replace_all (r : regex) (rep s : string) : string :=
  replace_steps (String.length s) r rep s.

(** ** The outside world *)

(** The body of an error response, after [response.json().catch(() => ({}))]:
    [errorData.message] and the [message] of every entry of
    [errorData.errors]. *)
Record ErrorData : Type := mkErrorData {
  ed_message : option string;
  ed_errors : list (option string)
}.

(** [{}] *)
Definition emptyErrorData : ErrorData :=
  {| ed_message := None; ed_errors := [] |}.

(** A [Response]: its status line, its body read as an error object, and the
    outcome of [response.json()] on the path that expects a [B]. *)
Record Response (B : Type) : Type := mkResponse {
  resp_status : Z;
  statusText : string;
  errorData : ErrorData;
  json : Exc B
}.
Arguments mkResponse {B} _ _ _ _.
Arguments resp_status {B} _.
Arguments statusText {B} _.
Arguments errorData {B} _.
Arguments json {B} _.

(** [response.ok] *)
Definition ok {B} (r : Response B) : bool :=
  (200 <=? resp_status r) && (resp_status r <=? 299).

(** The fields of a fork response the code reads. [owner.login] and [name]
    are only tested and or-ed with a default, where an absent field and an
    empty one behave alike, so an absent one reads as the empty string.
    [full_name] is optional: [undefined?.split("/")[0]] stays [undefined],
    which is printed as such. *)
Record ForkData : Type := mkForkData {
  owner_login : string;
  full_name : option string;
  name : string
}.

Record PrData : Type := mkPrData {
  number : Z;
  html_url : string
}.

Record ParsedError : Type := mkParsedError {
  pe_filePath : string;
  pe_line : Z;
  pe_message : string;
  pe_type : BugCategory
}.

Record TestResult : Type := mkTestResult {
  passed : bool;
  fullOutput : string;
  errors : list ParsedError
}.

Record FixResult : Type := mkFixResult {
  applied : bool;
  fix_filePath : string;
  description : string;
  bugId : string
}.

Record FixAllResult : Type := mkFixAllResult {
  results : list FixResult;
  fix_bugsFixed : Z;
  filesChanged : Z
}.

(** The outcome of every call that leaves the program. Calls made once per
    attempt are indexed by the attempt number, the final verification run
    of the tests by the number after the last attempt. *)
Record Env : Type := mkEnv {
  GITHUB_BOT_TOKEN : option string;
  (* GitHub API *)
  forkPost : Z -> Exc (Response ForkData);
  forkPolls : list (Exc (Response unit));
  prPost : Z -> Exc (Response PrData);
  prSearch : Exc (Response (list PrData));
  userGet : Exc (Response string);
  (* git *)
  gitClone : Exc unit;
  clonedFiles : list string;
  gitCheckout : Exc unit;
  gitDefaultBranch : string;
  gitCommit : Z -> Exc (option string);
  gitPush : Z -> Exc unit;
  gitCommitCount : Z -> Z;
  (* test runner, scanner, engineer *)
  installCommand : option string;
  testRun : Z -> TestResult;
  scanForBugs : Z -> Exc (list HealingBug);
  fixAllBugs : Z -> list HealingBug -> Exc FixAllResult;
  uuidv4 : Z -> nat -> string;
  (* clock *)
  timedOut : Z -> nat -> bool;
  elapsedSeconds : Z -> Q
}.

(** [a || b] on strings: [b] when [a] is undefined or empty. *)
Definition or_else (a : option string) (b : string) : string :=
  match a with
  | Some (String c s) => String c s
  | _ => b
  end.

(** ** The file system

    The set of paths that exist. *)
Definition FS : Type := gset string.

(** [p] is [d] or lies below it. *)
Definition under (d p : string) : bool :=
  String.eqb d p || String.prefix (d ++ "/") p.

Definition existsSync (p : string) (fs : FS) : bool := bool_decide (p ∈ fs).

Definition has_children (d : string) (fs : FS) : bool :=
  bool_decide (Exists (fun p => String.prefix (d ++ "/") p = true) (elements fs)).

(** [rmSync(p, { recursive, force })]: a missing path is an error unless
    [force] is set, a directory with entries is an error unless [recursive]
    is set. *)
Definition rmSync (p : string) (recursive force : bool) (fs : FS) : Exc unit * FS :=
  if existsSync p fs then
    if has_children p fs && negb recursive
    then (Throw (mkError ("ENOTEMPTY: directory not empty, rm '" ++ p ++ "'")), fs)
    else (Ok tt, filter (fun q => under p q = false) fs)
  else if force then (Ok tt, fs)
  else (Throw (mkError ("ENOENT: no such file or directory, rm '" ++ p ++ "'")), fs).

(** [mkdirSync(p, { recursive: true })] *)
Definition mkdirSync (p : string) (fs : FS) : FS := {[ p ]} ∪ fs.

(** [a || b] on strings that are present but may be empty. *)
Definition or_str (a b : string) : string :=
  match a with
  | String _ _ => a
  | EmptyString => b
  end.

(** [s.split("/")[0]] *)
Fixpoint before_slash (s : string) : string :=
  match s with
  | EmptyString => EmptyString
  | String c s' => if Ascii.eqb c "/" then EmptyString else String c (before_slash s')
  end.

(** [a || b] for a string [a] and a [b] that may be [undefined]. *)
Definition or_undefined (a : string) (b : option string) : option string :=
  match a with
  | String _ _ => Some a
  | EmptyString => b
  end.

(** [`${v}`] for a [v] that is a string or [undefined]. *)
Definition template (v : option string) : string :=
  match v with
  | Some s => s
  | None => "undefined"
  end.

(** [r1 r2 ... rn] *)
Definition rseq (rs : list regex) : regex := foldr RSeq (RLit EmptyString) rs.

Record RepoRef : Type := mkRepoRef { owner : string; repo : string }.

(** [forkOwner] holds the empty string for an owner that is [undefined]: the
    callers only test the field and pass it on, and both are falsy. *)
Record ForkResult : Type := mkForkResult {
  forkOwner : string;
  forkRepo_ : string;
  forkUrl : string;
  fork_success : bool;
  fork_error : option string
}.

Record PullRequestResult : Type := mkPullRequestResult {
  pr_success : bool;
  prNumber : option Z;
  prUrl : option string;
  pr_error : option string
}.

(** ** Repository manager ([repo-manager.ts], the revision with retries) *)
Module RepoManager.

(** The value of [SANDBOX_BASE] off Windows. *)
Definition SANDBOX_BASE : string := "/tmp/self-healing".
Definition BRANCH_SUFFIX : string := "AI_Fix".
Definition COMMIT_PREFIX : string := "[AI-AGENT]".

Definition getBotToken (env : Env) : Exc string :=
  match GITHUB_BOT_TOKEN env with
  | Some (String c s) => Ok (String c s)
  | _ =>
      Throw (mkError
        ("GITHUB_BOT_TOKEN is not set. Add it to your .env file. " ++
         "Create a classic PAT at: GitHub → Settings → Developer settings → Personal Access Tokens. " ++
         "Required scopes: 'repo' for full repository access."))
  end.

(** [/\s+/g] *)
Definition whitespace_run : regex := RPlus true is_space.

Definition is_branch_char (c : ascii) : bool :=
  is_upper c || is_digit c || Ascii.eqb c "_".

(** [/[^A-Z0-9_]/g] *)
Definition not_branch_char : regex := RSet (fun c => negb (is_branch_char c)).

Definition getHealingBranchName (teamName leaderName : string) : string :=
  let team :=
    replace_all not_branch_char EmptyString
      (replace_all whitespace_run "_" (toUpperCase teamName)) in
  let leader :=
    replace_all not_branch_char EmptyString
      (replace_all whitespace_run "_" (toUpperCase leaderName)) in
  team ++ "_" ++ leader ++ "_" ++ BRANCH_SUFFIX.

(** [path.join(SANDBOX_BASE, sessionId)], for a session id that is a plain
    file name. *)
Definition getSandboxDir (sessionId : string) : string :=
  SANDBOX_BASE ++ "/" ++ sessionId.

Definition cleanupSandbox (sessionId : string) (fs : FS) : Exc unit * FS :=
  let sandboxDir := getSandboxDir sessionId in
  if existsSync sandboxDir fs
  then rmSync sandboxDir true true fs
  else (Ok tt, fs).

Definition not_slash (c : ascii) : bool := negb (Ascii.eqb c "/").
Definition not_slash_dot (c : ascii) : bool :=
  negb (Ascii.eqb c "/" || Ascii.eqb c ".").

Definition patterns : list regex :=
  [ (* /github\.com\/([^/]+)\/([^/.]+?)(?:\.git)?$/ *)
    rseq [RLit "github.com/"; RGroup 1 (RPlus true not_slash); RLit "/";
          RGroup 2 (RPlus false not_slash_dot); ROpt (RLit ".git"); REnd];
    (* /github\.com\/([^/]+)\/([^/]+?)\/?$/ *)
    rseq [RLit "github.com/"; RGroup 1 (RPlus true not_slash); RLit "/";
          RGroup 2 (RPlus false not_slash); ROpt (RLit "/"); REnd] ].

(** [for (const pattern of patterns) { const match = url.match(pattern); if (match) return ... }] *)
Fixpoint first_match (ps : list regex) (url : string) : option RepoRef :=
  match ps with
  | [] => None
  | pattern :: rest =>
      match rexec pattern url with
      | Some m => Some {| owner := capture 1 m; repo := capture 2 m |}
      | None => first_match rest url
      end
  end.

Definition parseGitHubUrl (url : string) : Exc RepoRef :=
  match first_match patterns url with
  | Some r => Ok r
  | None => Throw (mkError ("Invalid GitHub URL: " ++ url))
  end.

(** [waitForFork]: polls until a response is [ok] or the time budget is used
    up; [polls] are the outcomes of the requests made within the budget. A
    request that fails is ignored, and running out of time is only logged. *)
Fixpoint waitForFork (polls : list (Exc (Response unit))) : unit :=
  match polls with
  | [] => tt
  | Ok response :: rest => if ok response then tt else waitForFork rest
  | Throw _ :: rest => waitForFork rest
  end.

Definition maxForkAttempts : Z := 2.

Definition forkFailure (msg : string) : ForkResult :=
  {| forkOwner := EmptyString; forkRepo_ := EmptyString; forkUrl := EmptyString;
     fork_success := false; fork_error := Some msg |}.

(** The [try] block of one fork attempt: it returns or throws. *)
Definition forkTry (env : Env) (owner repo : string) (forkAttempt : Z) : Exc ForkResult :=
  response ← forkPost env forkAttempt;
  if negb (ok response) && negb (resp_status response =? 202) then
    let errorMsg := or_else (ed_message (errorData response)) (statusText response) in
    if resp_status response =? 403 then
      Throw (mkError
        ("Fork failed (403): " ++ errorMsg ++ ". " ++
         "GitHub token may lack 'public_repo' or 'repo' scope. " ++
         "Go to GitHub Settings → Developer settings → Personal Access Tokens to update."))
    else
      Throw (mkError
        ("Fork failed (" ++ pretty (resp_status response) ++ "): " ++ errorMsg))
  else
    forkData ← json response;
    let forkOwner := or_undefined (owner_login forkData)
                       (before_slash <$> full_name forkData) in
    let forkRepoName := or_str (name forkData) repo in
    let _ := waitForFork (forkPolls env) in
    Ok {| forkOwner := default EmptyString forkOwner;
          forkRepo_ := forkRepoName;
          forkUrl := "https://github.com/" ++ template forkOwner ++ "/" ++ forkRepoName;
          fork_success := true;
          fork_error := None |}.

(** [for (let forkAttempt = ...; forkAttempt <= maxForkAttempts; forkAttempt++)]
    with [n] iterations left. *)
Fixpoint forkLoop (env : Env) (owner repo : string) (n : nat) (forkAttempt : Z)
    : ForkResult :=
  match n with
  | O => forkFailure "Fork failed"
  | S n' =>
      match forkTry env owner repo forkAttempt with
      | Ok result => result
      | Throw err =>
          if forkAttempt <? maxForkAttempts
          then forkLoop env owner repo n' (forkAttempt + 1)
          else forkFailure (err_message err)
      end
  end.

Definition forkRepo (env : Env) (owner repo : string) : Exc ForkResult :=
  token ← getBotToken env;
  Ok (forkLoop env owner repo (Z.to_nat maxForkAttempts) 1).

Definition getBotUsername (env : Env) : Exc string :=
  token ← getBotToken env;
  Ok (catch_default
        (response ← userGet env;
         if ok response then json response else Ok "unknown")
        "unknown").

Definition maxRetries : Z := 2.

(** What one iteration of the retry loop of [createPullRequest] does after its
    [try] block: return a result or go on to the next iteration. *)
Inductive Step (A : Type) : Type :=
  | Return (a : A)
  | Continue.
Arguments Return {A} a.
Arguments Continue {A}.

(** The lookup of the pull request that already exists; [None] when the
    search fails, in which case the caller falls back to the list of pull
    requests. *)
Definition findExistingPr (env : Env) : option PullRequestResult :=
  catch_default
    (searchRes ← prSearch env;
     if ok searchRes then
       prs ← json searchRes;
       match prs with
       | first :: _ =>
           Ok (Some {| pr_success := true; prNumber := Some (number first);
                       prUrl := Some (html_url first); pr_error := None |})
       | [] => Ok None
       end
     else Ok None)
    None.

Definition prTry (env : Env) (originalOwner originalRepo : string) (attempt : Z)
    : Exc (Step PullRequestResult) :=
  response ← prPost env attempt;
  if negb (ok response) then
    let errorData := errorData response in
    if (resp_status response =? 422)
       && match hd None (ed_errors errorData) with
          | Some m => includes "pull request already exists" m
          | None => false
          end
    then
      match findExistingPr env with
      | Some found => Ok (Return found)
      | None =>
          Ok (Return {| pr_success := true; prNumber := None;
                        prUrl := Some ("https://github.com/" ++ originalOwner ++ "/"
                                       ++ originalRepo ++ "/pulls");
                        pr_error := None |})
      end
    else
      let errMsg := "GitHub API error " ++ pretty (resp_status response) ++ ": "
                    ++ or_else (ed_message errorData) (statusText response) in
      if attempt <? maxRetries then Ok Continue
      else Throw (mkError errMsg)
  else
    prData ← json response;
    Ok (Return {| pr_success := true; prNumber := Some (number prData);
                  prUrl := Some (html_url prData); pr_error := None |}).

Fixpoint prLoop (env : Env) (originalOwner originalRepo : string) (n : nat) (attempt : Z)
    : PullRequestResult :=
  match n with
  | O => {| pr_success := false; prNumber := None; prUrl := None;
            pr_error := Some "Max PR retries exceeded" |}
  | S n' =>
      match prTry env originalOwner originalRepo attempt with
      | Ok (Return result) => result
      | Ok Continue => prLoop env originalOwner originalRepo n' (attempt + 1)
      | Throw err =>
          if attempt <? maxRetries
          then prLoop env originalOwner originalRepo n' (attempt + 1)
          else {| pr_success := false; prNumber := None; prUrl := None;
                  pr_error := Some (err_message err) |}
      end
  end.

(** The title and the body of the request only travel to the server; the
    arguments they are built from are kept for the record of the call. *)
Definition createPullRequest (env : Env) (repoDir originalOwner originalRepo
    branchName forkOwner : string) (bugsFixed totalBugs attempts score : Z)
    : Exc PullRequestResult :=
  token ← getBotToken env;
  Ok (prLoop env originalOwner originalRepo (Z.to_nat maxRetries) 1).

End RepoManager.

(** ** Repository manager ([repo-manager.ts], the revision without retries) *)
Module RepoManagerNoRetry.

Definition SANDBOX_BASE : string := "/tmp/self-healing".
Definition TEAM_NAME : string := "TECH_CHAOS".
Definition LEADER_NAME : string := "ANURAG_MISHRA".
Definition BRANCH_SUFFIX : string := "AI_Fix".

Definition getBotToken (env : Env) : Exc string :=
  match GITHUB_BOT_TOKEN env with
  | Some (String c s) => Ok (String c s)
  | _ =>
      Throw (mkError
        ("GITHUB_BOT_TOKEN is not set. Add it to your .env file. " ++
         "Create a token at: GitHub → Settings → Developer settings → Personal Access Tokens (classic). " ++
         "Required scopes: 'public_repo' (for forking) or 'repo' (for full repository access)."))
  end.

Definition getHealingBranchName : string :=
  TEAM_NAME ++ "_" ++ LEADER_NAME ++ "_" ++ BRANCH_SUFFIX.

(** [path.join(SANDBOX_BASE, sessionId)], for a session id that is a plain
    file name. *)
Definition getSandboxDir (sessionId : string) : string :=
  SANDBOX_BASE ++ "/" ++ sessionId.

Definition cleanupSandbox (sessionId : string) (fs : FS) : Exc unit * FS :=
  let sandboxDir := getSandboxDir sessionId in
  if existsSync sandboxDir fs
  then rmSync sandboxDir true true fs
  else (Ok tt, fs).

(** The same two patterns as in the other revision. *)
Definition parseGitHubUrl (url : string) : Exc RepoRef :=
  match RepoManager.first_match RepoManager.patterns url with
  | Some r => Ok r
  | None => Throw (mkError ("Invalid GitHub URL: " ++ url))
  end.

Definition forkTry (env : Env) (owner repo : string) : Exc ForkResult :=
  response ← forkPost env 1;
  if negb (ok response) && negb (resp_status response =? 202) then
    let errorMsg := or_else (ed_message (errorData response)) (statusText response) in
    if resp_status response =? 403 then
      Throw (mkError
        ("Fork failed (403): " ++ errorMsg ++ ". " ++
         "GitHub token may lack 'public_repo' or 'repo' scope. " ++
         "Go to GitHub Settings → Developer settings → Personal Access Tokens to update."))
    else
      Throw (mkError
        ("Fork failed (" ++ pretty (resp_status response) ++ "): " ++ errorMsg))
  else
    forkData ← json response;
    let forkOwner := or_undefined (owner_login forkData)
                       (before_slash <$> full_name forkData) in
    let forkRepoName := or_str (name forkData) repo in
    let _ := RepoManager.waitForFork (forkPolls env) in
    Ok {| forkOwner := default EmptyString forkOwner;
          forkRepo_ := forkRepoName;
          forkUrl := "https://github.com/" ++ template forkOwner ++ "/" ++ forkRepoName;
          fork_success := true;
          fork_error := None |}.

Definition forkRepo (env : Env) (owner repo : string) : Exc ForkResult :=
  token ← getBotToken env;
  Ok (match forkTry env owner repo with
      | Ok result => result
      | Throw err => RepoManager.forkFailure (err_message err)
      end).

Definition prTry (env : Env) (originalOwner originalRepo : string)
    : Exc PullRequestResult :=
  response ← prPost env 1;
  if negb (ok response) then
    let errorData := errorData response in
    if (resp_status response =? 422)
       && match hd None (ed_errors errorData) with
          | Some m => includes "pull request already exists" m
          | None => false
          end
    then
      Ok {| pr_success := true; prNumber := None;
            prUrl := Some ("https://github.com/" ++ originalOwner ++ "/"
                           ++ originalRepo ++ "/pulls");
            pr_error := None |}
    else
      Throw (mkError ("GitHub API error " ++ pretty (resp_status response) ++ ": "
                      ++ or_else (ed_message errorData) (statusText response)))
  else
    prData ← json response;
    Ok {| pr_success := true; prNumber := Some (number prData);
          prUrl := Some (html_url prData); pr_error := None |}.

Definition createPullRequest (env : Env) (repoDir originalOwner originalRepo
    branchName forkOwner : string) (bugsFixed totalBugs attempts score : Z)
    : Exc PullRequestResult :=
  token ← getBotToken env;
  Ok (match prTry env originalOwner originalRepo with
      | Ok result => result
      | Throw err => {| pr_success := false; prNumber := None; prUrl := None;
                        pr_error := Some (err_message err) |}
      end).

End RepoManagerNoRetry.

(** ** Git operations of the repository manager

    The git commands are oracles; the functions add what the code does around
    them: the sandbox on disk and the messages of the errors they throw. *)

(** A value used as a condition: a string that is present and not empty. *)
Definition truthy (s : option string) : bool :=
  match s with
  | Some (String _ _) => true
  | _ => false
  end.

(** What a successful [git clone] leaves on disk. *)
Definition cloned (env : Env) (sandboxDir : string) (fs : FS) : FS :=
  {[ sandboxDir ]} ∪ list_to_set (map (fun f => sandboxDir ++ "/" ++ f) (clonedFiles env)) ∪ fs.

(** [cloneRepo] of the revision with retries. A [git clone] that fails is
    taken to leave nothing behind. *)
Definition cloneRepo (env : Env) (repoUrl sessionId : string)
    (forkOwner forkRepoName : option string) (fs : FS) : Exc string * FS :=
  let sandboxDir := RepoManager.getSandboxDir sessionId in
  let fs := if negb (existsSync RepoManager.SANDBOX_BASE fs)
            then mkdirSync RepoManager.SANDBOX_BASE fs else fs in
  let '(removed, fs) :=
    if existsSync sandboxDir fs then rmSync sandboxDir true true fs else (Ok tt, fs) in
  match removed with
  | Throw e => (Throw e, fs)
  | Ok _ =>
      match RepoManager.getBotToken env with
      | Throw e => (Throw e, fs)
      | Ok token =>
          let useFork := truthy forkOwner && truthy forkRepoName in
          match (if useFork then Ok tt
                 else _ ← RepoManager.parseGitHubUrl repoUrl; Ok tt) with
          | Throw e => (Throw e, fs)
          | Ok _ =>
              match gitClone env with
              | Throw err =>
                  (Throw (mkError ("Failed to clone repository: " ++ err_message err)), fs)
              | Ok _ =>
                  let fs := cloned env sandboxDir fs in
                  match (if useFork
                         then _ ← RepoManager.parseGitHubUrl repoUrl; Ok tt
                         else Ok tt) with
                  | Throw err =>
                      (Throw (mkError ("Failed to clone repository: " ++ err_message err)), fs)
                  | Ok _ => (Ok sandboxDir, fs)
                  end
              end
          end
      end
  end.

(** [cloneRepo] of the revision without retries: the token is read only when
    the fork is cloned. *)
Definition cloneRepoNoRetry (env : Env) (repoUrl sessionId : string)
    (forkOwner forkRepoName : option string) (fs : FS) : Exc string * FS :=
  let sandboxDir := RepoManagerNoRetry.getSandboxDir sessionId in
  let fs := if negb (existsSync RepoManagerNoRetry.SANDBOX_BASE fs)
            then mkdirSync RepoManagerNoRetry.SANDBOX_BASE fs else fs in
  let '(removed, fs) :=
    if existsSync sandboxDir fs then rmSync sandboxDir true true fs else (Ok tt, fs) in
  match removed with
  | Throw e => (Throw e, fs)
  | Ok _ =>
      let useFork := truthy forkOwner && truthy forkRepoName in
      match (if useFork then _ ← RepoManagerNoRetry.getBotToken env; Ok tt else Ok tt) with
      | Throw e => (Throw e, fs)
      | Ok _ =>
          match gitClone env with
          | Throw err =>
              (Throw (mkError ("Failed to clone repository: " ++ err_message err)), fs)
          | Ok _ =>
              let fs := cloned env sandboxDir fs in
              match (if useFork
                     then _ ← RepoManagerNoRetry.parseGitHubUrl repoUrl; Ok tt
                     else Ok tt) with
              | Throw err =>
                  (Throw (mkError ("Failed to clone repository: " ++ err_message err)), fs)
              | Ok _ => (Ok sandboxDir, fs)
              end
          end
      end
  end.

Definition createBranch (env : Env) (repoDir branchName : string) : Exc string :=
  match gitCheckout env with
  | Ok _ => Ok branchName
  | Throw err => Throw (mkError ("Failed to create branch: " ++ err_message err))
  end.

Definition commitChanges (env : Env) (attempt : Z) (repoDir message : string)
    : Exc (option string) :=
  match gitCommit env attempt with
  | Ok sha => Ok sha
  | Throw err => Throw (mkError ("Failed to commit: " ++ err_message err))
  end.

Definition pushBranch (env : Env) (attempt : Z) (repoDir branchName : string) : Exc unit :=
  match gitPush env attempt with
  | Ok _ => Ok tt
  | Throw err => Throw (mkError ("Failed to push: " ++ err_message err))
  end.

(** [getCommitCount] catches every error and then answers 0; the oracle
    gives the number it returns. *)
Definition getCommitCount (env : Env) (attempt : Z) (repoDir branchName : string) : Z :=
  gitCommitCount env attempt.

(** [runTests] catches the failure of the test command and returns a result
    in both cases. *)
Definition runTests (env : Env) (run : Z) (repoDir : string) : TestResult :=
  testRun env run.

(** ** The orchestrator's state *)

(** The session document as the writes of the orchestrator make it: every
    [update] the code issues is applied, in order. The helpers of the code
    return at once when no database is configured and only log an update
    that the store rejects, and nothing else in the code reads the
    document; so [st_doc] is what the orchestrator has written, which is
    what a store holds that accepts every write. *)
Record SessionDoc : Type := mkSessionDoc {
  doc_status : HealingStatus;
  doc_error : option string;
  doc_completedAt : bool;
  doc_currentAttempt : Z;
  doc_branchName : option string;
  doc_bugs : list HealingBug;
  doc_attempts : list HealingAttempt;
  doc_score : option HealingScore;
  doc_prUrl : option string;
  doc_prNumber : option Z
}.

(** The session document of a request that was just accepted. *)
Definition newSession : SessionDoc :=
  {| doc_status := queued; doc_error := None; doc_completedAt := false;
     doc_currentAttempt := 0; doc_branchName := None; doc_bugs := [];
     doc_attempts := []; doc_score := None; doc_prUrl := None; doc_prNumber := None |}.

(** One call of [createPullRequest]. *)
Record PrCall : Type := mkPrCall {
  call_originalOwner : string;
  call_originalRepo : string;
  call_branchName : string;
  call_forkOwner : string;
  call_bugsFixed : Z;
  call_totalBugs : Z;
  call_attempts : Z;
  call_score : Z
}.

(** The progress events that carry a state: [emitStatus], [emitScore] and
    [emitError], in the order they are sent. The other events ([emitLog],
    which also follows [emitError] in the [catch] block, the test results
    and the per-bug events) are left out. *)
Inductive Event : Type :=
  | EStatus (s : HealingStatus)
  | EScore (s : HealingScore)
  | EError (msg : string).

(** The disk, the store, the calls made and the events sent, and the local
    variables of [runHealingLoop] that it assigns to. Of the disk, [st_fs]
    follows the calls of the repository manager ([mkdirSync], [rmSync], the
    target of [git clone]); what the installation, the tests and the
    engineer write into the working copy is not tracked. *)
Record OrchState : Type := mkOrchState {
  st_fs : FS;
  st_doc : SessionDoc;
  st_prCalls : list PrCall;
  st_events : list Event;
  st_allBugs : list HealingBug;
  st_attempts : list HealingAttempt;
  st_repoDir : string;
  st_branchName : string;
  st_forkOwner : string;
  st_forkRepoName : string;
  st_useFork : bool
}.

Definition initialState (fs : FS) : OrchState :=
  {| st_fs := fs; st_doc := newSession; st_prCalls := []; st_events := [];
     st_allBugs := []; st_attempts := []; st_repoDir := EmptyString;
     st_branchName := EmptyString; st_forkOwner := EmptyString;
     st_forkRepoName := EmptyString; st_useFork := false |}.

Definition with_fs (f : FS -> FS) (st : OrchState) : OrchState :=
  mkOrchState (f (st_fs st)) (st_doc st) (st_prCalls st) (st_events st) (st_allBugs st)
    (st_attempts st) (st_repoDir st) (st_branchName st) (st_forkOwner st)
    (st_forkRepoName st) (st_useFork st).
Definition with_doc (f : SessionDoc -> SessionDoc) (st : OrchState) : OrchState :=
  mkOrchState (st_fs st) (f (st_doc st)) (st_prCalls st) (st_events st) (st_allBugs st)
    (st_attempts st) (st_repoDir st) (st_branchName st) (st_forkOwner st)
    (st_forkRepoName st) (st_useFork st).
Definition with_prCalls (f : list PrCall -> list PrCall) (st : OrchState) : OrchState :=
  mkOrchState (st_fs st) (st_doc st) (f (st_prCalls st)) (st_events st) (st_allBugs st)
    (st_attempts st) (st_repoDir st) (st_branchName st) (st_forkOwner st)
    (st_forkRepoName st) (st_useFork st).
Definition with_events (f : list Event -> list Event) (st : OrchState) : OrchState :=
  mkOrchState (st_fs st) (st_doc st) (st_prCalls st) (f (st_events st)) (st_allBugs st)
    (st_attempts st) (st_repoDir st) (st_branchName st) (st_forkOwner st)
    (st_forkRepoName st) (st_useFork st).
Definition with_allBugs (f : list HealingBug -> list HealingBug) (st : OrchState) : OrchState :=
  mkOrchState (st_fs st) (st_doc st) (st_prCalls st) (st_events st) (f (st_allBugs st))
    (st_attempts st) (st_repoDir st) (st_branchName st) (st_forkOwner st)
    (st_forkRepoName st) (st_useFork st).
Definition with_attempts (f : list HealingAttempt -> list HealingAttempt) (st : OrchState)
    : OrchState :=
  mkOrchState (st_fs st) (st_doc st) (st_prCalls st) (st_events st) (st_allBugs st)
    (f (st_attempts st)) (st_repoDir st) (st_branchName st) (st_forkOwner st)
    (st_forkRepoName st) (st_useFork st).
Definition with_repoDir (v : string) (st : OrchState) : OrchState :=
  mkOrchState (st_fs st) (st_doc st) (st_prCalls st) (st_events st) (st_allBugs st)
    (st_attempts st) v (st_branchName st) (st_forkOwner st)
    (st_forkRepoName st) (st_useFork st).
Definition with_branchName (v : string) (st : OrchState) : OrchState :=
  mkOrchState (st_fs st) (st_doc st) (st_prCalls st) (st_events st) (st_allBugs st)
    (st_attempts st) (st_repoDir st) v (st_forkOwner st)
    (st_forkRepoName st) (st_useFork st).
Definition with_fork (forkOwner forkRepoName : string) (useFork : bool) (st : OrchState)
    : OrchState :=
  mkOrchState (st_fs st) (st_doc st) (st_prCalls st) (st_events st) (st_allBugs st)
    (st_attempts st) (st_repoDir st) (st_branchName st) forkOwner forkRepoName useFork.

(** A statement of the orchestrator: it reads and writes the state, and
    returns or throws. *)
Definition M (A : Type) : Type := OrchState -> Exc A * OrchState.

#[global] Instance M_ret : MRet M := fun A a st => (Ok a, st).
#[global] Instance M_bind : MBind M := fun A B f c st =>
  match c st with
  | (Ok a, st') => f a st'
  | (Throw e, st') => (Throw e, st')
  end.

Definition lift {A} (c : Exc A) : M A := fun st => (c, st).
Definition get : M OrchState := fun st => (Ok st, st).
Definition modify (f : OrchState -> OrchState) : M unit := fun st => (Ok tt, f st).

(** How a block of statements ends: it runs to its end, leaves the enclosing
    loop, or returns from the function. *)
Inductive Ctl : Type := Next | Break | Returned.

(** *** Store and emitter helpers ([orchestrator.ts]) *)

Definition is_terminal_write (status : HealingStatus) : bool :=
  match status with
  | completed | failed => true
  | _ => false
  end.

Definition updateSessionStatus (status : HealingStatus) (error : option string) : M unit :=
  modify (with_doc (fun d =>
    mkSessionDoc status
      (if truthy error then error else doc_error d)
      (is_terminal_write status || doc_completedAt d)
      (doc_currentAttempt d) (doc_branchName d) (doc_bugs d) (doc_attempts d)
      (doc_score d) (doc_prUrl d) (doc_prNumber d))).

(** [updateSessionField(sessionId, { currentAttempt })] *)
Definition updateCurrentAttempt (attempt : Z) : M unit :=
  modify (with_doc (fun d =>
    mkSessionDoc (doc_status d) (doc_error d) (doc_completedAt d) attempt
      (doc_branchName d) (doc_bugs d) (doc_attempts d) (doc_score d)
      (doc_prUrl d) (doc_prNumber d))).

(** [updateSessionField(sessionId, { ..., branchName, ... })] *)
Definition updateBranchInfo (branchName : string) : M unit :=
  modify (with_doc (fun d =>
    mkSessionDoc (doc_status d) (doc_error d) (doc_completedAt d) (doc_currentAttempt d)
      (Some branchName) (doc_bugs d) (doc_attempts d) (doc_score d)
      (doc_prUrl d) (doc_prNumber d))).

(** [updateSessionField(sessionId, { bugs: allBugs, attempts })] *)
Definition updateBugsAndAttempts : M unit :=
  modify (fun st => with_doc (fun d =>
    mkSessionDoc (doc_status d) (doc_error d) (doc_completedAt d) (doc_currentAttempt d)
      (doc_branchName d) (st_allBugs st) (st_attempts st) (doc_score d)
      (doc_prUrl d) (doc_prNumber d)) st).

(** [updateSessionField(sessionId, { prUrl, prNumber })] *)
Definition updatePr (prUrl : option string) (prNumber : option Z) : M unit :=
  modify (with_doc (fun d =>
    mkSessionDoc (doc_status d) (doc_error d) (doc_completedAt d) (doc_currentAttempt d)
      (doc_branchName d) (doc_bugs d) (doc_attempts d) (doc_score d) prUrl prNumber)).

Definition finalizeSession (status : HealingStatus) (bugs : list HealingBug)
    (attempts : list HealingAttempt) (score : HealingScore) : M unit :=
  modify (with_doc (fun d =>
    mkSessionDoc status (doc_error d) true (doc_currentAttempt d) (doc_branchName d)
      bugs attempts (Some score) (doc_prUrl d) (doc_prNumber d))).

Definition emitStatus (status : HealingStatus) : M unit :=
  modify (with_events (fun l => (l ++ [EStatus status])%list)).
Definition emitScore (score : HealingScore) : M unit :=
  modify (with_events (fun l => (l ++ [EScore score])%list)).
Definition emitError (msg : string) : M unit :=
  modify (with_events (fun l => (l ++ [EError msg])%list)).

(** *** Bug bookkeeping *)

(** [b.filePath === bug.filePath && b.line === bug.line] *)
Definition same_location (b bug : HealingBug) : bool :=
  String.eqb (filePath b) (filePath bug) && (line b =? line bug).

(** [bug.fixed = true; bug.fixedAtAttempt = attempt] *)
Definition set_fixed (attempt : Z) (b : HealingBug) : HealingBug :=
  mkBug (bug_id b) (category b) (filePath b) (line b) (message b) (severity b)
    true (Some attempt).

(** The object that [allBugs.find((b) => b.id === bugId)] returns is an
    element of [allBugs]; the assignment to it changes that element. *)
Fixpoint mark_fixed (bugId : string) (attempt : Z) (allBugs : list HealingBug)
    : list HealingBug :=
  match allBugs with
  | [] => []
  | b :: rest =>
      if String.eqb (bug_id b) bugId
      then set_fixed attempt b :: rest
      else b :: mark_fixed bugId attempt rest
  end.

(** [for (const result of fixResult.results) if (result.applied) ...] *)
Fixpoint markApplied (results : list FixResult) (attempt : Z) (allBugs : list HealingBug)
    : list HealingBug :=
  match results with
  | [] => allBugs
  | result :: rest =>
      markApplied rest attempt
        (if applied result then mark_fixed (bugId result) attempt allBugs else allBugs)
  end.

Definition show_category (c : BugCategory) : string :=
  match c with
  | SYNTAX => "SYNTAX" | LINTING => "LINTING" | RUNTIME => "RUNTIME"
  | LOGIC => "LOGIC" | IMPORT => "IMPORT" | TYPE => "TYPE"
  | DEPENDENCY => "DEPENDENCY"
  end.

(** ** Orchestrator ([orchestrator.ts], the revision that requires the fork) *)
Module Orchestrator.

Definition MAX_ATTEMPTS : Z := 3.

Record OrchestratorInput : Type := mkInput {
  sessionId : string;
  repoUrl : string;
  userId : string;
  teamName : string;
  leaderName : string
}.

(** [isTimedOut(startTime)] at the [check]-th test of the clock in attempt
    [attempt]. *)
Definition isTimedOut (env : Env) (attempt : Z) (check : nat) : bool :=
  timedOut env attempt check.

(** The loop over the scanner's bugs: a bug at a location that is already
    fixed is skipped, a bug at a new location is pushed on [allBugs], and
    every bug that is not skipped is pushed on [genuinelyNewBugs]. *)
Fixpoint trackScanned (bugs allBugs genuinelyNewBugs : list HealingBug)
    : list HealingBug * list HealingBug :=
  match bugs with
  | [] => (allBugs, genuinelyNewBugs)
  | bug :: rest =>
      match List.find (fun b => same_location b bug && fixed b) allBugs with
      | Some alreadyFixed => trackScanned rest allBugs genuinelyNewBugs
      | None =>
          let allBugs :=
            match List.find (fun b => same_location b bug) allBugs with
            | Some alreadyTracked => allBugs
            | None => (allBugs ++ [bug])%list
            end in
          trackScanned rest allBugs (genuinelyNewBugs ++ [bug])%list
      end
  end.

(** [testResult.errors.filter(...).map(...)]: a bug for every parsed error
    whose location is not already fixed. *)
Definition synthesize (env : Env) (attempt : Z) (allBugs : list HealingBug)
    (errors : list ParsedError) : list HealingBug :=
  imap (fun i e =>
          {| bug_id := uuidv4 env attempt i;
             category := pe_type e;
             filePath := pe_filePath e;
             line := pe_line e;
             message := show_category (pe_type e) ++ " error in " ++ pe_filePath e
                        ++ " line " ++ pretty (pe_line e) ++ ": " ++ pe_message e;
             severity := "high";
             fixed := false;
             fixedAtAttempt := None |})
       (List.filter
          (fun e => negb (existsb (fun b => String.eqb (filePath b) (pe_filePath e)
                                            && (line b =? pe_line e) && fixed b) allBugs))
          errors).

(** [for (const bug of bugsToFix) if (!allBugs.find(...)) allBugs.push(bug)] *)
Fixpoint trackSynthesized (bugsToFix allBugs : list HealingBug) : list HealingBug :=
  match bugsToFix with
  | [] => allBugs
  | bug :: rest =>
      trackSynthesized rest
        (match List.find (fun b => same_location b bug) allBugs with
         | Some _ => allBugs
         | None => (allBugs ++ [bug])%list
         end)
  end.

Section Run.

Variable env : Env.
Variable input : OrchestratorInput.
Variables repoOwner repoName : string.

Definition cloneRepoM (forkOwner forkRepoName : string) : M string := fun st =>
  let '(r, fs) := cloneRepo env (repoUrl input) (sessionId input)
                    (Some forkOwner) (Some forkRepoName) (st_fs st) in
  (r, with_fs (fun _ => fs) st).

Definition attemptCreatePR (repoDir branchName forkOwner : string)
    (bugsFixed totalBugs attempts score : Z) : M unit :=
  modify (with_prCalls (fun l =>
    (l ++ [mkPrCall repoOwner repoName branchName forkOwner bugsFixed totalBugs
             attempts score])%list));;
  prResult ← lift (RepoManager.createPullRequest env repoDir repoOwner repoName
                     branchName forkOwner bugsFixed totalBugs attempts score);
  if pr_success prResult
  then updatePr (prUrl prResult) (prNumber prResult)
  else mret tt.

(** The body of the loop for one value of [attempt]. *)
Definition attemptBody (attempt : Z) : M Ctl :=
  updateCurrentAttempt attempt;;
  if isTimedOut env attempt 0 then mret Break else
  updateSessionStatus scanning None;;
  emitStatus scanning;;
  updateSessionStatus testing None;;
  emitStatus testing;;
  st ← get;
  let testResult := runTests env attempt (st_repoDir st) in
  if passed testResult then
    let attemptRecord :=
      mkAttempt attempt att_passed (take_string 5000 (fullOutput testResult)) 0 0
        None None in
    modify (with_attempts (fun l => (l ++ [attemptRecord])%list));;
    st ← get;
    let score :=
      calculateScore (st_allBugs st) true attempt
        (getCommitCount env attempt (st_repoDir st) (st_branchName st))
        (elapsedSeconds env attempt) in
    finalizeSession completed (st_allBugs st) (st_attempts st) score;;
    emitScore score;;
    attemptCreatePR (st_repoDir st) (st_branchName st) (st_forkOwner st)
      (bugsFixed score) (totalBugs score) attempt (finalScore score);;
    emitStatus completed;;
    mret Returned
  else
  if isTimedOut env attempt 1 then mret Break else
  updateSessionStatus scanning None;;
  emitStatus scanning;;
  bugs ← lift (scanForBugs env attempt);
  st ← get;
  let '(allBugs, genuinelyNewBugs) := trackScanned bugs (st_allBugs st) [] in
  modify (with_allBugs (fun _ => allBugs));;
  let synthesized :=
    (length genuinelyNewBugs =? 0)%nat && (0 <? length (errors testResult))%nat in
  let bugsToFix :=
    if synthesized
    then synthesize env attempt allBugs (errors testResult)
    else genuinelyNewBugs in
  (if synthesized
   then modify (with_allBugs (trackSynthesized bugsToFix))
   else mret tt);;
  if (length bugsToFix =? 0)%nat then
    st ← get;
    let attemptRecord :=
      mkAttempt attempt att_passed (take_string 5000 (fullOutput testResult)) 0
        (fixedCount (st_allBugs st)) None None in
    modify (with_attempts (fun l => (l ++ [attemptRecord])%list));;
    st ← get;
    let score :=
      calculateScore (st_allBugs st) true attempt
        (getCommitCount env attempt (st_repoDir st) (st_branchName st))
        (elapsedSeconds env attempt) in
    finalizeSession completed (st_allBugs st) (st_attempts st) score;;
    emitScore score;;
    attemptCreatePR (st_repoDir st) (st_branchName st) (st_forkOwner st)
      (bugsFixed score) (totalBugs score) attempt (finalScore score);;
    emitStatus completed;;
    mret Returned
  else
  if isTimedOut env attempt 2 then mret Break else
  updateSessionStatus fixing None;;
  emitStatus fixing;;
  fixResult ← lift (fixAllBugs env attempt bugsToFix);
  modify (with_allBugs (markApplied (results fixResult) attempt));;
  if isTimedOut env attempt 3 then mret Break else
  updateSessionStatus pushing None;;
  emitStatus pushing;;
  st ← get;
  let commitMessage :=
    "Fix " ++ pretty (fix_bugsFixed fixResult) ++ " bug(s) - attempt "
    ++ pretty attempt ++ "/" ++ pretty MAX_ATTEMPTS in
  commitSha ← lift (commitChanges env attempt (st_repoDir st) commitMessage);
  let pushed :=
    if truthy commitSha
    then try_catch (pushBranch env attempt (st_repoDir st) (st_branchName st))
           (fun pushError => Ok tt)
    else Ok tt in
  let attemptRecord :=
    mkAttempt attempt att_failed (take_string 5000 (fullOutput testResult))
      (Z.of_nat (length bugs)) (fix_bugsFixed fixResult)
      (if truthy commitSha then commitSha else None)
      (if truthy commitSha then Some ("[AI-AGENT] " ++ commitMessage) else None) in
  modify (with_attempts (fun l => (l ++ [attemptRecord])%list));;
  updateBugsAndAttempts;;
  mret Next.

(** [for (let attempt = ...; attempt <= MAX_ATTEMPTS; attempt++)] with [n]
    iterations left: [Next] when the loop is left at its end or by [break],
    [Returned] when its body returns from the function. *)
Fixpoint attemptLoop (n : nat) (attempt : Z) : M Ctl :=
  match n with
  | O => mret Next
  | S n' =>
      c ← attemptBody attempt;
      match c with
      | Next => attemptLoop n' (attempt + 1)
      | Break => mret Next
      | Returned => mret Returned
      end
  end.

(** The statements after the loop. *)
Definition finalVerification : M unit :=
  emitStatus testing;;
  st ← get;
  let finalTest := runTests env (MAX_ATTEMPTS + 1) (st_repoDir st) in
  let totalCommits :=
    getCommitCount env (MAX_ATTEMPTS + 1) (st_repoDir st) (st_branchName st) in
  let elapsedSec := elapsedSeconds env (MAX_ATTEMPTS + 1) in
  let score :=
    calculateScore (st_allBugs st) (passed finalTest) MAX_ATTEMPTS totalCommits elapsedSec in
  if passed finalTest then
    finalizeSession completed (st_allBugs st) (st_attempts st) score;;
    emitScore score;;
    attemptCreatePR (st_repoDir st) (st_branchName st) (st_forkOwner st)
      (bugsFixed score) (totalBugs score) MAX_ATTEMPTS (finalScore score);;
    emitStatus completed
  else
    let finalStatus := if 0 <? bugsFixed score then partial_success else failed in
    finalizeSession finalStatus (st_allBugs st) (st_attempts st) score;;
    emitScore score;;
    (if 0 <? bugsFixed score
     then attemptCreatePR (st_repoDir st) (st_branchName st) (st_forkOwner st)
            (bugsFixed score) (totalBugs score) MAX_ATTEMPTS (finalScore score)
     else mret tt);;
    if 0 <? bugsFixed score
    then emitStatus partial_success
    else emitStatus failed.

(** The loop and what follows it: the final verification runs unless the
    body of the loop returned. *)
Definition loopAndVerify : M Ctl :=
  c ← attemptLoop (Z.to_nat MAX_ATTEMPTS) 1;
  match c with
  | Returned => mret Returned
  | _ => finalVerification;; mret Next
  end.

(** The statements of the [try] block after the clone. The dependencies are
    installed here, once; [installDependencies] catches its errors and
    changes nothing that is kept in the state. *)
Definition afterClone (repoDir : string) : M Ctl :=
  modify (with_repoDir repoDir);;
  let branchName := RepoManager.getHealingBranchName (teamName input) (leaderName input) in
  modify (with_branchName branchName);;
  lift (createBranch env repoDir branchName);;
  updateBranchInfo branchName;;
  loopAndVerify.

(** The [try] block. *)
Definition tryBlock : M Ctl :=
  updateSessionStatus cloning None;;
  emitStatus cloning;;
  forkResult ← lift (RepoManager.forkRepo env repoOwner repoName);
  if fork_success forkResult then
    modify (fun st => with_fork (forkOwner forkResult) (st_forkRepoName st) (st_useFork st) st);;
    emitStatus cloning;;
    repoDir ← cloneRepoM (forkOwner forkResult) (forkRepo_ forkResult);
    afterClone repoDir
  else
    botUser ← lift (RepoManager.getBotUsername env);
    let errorMsg :=
      "Cannot fork " ++ repoOwner ++ "/" ++ repoName ++ ": "
      ++ default "undefined" (fork_error forkResult) ++ ". "
      ++ "Bot: " ++ botUser
      ++ ". Ensure the bot token has 'public_repo' or 'repo' scope." in
    emitError errorMsg;;
    updateSessionStatus failed (Some errorMsg);;
    mret Returned.

(** The [catch] block. *)
Definition catchBlock (error : JsError) : M unit :=
  let errorMessage := err_message error in
  emitError errorMessage;;
  updateSessionStatus failed (Some errorMessage).

(** The [finally] block: an error of the cleanup is ignored. *)
Definition finallyBlock : M unit := fun st =>
  if truthy (Some (st_repoDir st))
  then (Ok tt, with_fs (fun fs => snd (RepoManager.cleanupSandbox (sessionId input) fs)) st)
  else (Ok tt, st).

End Run.

Definition runHealingLoop (env : Env) (input : OrchestratorInput) (fs : FS) : OrchState :=
  let st := initialState fs in
  match RepoManager.parseGitHubUrl (repoUrl input) with
  | Throw error =>
      snd ((updateSessionStatus failed (Some (err_message error));;
            emitError (err_message error)) st)
  | Ok parsed =>
      let '(r, st) := tryBlock env input (owner parsed) (repo parsed) st in
      let st :=
        match r with
        | Ok _ => st
        | Throw error => snd (catchBlock error st)
        end in
      snd (finallyBlock input st)
  end.

End Orchestrator.

(** ** Orchestrator ([orchestrator.ts], the revision that falls back to the
    original repository)

    The attestation recorder that this revision calls after a push has no
    effect on the state kept here and is left out. *)
Module OrchestratorFallback.

Definition MAX_ATTEMPTS : Z := 5.

Record OrchestratorInput : Type := mkInput {
  sessionId : string;
  repoUrl : string;
  userId : string
}.

(** The loop over the scanner's bugs: a bug at a location that is not yet
    tracked is pushed on [allBugs] and on [newBugs]. *)
Fixpoint trackNew (bugs allBugs newBugs : list HealingBug)
    : list HealingBug * list HealingBug :=
  match bugs with
  | [] => (allBugs, newBugs)
  | bug :: rest =>
      match List.find (fun b => same_location b bug) allBugs with
      | Some existing => trackNew rest allBugs newBugs
      | None => trackNew rest (allBugs ++ [bug])%list (newBugs ++ [bug])%list
      end
  end.

Section Run.

Variable env : Env.
Variable input : OrchestratorInput.
Variables repoOwner repoName : string.

Definition cloneRepoM (forkOwner forkRepoName : option string) : M string := fun st =>
  let '(r, fs) := cloneRepoNoRetry env (repoUrl input) (sessionId input)
                    forkOwner forkRepoName (st_fs st) in
  (r, with_fs (fun _ => fs) st).

(** [if (useFork) { createPullRequest(..., forkOwner, ...) } else
    { createPullRequest(..., repoOwner, ...) }], followed in both branches by
    the update of the session when the call succeeded. *)
Definition createPR (bugsFixed totalBugs attempts score : Z) : M unit :=
  st ← get;
  let head := if st_useFork st then st_forkOwner st else repoOwner in
  modify (with_prCalls (fun l =>
    (l ++ [mkPrCall repoOwner repoName (st_branchName st) head bugsFixed totalBugs
             attempts score])%list));;
  prResult ← lift (RepoManagerNoRetry.createPullRequest env (st_repoDir st) repoOwner
                     repoName (st_branchName st) head bugsFixed totalBugs attempts score);
  if pr_success prResult
  then updatePr (prUrl prResult) (prNumber prResult)
  else mret tt.

Definition attemptBody (attempt : Z) : M Ctl :=
  updateCurrentAttempt attempt;;
  updateSessionStatus scanning None;;
  emitStatus scanning;;
  updateSessionStatus testing None;;
  emitStatus testing;;
  st ← get;
  let testResult := runTests env attempt (st_repoDir st) in
  if passed testResult then
    let attemptRecord :=
      mkAttempt attempt att_passed (take_string 5000 (fullOutput testResult)) 0 0
        None None in
    modify (with_attempts (fun l => (l ++ [attemptRecord])%list));;
    st ← get;
    let score :=
      calculateScore (st_allBugs st) true attempt
        (getCommitCount env attempt (st_repoDir st) (st_branchName st))
        (elapsedSeconds env attempt) in
    finalizeSession completed (st_allBugs st) (st_attempts st) score;;
    emitScore score;;
    createPR (bugsFixed score) (totalBugs score) attempt (finalScore score);;
    emitStatus completed;;
    mret Returned
  else
  updateSessionStatus scanning None;;
  emitStatus scanning;;
  bugs ← lift (scanForBugs env attempt);
  st ← get;
  let '(allBugs, newBugs) := trackNew bugs (st_allBugs st) [] in
  modify (with_allBugs (fun _ => allBugs));;
  updateSessionStatus fixing None;;
  emitStatus fixing;;
  let unfixedBugs := List.filter (fun b => negb (fixed b)) bugs in
  fixResult ← lift (fixAllBugs env attempt
                      (if (0 <? length unfixedBugs)%nat then unfixedBugs else bugs));
  modify (with_allBugs (markApplied (results fixResult) attempt));;
  updateSessionStatus pushing None;;
  emitStatus pushing;;
  st ← get;
  let commitMessage :=
    "Fix " ++ pretty (fix_bugsFixed fixResult) ++ " bug(s) - attempt "
    ++ pretty attempt ++ "/" ++ pretty MAX_ATTEMPTS in
  commitSha ← lift (commitChanges env attempt (st_repoDir st) commitMessage);
  (if truthy commitSha
   then lift (pushBranch env attempt (st_repoDir st) (st_branchName st))
   else mret tt);;
  let attemptRecord :=
    mkAttempt attempt att_failed (take_string 5000 (fullOutput testResult))
      (Z.of_nat (length bugs)) (fix_bugsFixed fixResult)
      (if truthy commitSha then commitSha else None)
      (if truthy commitSha then Some ("[AI-AGENT] " ++ commitMessage) else None) in
  modify (with_attempts (fun l => (l ++ [attemptRecord])%list));;
  updateBugsAndAttempts;;
  mret Next.

Fixpoint attemptLoop (n : nat) (attempt : Z) : M Ctl :=
  match n with
  | O => mret Next
  | S n' =>
      c ← attemptBody attempt;
      match c with
      | Next => attemptLoop n' (attempt + 1)
      | Break => mret Next
      | Returned => mret Returned
      end
  end.

Definition finalVerification : M unit :=
  emitStatus testing;;
  st ← get;
  let finalTest := runTests env (MAX_ATTEMPTS + 1) (st_repoDir st) in
  let totalCommits :=
    getCommitCount env (MAX_ATTEMPTS + 1) (st_repoDir st) (st_branchName st) in
  let elapsedSec := elapsedSeconds env (MAX_ATTEMPTS + 1) in
  let score :=
    calculateScore (st_allBugs st) (passed finalTest) MAX_ATTEMPTS totalCommits elapsedSec in
  if passed finalTest then
    finalizeSession completed (st_allBugs st) (st_attempts st) score;;
    emitScore score;;
    createPR (bugsFixed score) (totalBugs score) MAX_ATTEMPTS (finalScore score);;
    emitStatus completed
  else
    finalizeSession failed (st_allBugs st) (st_attempts st) score;;
    emitScore score;;
    (if 0 <? bugsFixed score
     then createPR (bugsFixed score) (totalBugs score) MAX_ATTEMPTS (finalScore score)
     else mret tt);;
    emitStatus failed.

Definition loopAndVerify : M Ctl :=
  c ← attemptLoop (Z.to_nat MAX_ATTEMPTS) 1;
  match c with
  | Returned => mret Returned
  | _ => finalVerification;; mret Next
  end.

Definition afterClone (repoDir : string) : M Ctl :=
  modify (with_repoDir repoDir);;
  branchName ← lift (createBranch env repoDir RepoManagerNoRetry.getHealingBranchName);
  modify (with_branchName branchName);;
  updateBranchInfo branchName;;
  loopAndVerify.

Definition tryBlock : M Ctl :=
  emitStatus cloning;;
  forkResult ← lift (RepoManagerNoRetry.forkRepo env repoOwner repoName);
  (if fork_success forkResult
   then modify (with_fork (forkOwner forkResult) (forkRepo_ forkResult) true)
   else modify (with_fork repoOwner repoName false));;
  updateSessionStatus cloning None;;
  emitStatus cloning;;
  st ← get;
  repoDir ← cloneRepoM
               (if st_useFork st then Some (st_forkOwner st) else None)
               (if st_useFork st then Some (st_forkRepoName st) else None);
  afterClone repoDir.

Definition catchBlock (error : JsError) : M unit :=
  let errorMessage := err_message error in
  emitError errorMessage;;
  updateSessionStatus failed (Some errorMessage).

Definition finallyBlock : M unit := fun st =>
  if truthy (Some (st_repoDir st))
  then (Ok tt, with_fs (fun fs => snd (RepoManagerNoRetry.cleanupSandbox (sessionId input) fs)) st)
  else (Ok tt, st).

End Run.

Definition runHealingLoop (env : Env) (input : OrchestratorInput) (fs : FS) : OrchState :=
  let st := initialState fs in
  match RepoManagerNoRetry.parseGitHubUrl (repoUrl input) with
  | Throw error =>
      snd ((updateSessionStatus failed (Some (err_message error));;
            emitError (err_message error)) st)
  | Ok parsed =>
      let '(r, st) := tryBlock env input (owner parsed) (repo parsed) st in
      let st :=
        match r with
        | Ok _ => st
        | Throw error => snd (catchBlock error st)
        end in
      snd (finallyBlock input st)
  end.

End OrchestratorFallback.

(** ** The branch name in the words of the specification *)
Module BranchSpec.

Definition is_word_char (c : ascii) : bool :=
  is_upper c || is_lower c || is_digit c || Ascii.eqb c "_".

(** Every run of white space becomes one underscore; [in_run] tells that the
    previous code unit was white space. *)
Fixpoint collapse (in_run : bool) (s : string) : string :=
  match s with
  | EmptyString => EmptyString
  | String c s' =>
      if is_space c
      then if in_run then collapse true s' else String "_" (collapse true s')
      else String c (collapse false s')
  end.

(** Spaces collapsed to underscores, the other characters that are neither
    alphanumeric nor an underscore stripped, the rest in upper case. *)
Definition normalize (s : string) : string :=
  toUpperCase (filter_string is_word_char (collapse false s)).

Definition branchName (team leader : string) : string :=
  normalize team ++ "_" ++ normalize leader ++ "_AI_Fix".

End BranchSpec.

(** ** The repository URLs the specification admits *)
Module UrlSpec.

(** [https://github.com/<owner>/<repo>] with an optional [.git]: after the
    prefix, a non-empty owner without a slash, a slash, and a non-empty rest
    without a slash. *)
Definition is_https_form (url : string) : bool :=
  match strip_prefix "https://github.com/" url with
  | Some rest =>
      let owner := before_slash rest in
      match strip_prefix (owner ++ "/") rest with
      | Some repo =>
          negb (String.eqb owner EmptyString) && negb (String.eqb repo EmptyString)
          && forall_string RepoManager.not_slash repo
      | None => false
      end
  | None => false
  end.

(** What a pattern of [parseGitHubUrl] asks of a string: it ends with
    [github.com/<o>/<r>], followed by nothing or by [suffix], where the owner
    [o] is not empty and has no slash, and the name [r] is not empty and has
    only characters of [class]. What comes before [github.com/] is free. *)
Definition ends_with_repo (class : ascii -> bool) (suffix url o r : string) : Prop :=
  exists pre tail : string,
    url = pre ++ "github.com/" ++ o ++ "/" ++ r ++ tail
    /\ (tail = EmptyString \/ tail = suffix)
    /\ o <> EmptyString /\ forall_string RepoManager.not_slash o = true
    /\ r <> EmptyString /\ forall_string class r = true.

(** [...github.com/<o>/<r>] and [...github.com/<o>/<r>.git] for a name
    without slash and dot. *)
Definition plain_form : string -> string -> string -> Prop :=
  ends_with_repo RepoManager.not_slash_dot ".git".

(** [...github.com/<o>/<r>] and [...github.com/<o>/<r>/] for a name without
    slash. *)
Definition dotted_form : string -> string -> string -> Prop :=
  ends_with_repo RepoManager.not_slash "/".

End UrlSpec.

(** ** Outcomes of the GitHub API named in the specification *)

(** The outcome of a create-pull-request call is HTTP 422 with the message
    that a pull request already exists. *)
Definition already_exists (r : Exc (Response PrData)) : bool :=
  match r with
  | Ok response =>
      (resp_status response =? 422)
      && match hd None (ed_errors (errorData response)) with
         | Some m => includes "pull request already exists" m
         | None => false
         end
  | Throw _ => false
  end.

(** The call did not create a pull request: the request failed, the status
    is not a success, or the body of the answer could not be read. *)
Definition create_failed (r : Exc (Response PrData)) : bool :=
  match r with
  | Ok response =>
      negb (ok response)
      || match json response with
         | Ok _ => false
         | Throw _ => true
         end
  | Throw _ => true
  end.

(** The open pull requests the search for the head branch returns; none when
    the search fails. *)
Definition openPrs (env : Env) : list PrData :=
  match prSearch env with
  | Ok searchRes =>
      if ok searchRes
      then match json searchRes with
           | Ok prs => prs
           | Throw _ => []
           end
      else []
  | Throw _ => []
  end.




(** ** Sample environments *)
Module Samples.

Definition forkCreated : Response ForkData :=
  mkResponse 202 "Accepted" emptyErrorData
    (Ok (mkForkData "zero-bot" (Some "zero-bot/hello-world") "hello-world")).

Definition forbidden {B} : Response B :=
  mkResponse 403 "Forbidden"
    {| ed_message := Some "Resource not accessible by personal access token";
       ed_errors := [] |}
    (Throw (mkError "body not read")).

Definition prCreated : Response PrData :=
  mkResponse 201 "Created" emptyErrorData
    (Ok (mkPrData 7 "https://github.com/octocat/hello-world/pull/7")).

Definition prAlreadyExists : Response PrData :=
  mkResponse 422 "Unprocessable Entity"
    {| ed_message := Some "Validation Failed";
       ed_errors := [Some "A pull request already exists for zero-bot:TEAM_LEAD_AI_Fix."] |}
    (Throw (mkError "body not read")).

Definition prFound : Response (list PrData) :=
  mkResponse 200 "OK" emptyErrorData
    (Ok [mkPrData 5 "https://github.com/octocat/hello-world/pull/5"]).

Definition passing : TestResult :=
  {| passed := true; fullOutput := "12 passing"; errors := [] |}.

Definition failing : TestResult :=
  {| passed := false; fullOutput := "src/calc.js:3:1: error Unexpected token";
     errors := [mkParsedError "src/calc.js" 3 "src/calc.js:3:1: error Unexpected token" LINTING] |}.

Definition bugAt (ident file : string) (l : Z) : HealingBug :=
  mkBug ident LOGIC file l "wrong result" "high" false None.

(** A repository whose tests pass, a fork that succeeds, a pull request that
    is created, and a clock that stays within the budget. *)
Definition healthy : Env :=
  {| GITHUB_BOT_TOKEN := Some "ghp_token";
     forkPost := fun _ => Ok forkCreated;
     forkPolls := [Ok (mkResponse 200 "OK" emptyErrorData (Ok tt))];
     prPost := fun _ => Ok prCreated;
     prSearch := Ok prFound;
     userGet := Ok (mkResponse 200 "OK" emptyErrorData (Ok "zero-bot"));
     gitClone := Ok tt;
     clonedFiles := ["package.json"; "src/calc.js"];
     gitCheckout := Ok tt;
     gitDefaultBranch := "main";
     gitCommit := fun _ => Ok (Some "0123456789abcdef");
     gitPush := fun _ => Ok tt;
     gitCommitCount := fun _ => 0;
     installCommand := Some "npm install";
     testRun := fun _ => passing;
     scanForBugs := fun _ => Ok [];
     fixAllBugs := fun _ _ => Ok (mkFixAllResult [] 0 0);
     uuidv4 := fun attempt i => "uuid-" ++ pretty attempt ++ "-" ++ pretty i;
     timedOut := fun _ _ => false;
     elapsedSeconds := fun _ => 10%Q |}.

Definition with_forkPost (f : Z -> Exc (Response ForkData)) (e : Env) : Env :=
  mkEnv (GITHUB_BOT_TOKEN e) f (forkPolls e) (prPost e) (prSearch e) (userGet e)
    (gitClone e) (clonedFiles e) (gitCheckout e) (gitDefaultBranch e) (gitCommit e)
    (gitPush e) (gitCommitCount e) (installCommand e) (testRun e) (scanForBugs e)
    (fixAllBugs e) (uuidv4 e) (timedOut e) (elapsedSeconds e).

Definition with_prPost (f : Z -> Exc (Response PrData)) (e : Env) : Env :=
  mkEnv (GITHUB_BOT_TOKEN e) (forkPost e) (forkPolls e) f (prSearch e) (userGet e)
    (gitClone e) (clonedFiles e) (gitCheckout e) (gitDefaultBranch e) (gitCommit e)
    (gitPush e) (gitCommitCount e) (installCommand e) (testRun e) (scanForBugs e)
    (fixAllBugs e) (uuidv4 e) (timedOut e) (elapsedSeconds e).

Definition with_agents (tests : Z -> TestResult) (scanner : Z -> Exc (list HealingBug))
    (engineer : Z -> list HealingBug -> Exc FixAllResult) (e : Env) : Env :=
  mkEnv (GITHUB_BOT_TOKEN e) (forkPost e) (forkPolls e) (prPost e) (prSearch e) (userGet e)
    (gitClone e) (clonedFiles e) (gitCheckout e) (gitDefaultBranch e) (gitCommit e)
    (gitPush e) (gitCommitCount e) (installCommand e) tests scanner engineer
    (uuidv4 e) (timedOut e) (elapsedSeconds e).

(** The fork is refused with HTTP 403 at every attempt. *)
Definition forkForbidden : Env := with_forkPost (fun _ => Ok forbidden) healthy.

(** The pull request already exists. *)
Definition prExists : Env := with_prPost (fun _ => Ok prAlreadyExists) healthy.

End Samples.

(** ** Reasoning about statements *)

(** The state a statement leaves. *)
Definition exec {A} (c : M A) (st : OrchState) : OrchState := snd (c st).

(** Every run of [c] relates the state before to the state after. *)
Definition respects {A} (R : OrchState -> OrchState -> Prop) (c : M A) : Prop :=
  forall st, R st (exec c st).

(** The disk and [repoDir] are left alone. *)
Definition same_sandbox (st st' : OrchState) : Prop :=
  st_fs st' = st_fs st /\ st_repoDir st' = st_repoDir st.

Definition location (b : HealingBug) : string * Z := (filePath b, line b).

(** No two bugs of the list are at the same file and line. *)
Definition unique_locations (l : list HealingBug) : Prop := NoDup (map location l).

(** [b'] is the bug [b] at a later time: the same identifier and location,
    and fixed if [b] was. *)
Definition later_bug (b b' : HealingBug) : Prop :=
  bug_id b' = bug_id b /\ location b' = location b /\ (fixed b = true -> fixed b' = true).

(** [l'] is the list [l] at a later time: its bugs in their places, followed
    by the bugs added since. *)
Definition grows (l l' : list HealingBug) : Prop :=
  exists kept added, l' = (kept ++ added)%list /\ Forall2 later_bug l kept.

(** The bug lists of the state, the one in memory and the one in the store. *)
Definition bugs_unique (st : OrchState) : Prop :=
  unique_locations (st_allBugs st) /\ unique_locations (doc_bugs (st_doc st)).


(** The state of the revision that requires the fork when it enters the
    loop, after a fork with result [fr] and a clone. *)
Definition loopEntry (env : Env) (input : Orchestrator.OrchestratorInput)
    (fr : ForkResult) (fs : FS) : OrchState :=
  let branchName :=
    RepoManager.getHealingBranchName (Orchestrator.teamName input)
      (Orchestrator.leaderName input) in
  {| st_fs := snd (cloneRepo env (Orchestrator.repoUrl input) (Orchestrator.sessionId input)
                     (Some (forkOwner fr)) (Some (forkRepo_ fr)) fs);
     st_doc := mkSessionDoc cloning None false 0 (Some branchName) [] [] None None None;
     st_prCalls := [];
     st_events := [EStatus cloning; EStatus cloning];
     st_allBugs := [];
     st_attempts := [];
     st_repoDir := RepoManager.getSandboxDir (Orchestrator.sessionId input);
     st_branchName := branchName;
     st_forkOwner := forkOwner fr;
     st_forkRepoName := EmptyString;
     st_useFork := false |}.

(** The engineer fails in the first attempt, after the scanner found a bug in
    a repository whose tests fail. *)
Definition Samples_engineerThrows : Env :=
  Samples.with_agents (fun _ => Samples.failing)
    (fun _ => Ok [Samples.bugAt "bug-1" "src/calc.js" 3])
    (fun _ _ => Throw (mkError "model overloaded"))
    Samples.healthy.

Definition Samples_input : Orchestrator.OrchestratorInput :=
  Orchestrator.mkInput "s1" "https://github.com/octocat/hello-world" "user-1"
    "tech chaos" "Anurag Mishra!".

Definition Samples_fallbackInput : OrchestratorFallback.OrchestratorInput :=
  OrchestratorFallback.mkInput "s1" "https://github.com/octocat/hello-world" "user-1".

(** The tests never pass, the scanner reports a bug at a new line in every
    attempt, and the engineer applies a fix only in the first attempt. *)
Definition Samples_stubborn : Env :=
  Samples.with_agents (fun _ => Samples.failing)
    (fun attempt => Ok [Samples.bugAt ("bug-" ++ pretty attempt) "src/calc.js" (10 + attempt)])
    (fun attempt bugs =>
       if attempt =? 1
       then Ok (mkFixAllResult
                  (map (fun b => mkFixResult true (filePath b) "patched" (bug_id b)) bugs)
                  (Z.of_nat (length bugs)) 1)
       else Ok (mkFixAllResult [] 0 0))
    Samples.healthy.

(** The same, with an engineer that never applies a fix. *)
Definition Samples_hopeless : Env :=
  Samples.with_agents (fun _ => Samples.failing)
    (fun attempt => Ok [Samples.bugAt ("bug-" ++ pretty attempt) "src/calc.js" (10 + attempt)])
    (fun _ _ => Ok (mkFixAllResult [] 0 0))
    Samples.healthy.

(** The same as [Samples_stubborn], with tests that pass in the final
    verification. *)
Definition Samples_late : Env :=
  Samples.with_agents
    (fun run => if run =? 4 then Samples.passing else Samples.failing)
    (scanForBugs Samples_stubborn) (fixAllBugs Samples_stubborn) Samples.healthy.

(** What a run of the statement [c] from the state [st] does to the bug
    lists: the list in memory grows, and the lists stay free of duplicate
    locations. *)
Definition bugs_kept (st st' : OrchState) : Prop :=
  grows (st_allBugs st) (st_allBugs st') /\ (bugs_unique st -> bugs_unique st').

Definition keeps_bugs {A} (c : M A) (st : OrchState) : Prop :=
  bugs_kept st (exec c st).

(** A state at the start of the second attempt in which the bug at
    [src/calc.js:3] is marked fixed. *)
Definition Samples_fixedState : OrchState :=
  with_allBugs
    (fun _ => [mkBug "bug-1" LOGIC "src/calc.js" 3 "wrong result" "high" true (Some 1)])
    (initialState ∅).

(** The fork result of the samples, and the state in which the loop of
    [Samples_stubborn] ends. *)
Definition Samples_fork : ForkResult :=
  mkForkResult "zero-bot" "hello-world" "https://github.com/zero-bot/hello-world" true None.

Definition Samples_afterLoop : OrchState :=
  snd (Orchestrator.attemptLoop Samples_stubborn "octocat" "hello-world" 3 1
         (loopEntry Samples_stubborn Samples_input Samples_fork ∅)).

(** * The rest of the session, the test runner and the dashboard *)

(** ** The record a session leaves *)

(** The statuses in which a session is over. *)
Definition is_final (s : HealingStatus) : bool :=
  match s with
  | completed | partial_success | failed => true
  | _ => false
  end.

(** The shape of the record of attempt [n]: it carries its number, it is not
    left running, a commit is on it with its message or not at all, the
    message carries the agent's prefix, and a passed attempt has no commit. *)
Definition attempt_wf (n : Z) (a : HealingAttempt) : Prop :=
  attempt a = n
  /\ status a <> att_running
  /\ (status a = att_passed -> commitSha a = None)
  /\ (commitSha a = None <-> commitMessage a = None)
  /\ (forall sha, commitSha a = Some sha -> sha <> EmptyString)
  /\ (forall m, commitMessage a = Some m -> exists rest, m = "[AI-AGENT] " ++ rest).

(** The records of a session: attempt [i + 1] at index [i], and every
    attempt before the last one failed. *)
Definition audit_trail (l : list HealingAttempt) : Prop :=
  forall i a, l !! i = Some a ->
    attempt_wf (Z.of_nat (S i)) a /\ ((S i < length l)%nat -> status a = att_failed).

(** The pull request call [c] is the one for the repository [o/r], from the
    branch and the fork of [st], with the numbers of the score [s]. *)
Definition describes (c : PrCall) (o r : string) (st : OrchState) (s : HealingScore) : Prop :=
  c = mkPrCall o r (st_branchName st) (st_forkOwner st) (bugsFixed s) (totalBugs s)
        (attempts s) (finalScore s).

(** [st'] is a state in which the session was finalized with [status] since
    [st]: the store has the status, the lists of the memory and a score
    computed from the bug list, the last event announces the status, and a
    pull request was requested unless the status is [failed]. *)
Definition finalized_as (status : HealingStatus) (o r : string) (st st' : OrchState) : Prop :=
  doc_status (st_doc st') = status
  /\ doc_completedAt (st_doc st') = true
  /\ doc_bugs (st_doc st') = st_allBugs st'
  /\ doc_attempts (st_doc st') = st_attempts st'
  /\ doc_error (st_doc st') = doc_error (st_doc st)
  /\ last (st_events st') = Some (EStatus status)
  /\ exists n commits elapsed,
       let s := calculateScore (st_allBugs st')
                  (match status with completed => true | _ => false end)
                  n commits elapsed in
       doc_score (st_doc st') = Some s
       /\ match status with
          | completed => True
          | partial_success => 0 < bugsFixed s
          | _ => bugsFixed s = 0
          end
       /\ match status with
          | completed | partial_success =>
              exists c, st_prCalls st' = (st_prCalls st ++ [c])%list /\ describes c o r st' s
          | _ => st_prCalls st' = st_prCalls st
          end.

(** [st'] is a later state of a session that is not finalized since [st]. *)
Definition unfinished (st st' : OrchState) : Prop :=
  st_prCalls st' = st_prCalls st
  /\ doc_score (st_doc st') = doc_score (st_doc st)
  /\ doc_completedAt (st_doc st') = doc_completedAt (st_doc st)
  /\ doc_error (st_doc st') = doc_error (st_doc st)
  /\ (doc_attempts (st_doc st) = st_attempts st ->
      doc_attempts (st_doc st') = st_attempts st').

(** The local variables that are assigned once, before the loop. *)
Definition same_locals (st st' : OrchState) : Prop :=
  st_repoDir st' = st_repoDir st
  /\ st_branchName st' = st_branchName st
  /\ st_forkOwner st' = st_forkOwner st.

(** What the body of the loop for attempt [n] does to the record, by the way
    it ends. *)
Definition attempt_effect (o r : string) (n : Z) (st : OrchState)
    (res : Exc Ctl * OrchState) : Prop :=
  let st' := snd res in
  same_locals st st'
  /\ match fst res with
     | Ok Returned =>
         (exists a, st_attempts st' = (st_attempts st ++ [a])%list
                    /\ attempt_wf n a /\ status a = att_passed)
         /\ finalized_as completed o r st st'
     | Ok Next =>
         (exists a, st_attempts st' = (st_attempts st ++ [a])%list
                    /\ attempt_wf n a /\ status a = att_failed)
         /\ unfinished st st'
     | Ok Break | Throw _ =>
         st_attempts st' = st_attempts st /\ unfinished st st'
     end.

(** What the loop does to the record when it starts at attempt [k] and has
    [n] iterations left: the records it adds are those of the attempts [k],
    [k + 1], ..., and only the last of them can have passed. *)
Definition loop_effect (o r : string) (k : Z) (n : nat) (st : OrchState)
    (res : Exc Ctl * OrchState) : Prop :=
  let st' := snd res in
  same_locals st st'
  /\ exists recs,
       st_attempts st' = (st_attempts st ++ recs)%list
       /\ (length recs <= n)%nat
       /\ (forall i a, recs !! i = Some a ->
             attempt_wf (k + Z.of_nat i) a
             /\ ((S i < length recs)%nat -> status a = att_failed))
       /\ match fst res with
          | Ok Returned => finalized_as completed o r st st'
          | _ => Forall (fun a => status a = att_failed) recs /\ unfinished st st'
          end.

(** What the statements after the loop do: they finalize the session. *)
Definition verification_effect (o r : string) (st : OrchState)
    (res : Exc unit * OrchState) : Prop :=
  let st' := snd res in
  fst res = Ok tt
  /\ same_locals st st'
  /\ st_attempts st' = st_attempts st
  /\ exists status, is_final status = true /\ finalized_as status o r st st'.

(** A session that ended in an error: it is failed without a score and
    without a pull request, and the last event is the error. *)
Definition ended_in_error (st : OrchState) : Prop :=
  doc_status (st_doc st) = failed
  /\ doc_completedAt (st_doc st) = true
  /\ doc_score (st_doc st) = None
  /\ st_prCalls st = []
  /\ doc_attempts (st_doc st) = st_attempts st
  /\ Forall (fun a => status a = att_failed) (st_attempts st)
  /\ exists msg,
       last (st_events st) = Some (EError msg)
       /\ doc_error (st_doc st) = (if truthy (Some msg) then Some msg else None).

(** A session that ended by a finalization. *)
Definition ended_finalized (o r : string) (st : OrchState) : Prop :=
  exists status,
    is_final status = true
    /\ finalized_as status o r (initialState (st_fs st)) st.

(** The outside world [env] with pushes that end as [push] says. *)
Definition with_gitPush (push : Z -> Exc unit) (env : Env) : Env :=
  mkEnv (GITHUB_BOT_TOKEN env) (forkPost env) (forkPolls env) (prPost env) (prSearch env)
    (userGet env) (gitClone env) (clonedFiles env) (gitCheckout env) (gitDefaultBranch env)
    (gitCommit env) push (gitCommitCount env) (installCommand env) (testRun env)
    (scanForBugs env) (fixAllBugs env) (uuidv4 env) (timedOut env) (elapsedSeconds env).

(** [allBugs.some((b) => b.filePath === file && b.line === ln && b.fixed)] *)
Definition fixed_at (allBugs : list HealingBug) (file : string) (ln : Z) : bool :=
  existsb (fun b => String.eqb (filePath b) file && (line b =? ln) && fixed b) allBugs.

(** What the marking of the applied [results] in attempt [attempt] can do to
    a bug [b]: leave it as it is, or mark it fixed in this attempt because an
    applied result names it; its other fields stay. *)
Definition marked (results : list FixResult) (attempt : Z) (b b' : HealingBug) : Prop :=
  bug_id b' = bug_id b /\ category b' = category b /\ filePath b' = filePath b
  /\ line b' = line b /\ message b' = message b /\ severity b' = severity b
  /\ (b' = b
      \/ (fixed b' = true /\ fixedAtAttempt b' = Some attempt
          /\ exists res, res ∈ results /\ applied res = true /\ bugId res = bug_id b)).


(** The result of [createPullRequest] is one of its two shapes: a success
    with a URL and without an error, or a failure with an error and without
    URL and number. *)
Definition pr_result_wf (result : PullRequestResult) : Prop :=
  if pr_success result
  then pr_error result = None /\ prUrl result <> None
  else pr_error result <> None /\ prUrl result = None /\ prNumber result = None.

(** The message [createPullRequest] reports for a create call [r] that
    failed. *)
Definition create_error (r : Exc (Response PrData)) : string :=
  match r with
  | Throw e => err_message e
  | Ok response =>
      if ok response
      then match json response with
           | Throw e => err_message e
           | Ok _ => EmptyString
           end
      else "GitHub API error " ++ pretty (resp_status response) ++ ": "
           ++ or_else (ed_message (errorData response)) (statusText response)
  end.

(** ** Test runner ([test-runner.ts]) *)
Module TestRunner.

Definition lower_char (c : ascii) : ascii :=
  if is_upper c then ascii_of_nat (nat_of_ascii c + 32) else c.

(** [s.toLowerCase()] for a string [s] of ASCII characters. *)
Definition toLowerCase (s : string) : string := map_string lower_char s.

Definition classifyError (line : string) : BugCategory :=
  let lower := toLowerCase line in
  if includes "syntaxerror" lower || includes "syntax error" lower
     || includes "unexpected token" lower
  then SYNTAX
  else if includes "importerror" lower || includes "modulenotfounderror" lower
          || includes "cannot find module" lower
  then IMPORT
  else if includes "typeerror" lower || includes "type error" lower || includes "ts2" lower
  then TYPE
  else if includes "lint" lower || includes "eslint" lower || includes "pylint" lower
  then LINTING
  else if includes "nameerror" lower || includes "referenceerror" lower
          || includes "undefined" lower
  then RUNTIME
  else if includes "dependency" lower || includes "package" lower || includes "install" lower
  then DEPENDENCY
  else if includes "assertionerror" lower || includes "expect" lower || includes "assert" lower
  then LOGIC
  else RUNTIME.

(** [s.split(sep)] for a separator of one code unit. *)
Fixpoint split_on (sep : ascii) (s : string) : list string :=
  match s with
  | EmptyString => [EmptyString]
  | String c s' =>
      if Ascii.eqb c sep then EmptyString :: split_on sep s'
      else match split_on sep s' with
           | first :: rest => String c first :: rest
           | [] => [String c EmptyString]
           end
  end.

Fixpoint drop_space (s : string) : string :=
  match s with
  | String c s' => if is_space c then drop_space s' else s
  | EmptyString => EmptyString
  end.

(** The string without the white space at its end. *)
Fixpoint drop_space_end (s : string) : string :=
  match s with
  | String c s' =>
      match drop_space_end s' with
      | EmptyString => if is_space c then EmptyString else String c EmptyString
      | rest => String c rest
      end
  | EmptyString => EmptyString
  end.

(** [s.trim()] *)
Definition trim (s : string) : string := drop_space_end (drop_space s).

(** [`${parsed.filePath}:${parsed.line}:${parsed.message}`] *)
Definition error_key (parsed : ParsedError) : string :=
  pe_filePath parsed ++ ":" ++ pretty (pe_line parsed) ++ ":" ++ pe_message parsed.

(** The fields of [package.json] that [detectTestCommand] reads: the test
    script, and whether the merged dependencies have an entry that counts as
    true for the four names. *)
Record PackageJson : Type := mkPackageJson {
  scripts_test : option string;
  dep_jest : bool;
  dep_jest_core : bool;
  dep_vitest : bool;
  dep_mocha : bool
}.

Record TestCommand : Type := mkTestCommand {
  command : string;
  tc_installCommand : option string;
  framework : string
}.

(** ['echo "Error: no test specified" && exit 1'] *)
Definition placeholder_script : string :=
  "echo " ++ String "034" ("Error: no test specified" ++ String "034" " && exit 1").

(** [detectTestCommand]; [readPkg] is the outcome of reading and parsing
    [package.json], and of the accesses to its fields. [path.join(repoDir,
    name)] is written for a [repoDir] without a slash at its end, as
    [getSandboxDir] returns it. *)
Definition detectTestCommand (readPkg : Exc PackageJson) (fs : FS) (repoDir : string)
    : TestCommand :=
  let fromPackage : option TestCommand :=
    if existsSync (repoDir ++ "/package.json") fs then
      match readPkg with
      | Ok pkg =>
          if truthy (scripts_test pkg)
             && negb (bool_decide (scripts_test pkg = Some placeholder_script))
          then Some (mkTestCommand "npm test" (Some "npm install") "npm")
          else if dep_jest pkg || dep_jest_core pkg
          then Some (mkTestCommand "npx jest --no-cache --forceExit" (Some "npm install") "jest")
          else if dep_vitest pkg
          then Some (mkTestCommand "npx vitest run" (Some "npm install") "vitest")
          else if dep_mocha pkg
          then Some (mkTestCommand "npx mocha" (Some "npm install") "mocha")
          else if truthy (scripts_test pkg)
          then Some (mkTestCommand "npm test" (Some "npm install") "npm")
          else None
      | Throw _ => None
      end
    else None in
  match fromPackage with
  | Some testCmd => testCmd
  | None =>
      let pyProject := existsSync (repoDir ++ "/pyproject.toml") fs in
      let setupPy := existsSync (repoDir ++ "/setup.py") fs in
      let requirements := existsSync (repoDir ++ "/requirements.txt") fs in
      if pyProject || setupPy || requirements then
        mkTestCommand "python -m pytest -v"
          (Some (if requirements then "pip install -r requirements.txt"
                 else if pyProject then "pip install -e ." else "pip install -e ."))
          "pytest"
      else if existsSync (repoDir ++ "/go.mod") fs
      then mkTestCommand "go test ./..." None "go"
      else if existsSync (repoDir ++ "/Cargo.toml") fs
      then mkTestCommand "cargo test" None "cargo"
      else if existsSync (repoDir ++ "/pom.xml") fs
      then mkTestCommand "mvn test" None "maven"
      else mkTestCommand "npm test" (Some "npm install") "unknown"
  end.

(** What [execSync] throws when the command fails: the output it captured
    and the exit status, each of which can be missing. *)
Record ExecFailure : Type := mkExecFailure {
  ef_stdout : option string;
  ef_stderr : option string;
  ef_status : option Z
}.

(** The result of [runTests]; the duration is left out. *)
Record RunResult : Type := mkRunResult {
  run_passed : bool;
  run_exitCode : Z;
  run_stdout : string;
  run_stderr : string;
  run_fullOutput : string;
  run_errors : list ParsedError;
  run_testFramework : string
}.

Section Parsing.

(** [parseErrorLine], whose patterns are outside the fragment of regular
    expressions of this development. *)
Variable parseErrorLine : string -> string -> option ParsedError.

(** [for (const line of lines)] with the set [seen] and the list [errors]. *)
Fixpoint parseLines (lines : list string) (repoDir : string) (seen : gset string)
    (errors : list ParsedError) : list ParsedError :=
  match lines with
  | [] => errors
  | line :: rest =>
      match parseErrorLine line repoDir with
      | Some parsed =>
          let key := error_key parsed in
          if bool_decide (key ∈ seen)
          then parseLines rest repoDir seen errors
          else parseLines rest repoDir ({[ key ]} ∪ seen) (errors ++ [parsed])%list
      | None => parseLines rest repoDir seen errors
      end
  end.

Definition parseErrors (output repoDir : string) : list ParsedError :=
  parseLines (split_on "010" output) repoDir ∅ [].

(** [runTests]; [testExec] is the outcome of the test command. The
    installation that can precede it catches its errors and has no part in
    the result. *)
Definition runTests (readPkg : Exc PackageJson) (fs : FS)
    (testExec : string -> string + ExecFailure) (repoDir : string) : RunResult :=
  let testCmd := detectTestCommand readPkg fs repoDir in
  match testExec (command testCmd) with
  | inl stdout =>
      mkRunResult true 0 stdout EmptyString stdout [] (framework testCmd)
  | inr err =>
      let stdout := or_else (ef_stdout err) EmptyString in
      let stderr := or_else (ef_stderr err) EmptyString in
      let fullOutput := trim (stdout ++ String "010" stderr) in
      let errors := parseErrors fullOutput repoDir in
      mkRunResult false
        (match ef_status err with
         | Some status => if status =? 0 then 1 else status
         | None => 1
         end)
        stdout stderr fullOutput errors (framework testCmd)
  end.

End Parsing.

End TestRunner.

(** ** The dashboard ([ScoreBreakdown.tsx], [BugTable.tsx])

    The values the components compute from a score and from a bug list;
    colours and markup are left out. *)
Module Dashboard.

(** [ScoreGauge]: the grade shown under a score. *)
Definition grade (score : Z) : string :=
  if 90 <=? score then "A+"
  else if 80 <=? score then "A"
  else if 70 <=? score then "B"
  else if 60 <=? score then "C"
  else if 50 <=? score then "D"
  else "F".

(** The percentages of the dashboard are rounded from the exact quotient;
    the code rounds a double, which can fall on the other side of a half
    (23 of 40), so only their bounds are stated. *)
Definition bugFixRate (score : HealingScore) : Z :=
  if 0 <? totalBugs score
  then Math_round ((inject_Z (bugsFixed score) / inject_Z (totalBugs score)) * 100)%Q
  else 0.

Definition bugFixPoints (score : HealingScore) : Z :=
  Math_round ((inject_Z (bugsFixed score) / inject_Z (Z.max (totalBugs score) 1)) * 60)%Q.

Definition testPoints (score : HealingScore) : Z :=
  if testsPassed score then 20 else 0.

Definition efficiencyPoints (score : HealingScore) : Z :=
  if attempts score <=? 2 then 10 else if attempts score <=? 3 then 5 else 0.

Record ChartEntry : Type := mkChartEntry {
  entry_name : string;
  entry_value : Z;
  entry_max : Z
}.

Definition chartData (score : HealingScore) : list ChartEntry :=
  ([ mkChartEntry "Bug Fixes" (bugFixPoints score) 60;
     mkChartEntry "Tests Pass" (testPoints score) 20;
     mkChartEntry "Efficiency" (efficiencyPoints score) 10;
     mkChartEntry "Speed" (speedBonus score) 10 ]
   ++ (if 0 <? commitPenalty score
       then [mkChartEntry "Penalty" (- commitPenalty score) 0]
       else []))%list.

(** [formatTime] *)
Definition formatTime (seconds : Z) : string :=
  if seconds <? 60 then pretty seconds ++ "s"
  else pretty (seconds / 60) ++ "m " ++ pretty (seconds mod 60) ++ "s".

Definition categories : list BugCategory :=
  [SYNTAX; LINTING; RUNTIME; LOGIC; IMPORT; TYPE; DEPENDENCY].

(** [b.category === cat], on the names of the categories. *)
Definition has_category (cat : BugCategory) (b : HealingBug) : bool :=
  String.eqb (show_category (category b)) (show_category cat).

Record CategoryStats : Type := mkCategoryStats {
  stat_category : BugCategory;
  stat_total : Z;
  stat_fixed : Z;
  stat_rate : Z
}.

Definition byCat (bugs : list HealingBug) : list CategoryStats :=
  List.filter (fun c => 0 <? stat_total c)
    (map (fun cat =>
            let catBugs := List.filter (has_category cat) bugs in
            let catFixed := Z.of_nat (length (List.filter fixed catBugs)) in
            mkCategoryStats cat (Z.of_nat (length catBugs)) catFixed
              (if 0 <? Z.of_nat (length catBugs)
               then Math_round ((inject_Z catFixed / inject_Z (Z.of_nat (length catBugs)))
                                * 100)%Q
               else 0))
         categories).

Record Analytics : Type := mkAnalytics {
  an_total : Z;
  an_fixed : Z;
  an_fixRate : Z;
  an_byCat : list CategoryStats
}.

Definition analytics (bugs : list HealingBug) : Analytics :=
  let fixedCount := Z.of_nat (length (List.filter fixed bugs)) in
  mkAnalytics (Z.of_nat (length bugs)) fixedCount
    (if 0 <? Z.of_nat (length bugs)
     then Math_round ((inject_Z fixedCount / inject_Z (Z.of_nat (length bugs))) * 100)%Q
     else 0)
    (byCat bugs).

(** The filter on the state of the fix: ["ALL"], ["FIXED"], ["UNFIXED"]. *)
Inductive FixedFilter : Type := ShowAll | ShowFixed | ShowUnfixed.

(** [filteredBugs]; the category filter ["ALL"] is [None]. *)
Definition filteredBugs (filterCategory : option BugCategory) (filterFixed : FixedFilter)
    (bugs : list HealingBug) : list HealingBug :=
  List.filter
    (fun bug =>
       if match filterCategory with
          | Some cat => negb (has_category cat bug)
          | None => false
          end
       then false
       else if match filterFixed with ShowFixed => negb (fixed bug) | _ => false end
       then false
       else if match filterFixed with ShowUnfixed => fixed bug | _ => false end
       then false
       else true)
    bugs.

End Dashboard.

(** The sum of a list of numbers. *)
Definition sum_Z (l : list Z) : Z := foldr Z.add 0 l.

(** The outside world [env] with a clock that reads as [clock] says. *)
Definition with_timedOut (clock : Z -> nat -> bool) (env : Env) : Env :=
  mkEnv (GITHUB_BOT_TOKEN env) (forkPost env) (forkPolls env) (prPost env) (prSearch env)
    (userGet env) (gitClone env) (clonedFiles env) (gitCheckout env) (gitDefaultBranch env)
    (gitCommit env) (gitPush env) (gitCommitCount env) (installCommand env) (testRun env)
    (scanForBugs env) (fixAllBugs env) (uuidv4 env) clock (elapsedSeconds env).

(** A healthy repository whose session is out of time from the start. *)
Definition Samples_expired : Env := with_timedOut (fun _ _ => true) Samples.healthy.

(** A session id that is a plain file name: not empty, not [.] or [..],
    and without a slash. For these [path.join(SANDBOX_BASE, sessionId)] is
    the base, a slash and the id, as [getSandboxDir] has it. *)
Definition plain_name (s : string) : bool :=
  negb (String.eqb s EmptyString) && negb (String.eqb s ".") && negb (String.eqb s "..")
  && forall_string RepoManager.not_slash s.

(** * Properties *)

Lemma Qltb_spec (a b : Q) : Qltb a b = true <-> (a < b)%Q.
Proof.
  unfold Qltb. rewrite negb_true_iff. split; intros H.
  - apply Qnot_le_lt. intros Hle. apply Qle_bool_iff in Hle. congruence.
  - destruct (Qle_bool b a) eqn:E; [|reflexivity].
    apply Qle_bool_iff in E. exfalso. eapply Qlt_not_le; eauto.
Qed.

Lemma Math_round_le (x y : Q) : (x <= y)%Q -> Math_round x <= Math_round y.
Proof.
  intros H. unfold Math_round. apply Qfloor_resp_le.
  apply Qplus_le_compat; [exact H | apply Qle_refl].
Qed.

Lemma Math_round_inject_Z (n : Z) : Math_round (inject_Z n) = n.
Proof.
  unfold Math_round, Qfloor, inject_Z, Qplus. simpl.
  rewrite Z.mul_1_r.
  replace (n * 2 + 1) with (1 + n * 2) by lia.
  rewrite Z.div_add by lia. reflexivity.
Qed.

(** The bug term in integer arithmetic. *)
Lemma bug_ratio_round (f t : Z) :
  0 < t -> Math_round ((inject_Z f / inject_Z t) * 60)%Q = (120 * f + t) / (2 * t).
Proof.
  intros Ht. unfold Math_round.
  assert (E : ((inject_Z f / inject_Z t) * 60 + (1 # 2) == (120 * f + t) # (Z.to_pos (2 * t)))%Q).
  { destruct t as [|p|p]; try lia.
    unfold Qeq, Qdiv, Qmult, Qplus, Qinv, inject_Z. simpl.
    repeat rewrite Pos2Z.inj_mul. ring. }
  rewrite E. unfold Qfloor. rewrite Z2Pos.id by lia. reflexivity.
Qed.

Lemma bug_ratio_bounds (f t : Z) :
  0 < t -> 0 <= f <= t -> 0 <= (120 * f + t) / (2 * t) <= 60.
Proof.
  intros Ht Hf. split.
  - apply Z.div_pos; lia.
  - apply Z.lt_succ_r. apply Z.div_lt_upper_bound; lia.
Qed.

Lemma fixedCount_bounds (bugs : list HealingBug) :
  0 <= fixedCount bugs <= Z.of_nat (length bugs).
Proof.
  unfold fixedCount. split; [lia|].
  apply Nat2Z.inj_le. induction bugs as [|b bugs IH]; simpl; [lia|].
  destruct (fixed b); simpl; lia.
Qed.

Lemma bug_term_monotone (f1 f2 t : Z) :
  0 < t -> f1 <= f2 ->
  Math_round ((inject_Z f1 / inject_Z t) * 60)%Q
  <= Math_round ((inject_Z f2 / inject_Z t) * 60)%Q.
Proof.
  intros Ht Hf. rewrite !bug_ratio_round by assumption.
  apply Z.div_le_mono; lia.
Qed.

(** C1. The score follows the formula of the specification: the counts are
    those of the bug list, and the speed bonus, the commit penalty and the
    final score are the ones the formula gives for these counts. *)
Theorem calculateScore_follows_formula (bugs : list HealingBug) (tested : bool)
    (nAttempts nCommits : Z) (elapsed : Q) :
  let s := calculateScore bugs tested nAttempts nCommits elapsed in
  totalBugs s = Z.of_nat (length bugs)
  /\ bugsFixed s = fixedCount bugs
  /\ speedBonus s = ScoreSpec.speedBonus elapsed
  /\ commitPenalty s = ScoreSpec.commitPenalty nCommits
  /\ finalScore s
     = ScoreSpec.final (bugsFixed s) (totalBugs s) tested nAttempts nCommits elapsed.
Proof.
  cbv zeta. unfold calculateScore; cbn [totalBugs bugsFixed speedBonus commitPenalty finalScore].
  repeat split.
  - unfold ScoreSpec.commitPenalty, MAX_COMMITS_PENALTY_THRESHOLD.
    destruct (Z.ltb_spec 20 nCommits); lia.
  - unfold ScoreSpec.final, ScoreSpec.base, ScoreSpec.bugTerm, ScoreSpec.speedBonus,
      ScoreSpec.commitPenalty, ScoreSpec.clamp, SPEED_BONUS_THRESHOLD_SEC,
      MAX_COMMITS_PENALTY_THRESHOLD.
    set (t := Z.of_nat (length bugs)).
    assert (Ht : 0 <= t) by (subst t; lia).
    set (r := Math_round _).
    destruct (Z.ltb_spec 0 t), (Z.eqb_spec t 0); try lia;
      destruct tested, (nAttempts <=? 2), (nAttempts <=? 3),
        (Qltb elapsed 300), (Z.ltb_spec 20 nCommits);
      repeat match goal with
             | |- context [?a <? ?b] => destruct (Z.ltb_spec a b)
             end; lia.
Qed.

(** C8. With the other inputs fixed, a bug list of the same length with at
    least as many fixed bugs scores at least as much; and the final score of
    every input lies between 0 and 100. *)
Theorem calculateScore_monotone_and_bounded :
  (forall (bugs1 bugs2 : list HealingBug) (tested : bool) (nAttempts nCommits : Z)
          (elapsed : Q),
      length bugs1 = length bugs2 ->
      fixedCount bugs1 <= fixedCount bugs2 ->
      finalScore (calculateScore bugs1 tested nAttempts nCommits elapsed)
      <= finalScore (calculateScore bugs2 tested nAttempts nCommits elapsed))
  /\ (forall (bugs : list HealingBug) (tested : bool) (nAttempts nCommits : Z)
             (elapsed : Q),
      0 <= finalScore (calculateScore bugs tested nAttempts nCommits elapsed) <= 100).
Proof.
  split.
  - intros bugs1 bugs2 tested nAttempts nCommits elapsed Hlen Hfix.
    unfold calculateScore; cbn [finalScore]. rewrite Hlen.
    set (t := Z.of_nat (length bugs2)).
    assert (Hb : (if 0 <? t then Math_round ((inject_Z (fixedCount bugs1) / inject_Z t) * 60)%Q else 0)
                 <= (if 0 <? t then Math_round ((inject_Z (fixedCount bugs2) / inject_Z t) * 60)%Q else 0)).
    { destruct (Z.ltb_spec 0 t); [|lia]. now apply bug_term_monotone. }
    revert Hb.
    generalize (if 0 <? t then Math_round ((inject_Z (fixedCount bugs1) / inject_Z t) * 60)%Q else 0).
    generalize (if 0 <? t then Math_round ((inject_Z (fixedCount bugs2) / inject_Z t) * 60)%Q else 0).
    intros b2 b1 Hb.
    destruct tested, (nAttempts <=? 2), (nAttempts <=? 3); lia.
  - intros. unfold calculateScore; cbn [finalScore]. lia.
Qed.

(** The monotonicity at a list of two bugs, none fixed and then one fixed. *)
Lemma calculateScore_monotone_witness :
  finalScore (calculateScore
                [mkBug "a" LOGIC "f.js" 1 "m" "high" false None;
                 mkBug "b" LOGIC "f.js" 2 "m" "high" false None] false 3 0 (400 # 1))
  <= finalScore (calculateScore
                [mkBug "a" LOGIC "f.js" 1 "m" "high" true (Some 1);
                 mkBug "b" LOGIC "f.js" 2 "m" "high" false None] false 3 0 (400 # 1)).
Proof.
  apply (proj1 calculateScore_monotone_and_bounded); [reflexivity | vm_compute; discriminate].
Defined.

(** The pathological inputs the specification names. *)
Example calculateScore_many_commits :
  finalScore (calculateScore [] true 1 1000 (10 # 1)) = 0.
Proof. reflexivity. Qed.

Example calculateScore_all_fixed :
  finalScore (calculateScore [mkBug "a" LOGIC "f.js" 1 "m" "high" true (Some 1)]
                true 1 0 (10 # 1)) = 100.
Proof. reflexivity. Qed.

(** ** Branch names *)

Lemma append_cons (x : ascii) (a b : string) : String x a ++ b = String x (a ++ b).
Proof. reflexivity. Qed.

Lemma append_nil_l (b : string) : EmptyString ++ b = b.
Proof. reflexivity. Qed.

Lemma append_assoc' (a b c : string) : (a ++ b) ++ c = a ++ (b ++ c).
Proof.
  induction a as [|x a IH]; [reflexivity|].
  rewrite !append_cons, IH. reflexivity.
Qed.

Lemma prefix_app (a b : string) : String.prefix a (a ++ b) = true.
Proof.
  induction a as [|c a IH]; [destruct b; reflexivity|].
  rewrite append_cons. cbn [String.prefix].
  destruct (Ascii.ascii_dec c c); [exact IH | congruence].
Qed.

Lemma append_nil_r (a : string) : a ++ EmptyString = a.
Proof. induction a as [|c a IH]; [reflexivity|]. rewrite append_cons, IH. reflexivity. Qed.

Lemma forall_string_app (p : ascii -> bool) (a b : string) :
  forall_string p (a ++ b) = forall_string p a && forall_string p b.
Proof.
  induction a as [|x a IH]; [reflexivity|].
  rewrite append_cons. simpl. rewrite IH. apply andb_assoc.
Qed.















(** The constant of the revision without retries is the name the other
    revision computes for its team and leader. *)
Lemma getHealingBranchName_constant :
  RepoManagerNoRetry.getHealingBranchName
  = RepoManager.getHealingBranchName "tech chaos" "Anurag Mishra!".
Proof. reflexivity. Qed.

(** ** Repository URLs *)

Lemma strip_prefix_app (l s : string) : strip_prefix l (l ++ s) = Some s.
Proof.
  induction l as [|a l IH]; [reflexivity|].
  rewrite append_cons. simpl. rewrite Ascii.eqb_refl. exact IH.
Qed.

Lemma length_append (a b : string) :
  String.length (a ++ b) = (String.length a + String.length b)%nat.
Proof.
  induction a as [|x a IH]; [reflexivity|].
  rewrite append_cons. simpl. now rewrite IH.
Qed.

Lemma take_string_app (a b : string) : take_string (String.length a) (a ++ b) = a.
Proof.
  induction a as [|x a IH]; [destruct b; reflexivity|].
  rewrite append_cons. simpl. now rewrite IH.
Qed.

Lemma consumed_app (a b : string) : consumed (a ++ b) b = a.
Proof.
  unfold consumed. rewrite length_append.
  replace (String.length a + String.length b - String.length b)%nat
    with (String.length a) by lia.
  apply take_string_app.
Qed.

(** A greedy run takes the whole of a maximal stretch of the class when the
    rest of the pattern matches after it. *)
Lemma plus_greedy_maximal {R} (p : ascii -> bool) (x : string) (c : ascii)
    (rest : string) (k : string -> option R) (r : R) :
  x <> EmptyString -> forall_string p x = true -> p c = false ->
  k (String c rest) = Some r ->
  plus_greedy p (x ++ String c rest) k = Some r.
Proof.
  intros Hne Hall Hc Hk. induction x as [|a x IH]; [congruence|].
  rewrite append_cons. simpl in Hall. apply andb_prop in Hall as [Ha Hx].
  cbn [plus_greedy]. rewrite Ha.
  destruct x as [|b x].
  - rewrite append_nil_l. cbn [plus_greedy]. rewrite Hc. exact Hk.
  - rewrite IH; [reflexivity | discriminate | exact Hx].
Qed.

(** A lazy run stops at the first length after which the rest of the pattern
    matches. *)
Lemma plus_lazy_first {R} (p : ascii -> bool) (x rest : string)
    (k : string -> option R) (r : R) :
  x <> EmptyString -> forall_string p x = true ->
  (forall (d : ascii) (z : string), p d = true -> k (String d z ++ rest) = None) ->
  k rest = Some r ->
  plus_lazy p (x ++ rest) k = Some r.
Proof.
  intros Hne Hall Hfail Hk. induction x as [|a x IH]; [congruence|].
  rewrite append_cons. simpl in Hall. apply andb_prop in Hall as [Ha Hx].
  cbn [plus_lazy]. rewrite Ha.
  destruct x as [|b x].
  - rewrite append_nil_l, Hk. reflexivity.
  - rewrite Hfail.
    + apply IH; [discriminate | exact Hx].
    + simpl in Hx. now apply andb_prop in Hx as [Hb _].
Qed.

Lemma rexec_next (r : regex) (c : ascii) (s : string) :
  rmatch r (String c s) [] (fun _ caps => Some caps) = None ->
  rexec r (String c s) = rexec r s.
Proof. intros H. cbn [rexec]. now rewrite H. Qed.

Lemma rexec_here (r : regex) (s : string) (caps : captures) :
  rmatch r s [] (fun _ caps => Some caps) = Some caps ->
  rexec r s = Some caps.
Proof. intros H. destruct s; cbn [rexec]; now rewrite H. Qed.

(** Without the literal that opens a pattern there is no match. *)
Lemma rexec_without_literal (l : string) (r : regex) (s : string) :
  includes l s = false -> rexec (RSeq (RLit l) r) s = None.
Proof.
  induction s as [|c s IH]; cbn [includes rexec rmatch]; intros H.
  - destruct (strip_prefix l EmptyString); [discriminate | reflexivity].
  - destruct (strip_prefix l (String c s)); [discriminate|]. now apply IH.
Qed.

Lemma not_slash_dot_not_slash (s : string) :
  forall_string RepoManager.not_slash_dot s = true ->
  forall_string RepoManager.not_slash s = true.
Proof.
  induction s as [|c s IH]; simpl; [reflexivity|]. intros H.
  apply andb_prop in H as [Hc Hs]. rewrite (IH Hs), andb_true_r.
  unfold RepoManager.not_slash_dot, RepoManager.not_slash in *.
  destruct (Ascii.eqb c "/"); [discriminate | reflexivity].
Qed.

Lemma strip_prefix_sound (l s s' : string) : strip_prefix l s = Some s' -> s = l ++ s'.
Proof.
  revert s. induction l as [|a l IH]; intros s; cbn [strip_prefix].
  - intros [= ->]. reflexivity.
  - destruct s as [|b s]; [discriminate|].
    destruct (Ascii.eqb a b) eqn:E; [|discriminate].
    apply Ascii.eqb_eq in E. subst b. intros H. rewrite (IH _ H), append_cons. reflexivity.
Qed.

Lemma plus_greedy_sound {R} (p : ascii -> bool) (s : string) (k : string -> option R)
    (r : R) :
  plus_greedy p s k = Some r ->
  exists x rest, s = x ++ rest /\ x <> EmptyString /\ forall_string p x = true
                 /\ k rest = Some r.
Proof.
  induction s as [|c s IH]; cbn [plus_greedy]; [discriminate|].
  destruct (p c) eqn:Hc; [|discriminate].
  destruct (plus_greedy p s k) as [r'|] eqn:E.
  - intros [= ->]. destruct (IH eq_refl) as (x & rest & -> & _ & Hx & Hk).
    exists (String c x), rest. rewrite append_cons. cbn [forall_string].
    rewrite Hc, Hx. repeat split; [discriminate | exact Hk].
  - intros Hk. exists (String c EmptyString), s. cbn [forall_string]. rewrite Hc.
    repeat split; [discriminate | exact Hk].
Qed.

Lemma plus_lazy_sound {R} (p : ascii -> bool) (s : string) (k : string -> option R)
    (r : R) :
  plus_lazy p s k = Some r ->
  exists x rest, s = x ++ rest /\ x <> EmptyString /\ forall_string p x = true
                 /\ k rest = Some r.
Proof.
  induction s as [|c s IH]; cbn [plus_lazy]; [discriminate|].
  destruct (p c) eqn:Hc; [|discriminate].
  destruct (k s) as [r'|] eqn:E.
  - intros [= ->]. exists (String c EmptyString), s. cbn [forall_string]. rewrite Hc.
    repeat split; [discriminate | exact E].
  - intros H. destruct (IH H) as (x & rest & -> & _ & Hx & Hk).
    exists (String c x), rest. rewrite append_cons. cbn [forall_string].
    rewrite Hc, Hx. repeat split; [discriminate | exact Hk].
Qed.

(** A search that succeeds has matched at some position. *)
Lemma rexec_sound (r : regex) (s : string) (caps : captures) :
  rexec r s = Some caps ->
  exists pre s', s = pre ++ s' /\ rmatch r s' [] (fun _ caps => Some caps) = Some caps.
Proof.
  induction s as [|c s IH]; cbn [rexec].
  - destruct (rmatch r EmptyString [] _) as [caps'|] eqn:E; [|discriminate].
    intros [= ->]. exists EmptyString, EmptyString. split; [reflexivity | exact E].
  - destruct (rmatch r (String c s) [] _) as [caps'|] eqn:E.
    + intros [= ->]. exists EmptyString, (String c s). split; [reflexivity | exact E].
    + intros H. destruct (IH H) as (pre & s' & -> & Hm).
      exists (String c pre), s'. rewrite append_cons. split; [reflexivity | exact Hm].
Qed.

(** What a match of one of the two patterns has read. *)
Lemma pattern_sound (p2 : ascii -> bool) (suffix s : string) (caps : captures) :
  rmatch (rseq [RLit "github.com/"; RGroup 1 (RPlus true RepoManager.not_slash); RLit "/";
                RGroup 2 (RPlus false p2); ROpt (RLit suffix); REnd])
    s [] (fun _ caps => Some caps) = Some caps ->
  exists x1 x2 tail,
    s = "github.com/" ++ x1 ++ "/" ++ x2 ++ tail
    /\ (tail = EmptyString \/ tail = suffix)
    /\ x1 <> EmptyString /\ forall_string RepoManager.not_slash x1 = true
    /\ x2 <> EmptyString /\ forall_string p2 x2 = true
    /\ caps = [(2%nat, x2); (1%nat, x1)].
Proof.
  cbn [rseq foldr rmatch].
  destruct (strip_prefix "github.com/" s) as [s1|] eqn:E0; [|discriminate].
  apply strip_prefix_sound in E0. subst s. intros H.
  apply plus_greedy_sound in H as (x1 & rest1 & -> & Hx1 & Hp1 & H).
  rewrite consumed_app in H.
  destruct (strip_prefix "/" rest1) as [s2|] eqn:E1; [|discriminate].
  apply strip_prefix_sound in E1. subst rest1.
  apply plus_lazy_sound in H as (x2 & rest2 & -> & Hx2 & Hp2 & H).
  rewrite consumed_app in H.
  assert (Hend : rest2 = EmptyString -> Some [(2%nat, x2); (1%nat, x1)] = Some caps ->
                 exists x0 x3 tail,
                   "github.com/" ++ x1 ++ "/" ++ x2 ++ rest2
                   = "github.com/" ++ x0 ++ "/" ++ x3 ++ tail
                   /\ (tail = EmptyString \/ tail = suffix)
                   /\ x0 <> EmptyString /\ forall_string RepoManager.not_slash x0 = true
                   /\ x3 <> EmptyString /\ forall_string p2 x3 = true
                   /\ caps = [(2%nat, x3); (1%nat, x0)]).
  { intros -> [= <-]. exists x1, x2, EmptyString. repeat split; auto. }
  destruct (strip_prefix suffix rest2) as [[|c s5]|] eqn:E2.
  - cbn [strip_prefix] in H. injection H as <-.
    apply strip_prefix_sound in E2. subst rest2.
    exists x1, x2, (suffix ++ EmptyString). repeat split; auto.
    right. clear. induction suffix as [|c s IH]; [reflexivity|].
    rewrite append_cons, IH. reflexivity.
  - destruct rest2; [apply Hend; [reflexivity | exact H] | discriminate].
  - destruct rest2; [apply Hend; [reflexivity | exact H] | discriminate].
Qed.

(** *** The strings the patterns accept *)

Lemma append_inv_tail (a b c : string) : a ++ c = b ++ c -> a = b.
Proof.
  revert b. induction a as [|x a IH]; intros [|y b] H.
  - reflexivity.
  - apply (f_equal String.length) in H. rewrite !length_append in H.
    cbn [String.length] in H. lia.
  - apply (f_equal String.length) in H. rewrite !length_append in H.
    cbn [String.length] in H. lia.
  - rewrite !append_cons in H. injection H as -> H. f_equal. exact (IH _ H).
Qed.

(** Two ways to cut a string at its last occurrence of [c0] are the same. *)
Lemma last_separator (c0 : ascii) (x y a b : string) :
  forall_string (fun c => negb (Ascii.eqb c c0)) a = true ->
  forall_string (fun c => negb (Ascii.eqb c c0)) b = true ->
  x ++ String c0 a = y ++ String c0 b -> x = y /\ a = b.
Proof.
  intros Ha Hb. revert y. induction x as [|c x IH]; intros [|d y] H.
  - injection H as ->. split; reflexivity.
  - rewrite append_nil_l, append_cons in H. injection H as <- ->.
    rewrite forall_string_app in Ha. cbn [forall_string] in Ha.
    rewrite Ascii.eqb_refl in Ha. cbn in Ha. rewrite andb_false_r in Ha. discriminate.
  - rewrite append_nil_l, append_cons in H. injection H as -> <-.
    rewrite forall_string_app in Hb. cbn [forall_string] in Hb.
    rewrite Ascii.eqb_refl in Hb. cbn in Hb. rewrite andb_false_r in Hb. discriminate.
  - rewrite !append_cons in H. injection H as -> H.
    destruct (IH _ H) as [-> ->]. split; reflexivity.
Qed.

Lemma not_slash_dot_not_dot (s : string) :
  forall_string RepoManager.not_slash_dot s = true ->
  forall_string (fun c => negb (Ascii.eqb c ".")) s = true.
Proof.
  induction s as [|c s IH]; simpl; [reflexivity|]. intros H.
  apply andb_prop in H as [Hc Hs]. rewrite (IH Hs), andb_true_r.
  unfold RepoManager.not_slash_dot in Hc.
  destruct (Ascii.eqb c "."); [now rewrite orb_true_r in Hc | reflexivity].
Qed.

(** The name and what follows it are told apart from the end of the
    string. *)
Definition tail_determined (class : ascii -> bool) (suffix : string) : Prop :=
  forall x r t x1 r1 t1 : string,
    r <> EmptyString -> r1 <> EmptyString ->
    forall_string class r = true -> forall_string class r1 = true ->
    t = EmptyString \/ t = suffix -> t1 = EmptyString \/ t1 = suffix ->
    x ++ "/" ++ r ++ t = x1 ++ "/" ++ r1 ++ t1 ->
    x = x1 /\ r = r1.

Lemma tail_determined_plain : tail_determined RepoManager.not_slash_dot ".git".
Proof.
  intros x r t x1 r1 t1 Hr Hr1 Hc Hc1 Ht Ht1 H.
  assert (Hfree : forall a u, forall_string RepoManager.not_slash_dot a = true ->
                              u = EmptyString \/ u = ".git" ->
                              forall_string (fun c => negb (Ascii.eqb c "/")) (a ++ u) = true).
  { intros a u Ha Hu. change (fun c => negb (Ascii.eqb c "/")) with RepoManager.not_slash.
    rewrite forall_string_app, (not_slash_dot_not_slash _ Ha).
    destruct Hu as [-> | ->]; reflexivity. }
  change ("/" ++ r ++ t) with (String "/" (r ++ t)) in H.
  change ("/" ++ r1 ++ t1) with (String "/" (r1 ++ t1)) in H.
  apply last_separator in H as [-> H]; [| now apply Hfree | now apply Hfree].
  split; [reflexivity|].
  apply not_slash_dot_not_dot in Hc, Hc1.
  destruct Ht as [-> | ->], Ht1 as [-> | ->].
  - rewrite !append_nil_r in H. exact H.
  - rewrite append_nil_r in H. subst r. rewrite forall_string_app in Hc.
    rewrite andb_false_r in Hc. discriminate.
  - rewrite append_nil_r in H. subst r1. rewrite forall_string_app in Hc1.
    rewrite andb_false_r in Hc1. discriminate.
  - exact (append_inv_tail _ _ _ H).
Qed.

Lemma cut_slash_end (x r : string) :
  x ++ "/" ++ r ++ "/" = (x ++ String "/" r) ++ String "/" EmptyString.
Proof. rewrite append_assoc'. reflexivity. Qed.

Lemma tail_determined_dotted : tail_determined RepoManager.not_slash "/".
Proof.
  intros x r t x1 r1 t1 Hr Hr1 Hc Hc1 Ht Ht1 H.
  destruct Ht as [-> | ->], Ht1 as [-> | ->];
    rewrite ?append_nil_r, ?cut_slash_end in H.
  - now apply (last_separator "/") in H.
  - apply (last_separator "/") in H as [_ ->]; [congruence | exact Hc | reflexivity].
  - apply (last_separator "/") in H as [_ <-]; [congruence | reflexivity | exact Hc1].
  - apply (last_separator "/") in H as [H _]; [| reflexivity | reflexivity].
    now apply (last_separator "/") in H.
Qed.

(** The cut of a string into what precedes [github.com/], the owner and the
    name is unique. *)
Lemma ends_with_repo_unique (class : ascii -> bool) (suffix : string)
    (pre o r t pre1 o1 r1 t1 : string) :
  tail_determined class suffix ->
  forall_string RepoManager.not_slash o = true ->
  forall_string RepoManager.not_slash o1 = true ->
  r <> EmptyString -> r1 <> EmptyString ->
  forall_string class r = true -> forall_string class r1 = true ->
  t = EmptyString \/ t = suffix -> t1 = EmptyString \/ t1 = suffix ->
  pre ++ "github.com/" ++ o ++ "/" ++ r ++ t = pre1 ++ "github.com/" ++ o1 ++ "/" ++ r1 ++ t1 ->
  pre = pre1 /\ o = o1 /\ r = r1.
Proof.
  intros Hdet Ho Ho1 Hr Hr1 Hc Hc1 Ht Ht1 H.
  rewrite <- (append_assoc' "github.com/" o), <- (append_assoc' "github.com/" o1),
    <- (append_assoc' pre), <- (append_assoc' pre1) in H.
  apply Hdet in H as [H ->]; try assumption.
  change (pre ++ "github.com/" ++ o) with (pre ++ "github.com" ++ String "/" o) in H.
  change (pre1 ++ "github.com/" ++ o1) with (pre1 ++ "github.com" ++ String "/" o1) in H.
  rewrite <- !append_assoc' in H.
  apply (last_separator "/") in H as [H ->]; [| exact Ho | exact Ho1].
  apply append_inv_tail in H. subst pre1. repeat split.
Qed.

(** A pattern matches from the position of the host name, whatever
    follows the name: nothing or the suffix. *)
Lemma pattern_matches (class : ascii -> bool) (c0 : ascii) (s0 o r tail : string) :
  class c0 = false ->
  o <> EmptyString -> forall_string RepoManager.not_slash o = true ->
  r <> EmptyString -> forall_string class r = true ->
  tail = EmptyString \/ tail = String c0 s0 ->
  rmatch (rseq [RLit "github.com/"; RGroup 1 (RPlus true RepoManager.not_slash); RLit "/";
                RGroup 2 (RPlus false class); ROpt (RLit (String c0 s0)); REnd])
    ("github.com/" ++ o ++ "/" ++ r ++ tail) [] (fun _ caps => Some caps)
  = Some [(2%nat, r); (1%nat, o)].
Proof.
  intros Hc0 Ho1 Ho2 Hr1 Hr2 Htail.
  cbn [rseq foldr rmatch].
  rewrite strip_prefix_app.
  change ("/" ++ r ++ tail) with (String "/" (r ++ tail)).
  erewrite plus_greedy_maximal; [reflexivity | exact Ho1 | exact Ho2 | reflexivity |].
  rewrite consumed_app.
  change (strip_prefix "/" (String "/" (r ++ tail))) with (Some (r ++ tail)).
  cbv beta iota.
  erewrite plus_lazy_first; [reflexivity | exact Hr1 | exact Hr2 | |].
  - intros d z Hd. rewrite append_cons. cbn [strip_prefix].
    destruct (Ascii.eqb c0 d) eqn:E; [|reflexivity].
    apply Ascii.eqb_eq in E. congruence.
  - rewrite consumed_app. destruct Htail as [-> | ->].
    + reflexivity.
    + rewrite <- (append_nil_r (String c0 s0)) at 2. rewrite strip_prefix_app. reflexivity.
Qed.

(** The search finds the match, wherever the host name stands: no match
    starts before it. *)
Lemma pattern_complete (class : ascii -> bool) (c0 : ascii) (s0 url o r : string) :
  class c0 = false ->
  tail_determined class (String c0 s0) ->
  UrlSpec.ends_with_repo class (String c0 s0) url o r ->
  rexec (rseq [RLit "github.com/"; RGroup 1 (RPlus true RepoManager.not_slash); RLit "/";
               RGroup 2 (RPlus false class); ROpt (RLit (String c0 s0)); REnd]) url
  = Some [(2%nat, r); (1%nat, o)].
Proof.
  intros Hc0 Hdet (pre & tail & -> & Htail & Ho1 & Ho2 & Hr1 & Hr2).
  induction pre as [|c pre IH].
  - rewrite append_nil_l. apply rexec_here. now apply pattern_matches.
  - rewrite append_cons.
    match goal with
    | |- rexec ?p ?s = _ =>
        destruct (rmatch p s [] (fun _ caps => Some caps)) as [caps|] eqn:E
    end.
    + exfalso. apply pattern_sound in E
        as (x1 & x2 & tail1 & E & Htail1 & Hx1 & Hp1 & Hx2 & Hp2 & _).
      rewrite <- append_cons in E.
      change ("github.com/" ++ x1 ++ "/" ++ x2 ++ tail1)
        with (EmptyString ++ "github.com/" ++ x1 ++ "/" ++ x2 ++ tail1) in E.
      apply (ends_with_repo_unique class (String c0 s0)) in E as [E _]; try assumption.
      discriminate E.
    + rewrite rexec_next by exact E. exact IH.
Qed.

(** What a search with one of the patterns finds. *)
Lemma pattern_found (class : ascii -> bool) (suffix url : string) (caps : captures) :
  rexec (rseq [RLit "github.com/"; RGroup 1 (RPlus true RepoManager.not_slash); RLit "/";
               RGroup 2 (RPlus false class); ROpt (RLit suffix); REnd]) url = Some caps ->
  UrlSpec.ends_with_repo class suffix url (capture 1 caps) (capture 2 caps).
Proof.
  intros H. apply rexec_sound in H as (pre & s' & -> & Hm).
  apply pattern_sound in Hm as (x1 & x2 & tail & -> & Htail & Hx1 & Hp1 & Hx2 & Hp2 & ->).
  exists pre, tail. cbn [capture Nat.eqb]. repeat split; assumption.
Qed.

(** C6, as amended. [parseGitHubUrl] reads the end of the string only. It
    returns the owner and the name when the string ends with
    [github.com/<owner>/<name>] or [github.com/<owner>/<name>.git] for a name
    without slash and dot; failing that it returns them when the string ends
    with [github.com/<owner>/<name>] or [github.com/<owner>/<name>/] for a
    name without slash; and it throws [Invalid GitHub URL: <url>] for every
    other string. It returns nothing else. *)
Theorem parseGitHubUrl_accepts_and_rejects (url : string) :
  (forall o r : string,
      UrlSpec.plain_form url o r ->
      RepoManager.parseGitHubUrl url = Ok {| owner := o; repo := r |})
  /\ (forall o r : string,
      (forall o' r', ~ UrlSpec.plain_form url o' r') ->
      UrlSpec.dotted_form url o r ->
      RepoManager.parseGitHubUrl url = Ok {| owner := o; repo := r |})
  /\ ((forall o r, ~ UrlSpec.plain_form url o r) ->
      (forall o r, ~ UrlSpec.dotted_form url o r) ->
      RepoManager.parseGitHubUrl url = Throw (mkError ("Invalid GitHub URL: " ++ url)))
  /\ match RepoManager.parseGitHubUrl url with
     | Ok p =>
         UrlSpec.plain_form url (owner p) (repo p)
         \/ ((forall o r, ~ UrlSpec.plain_form url o r)
             /\ UrlSpec.dotted_form url (owner p) (repo p))
     | Throw _ =>
         (forall o r, ~ UrlSpec.plain_form url o r)
         /\ (forall o r, ~ UrlSpec.dotted_form url o r)
     end.
Proof.
  unfold RepoManager.parseGitHubUrl, RepoManager.patterns. cbn [RepoManager.first_match].
  pose proof (fun o r => pattern_complete RepoManager.not_slash_dot "."%char "git" url o r
                           eq_refl tail_determined_plain) as Hplain.
  pose proof (fun o r => pattern_complete RepoManager.not_slash "/"%char EmptyString url o r
                           eq_refl tail_determined_dotted) as Hdotted.
  pose proof (pattern_found RepoManager.not_slash_dot ".git" url) as Hfound1.
  pose proof (pattern_found RepoManager.not_slash "/" url) as Hfound2.
  fold UrlSpec.plain_form in Hplain, Hfound1. fold UrlSpec.dotted_form in Hdotted, Hfound2.
  destruct (rexec _ url) as [caps1|] eqn:E1.
  - specialize (Hfound1 caps1 eq_refl). repeat split.
    + intros o r H. assert (caps1 = [(2%nat, r); (1%nat, o)]) as ->
        by (specialize (Hplain o r H); congruence).
      reflexivity.
    + intros o r Hno _. exfalso. exact (Hno _ _ Hfound1).
    + intros Hno _. exfalso. exact (Hno _ _ Hfound1).
    + left. exact Hfound1.
  - assert (Hno : forall o r, ~ UrlSpec.plain_form url o r).
    { intros o r H. specialize (Hplain o r H). discriminate. }
    match goal with
    | |- context [rexec ?p url] => destruct (rexec p url) as [caps2|] eqn:E2
    end.
    + specialize (Hfound2 caps2 eq_refl). repeat split.
      * intros o r H. exfalso. exact (Hno _ _ H).
      * intros o r _ H. assert (caps2 = [(2%nat, r); (1%nat, o)]) as ->
          by (specialize (Hdotted o r H); congruence).
        reflexivity.
      * intros _ Hno2. exfalso. exact (Hno2 _ _ Hfound2).
      * right. split; [exact Hno | exact Hfound2].
    + repeat split.
      * intros o r H. exfalso. exact (Hno _ _ H).
      * intros o r _ H. specialize (Hdotted o r H). discriminate.
      * exact Hno.
      * intros o r H. specialize (Hdotted o r H). discriminate.
Qed.

Lemma parseGitHubUrl_accepts_witness :
  RepoManager.parseGitHubUrl "https://github.com/octocat/hello-world.git"
  = Ok {| owner := "octocat"; repo := "hello-world" |}
  /\ RepoManager.parseGitHubUrl "https://github.com/octocat/hello.world/"
     = Ok {| owner := "octocat"; repo := "hello.world" |}.
Proof.
  split.
  - apply (proj1 (parseGitHubUrl_accepts_and_rejects
                    "https://github.com/octocat/hello-world.git")).
    exists "https://", ".git". repeat split; [right; reflexivity | discriminate | discriminate].
  - apply (proj1 (proj2 (parseGitHubUrl_accepts_and_rejects
                           "https://github.com/octocat/hello.world/"))).
    + pose proof (proj2 (proj2 (proj2 (parseGitHubUrl_accepts_and_rejects
                                         "https://github.com/octocat/hello.world/")))) as H.
      vm_compute in H. destruct H as [(pre & tail & _ & _ & _ & _ & _ & H) | [H _]];
        [discriminate H | exact H].
    + exists "https://", "/". repeat split; [right; reflexivity | discriminate | discriminate].
Defined.

(** C6, as stated, fails: a URL with another scheme is accepted. The string
    is not of the form [https://github.com/<owner>/<repo>[.git]], and
    [parseGitHubUrl] returns a result for it instead of throwing. *)
Lemma parseGitHubUrl_accepts_ssh_url :
  UrlSpec.is_https_form "ssh://git@github.com/octocat/hello-world.git" = false
  /\ RepoManager.parseGitHubUrl "ssh://git@github.com/octocat/hello-world.git"
     = Ok {| owner := "octocat"; repo := "hello-world" |}.
Proof. split; reflexivity. Qed.

(** Other strings that are not of the form and are accepted: another host
    whose name ends in [github.com], and a URL without a scheme. *)
Example parseGitHubUrl_accepts_other_host :
  UrlSpec.is_https_form "https://evilgithub.com/o/r" = false
  /\ RepoManager.parseGitHubUrl "https://evilgithub.com/o/r"
     = Ok {| owner := "o"; repo := "r" |}.
Proof. split; reflexivity. Qed.

(** Strings the code rejects. *)
Example parseGitHubUrl_rejects_other_host :
  RepoManager.parseGitHubUrl "https://gitlab.com/o/r"
  = Throw (mkError "Invalid GitHub URL: https://gitlab.com/o/r").
Proof. reflexivity. Qed.

Example parseGitHubUrl_rejects_subpath :
  RepoManager.parseGitHubUrl "https://github.com/o/r/tree/main"
  = Throw (mkError "Invalid GitHub URL: https://github.com/o/r/tree/main").
Proof. reflexivity. Qed.

(** The second pattern takes what the first leaves: a trailing slash, and a
    repository name with a dot. *)
Example parseGitHubUrl_trailing_slash :
  RepoManager.parseGitHubUrl "https://github.com/o/r/" = Ok {| owner := "o"; repo := "r" |}.
Proof. reflexivity. Qed.

Example parseGitHubUrl_dotted_name :
  RepoManager.parseGitHubUrl "https://github.com/o/my.repo"
  = Ok {| owner := "o"; repo := "my.repo" |}.
Proof. reflexivity. Qed.

(** Both revisions parse alike. *)
Lemma parseGitHubUrl_same (url : string) :
  RepoManagerNoRetry.parseGitHubUrl url = RepoManager.parseGitHubUrl url.
Proof. reflexivity. Qed.

(** ** Pull requests that already exist *)

Lemma getBotToken_present (env : Env) (token : string) :
  GITHUB_BOT_TOKEN env = Some token -> token <> EmptyString ->
  RepoManager.getBotToken env = Ok token.
Proof.
  intros H Hne. unfold RepoManager.getBotToken. rewrite H.
  destruct token; [congruence | reflexivity].
Qed.

Lemma already_exists_inv (r : Exc (Response PrData)) :
  already_exists r = true ->
  exists response,
    r = Ok response /\ ok response = false /\ resp_status response = 422
    /\ match hd None (ed_errors (errorData response)) with
       | Some m => includes "pull request already exists" m
       | None => false
       end = true.
Proof.
  destruct r as [response|e]; [|discriminate]. simpl. intros H.
  apply andb_prop in H as [Hs Hm]. apply Z.eqb_eq in Hs.
  exists response. repeat split; try assumption.
  unfold ok. rewrite Hs. reflexivity.
Qed.

(** The result for a pull request that already exists: the first open pull
    request of the head branch when the search finds one, the list of pull
    requests of the repository otherwise. *)
Lemma prTry_already_exists (env : Env) (originalOwner originalRepo : string) (n : Z) :
  already_exists (prPost env n) = true ->
  RepoManager.prTry env originalOwner originalRepo n
  = Ok (RepoManager.Return
          match openPrs env with
          | p :: _ =>
              {| pr_success := true; prNumber := Some (number p);
                 prUrl := Some (html_url p); pr_error := None |}
          | [] =>
              {| pr_success := true; prNumber := None;
                 prUrl := Some ("https://github.com/" ++ originalOwner ++ "/"
                                ++ originalRepo ++ "/pulls");
                 pr_error := None |}
          end).
Proof.
  intros H. apply already_exists_inv in H as (response & E & Hok & Hs & Hm).
  unfold RepoManager.prTry. rewrite E. cbn [mbind Exc_bind]. rewrite Hok. cbn [negb].
  rewrite Hs, Hm. cbn [Z.eqb Pos.eqb andb].
  unfold RepoManager.findExistingPr, openPrs.
  destruct (prSearch env) as [searchRes|e]; [|reflexivity].
  cbn [mbind Exc_bind]. destruct (ok searchRes); [|reflexivity].
  destruct (json searchRes) as [[|p prs]|e]; reflexivity.
Qed.

Lemma prTry_failed (env : Env) (originalOwner originalRepo : string) :
  create_failed (prPost env 1) = true -> already_exists (prPost env 1) = false ->
  RepoManager.prTry env originalOwner originalRepo 1 = Ok RepoManager.Continue
  \/ exists e, RepoManager.prTry env originalOwner originalRepo 1 = Throw e.
Proof.
  unfold create_failed, already_exists, RepoManager.prTry.
  destruct (prPost env 1) as [response|e]; [|intros; right; eauto].
  cbn [mbind Exc_bind]. intros Hf Hn.
  destruct (ok response); cbn [negb orb] in *.
  - destruct (json response); [discriminate | right; eauto].
  - rewrite Hn. left. reflexivity.
Qed.

(** The revision without retries does not look the pull request up: it
    answers with the URL of the repository's pull requests. *)
Lemma createPullRequest_already_exists_no_retry (env : Env)
    (repoDir originalOwner originalRepo branchName forkOwner token : string)
    (nFixed nBugs nAttempts score : Z) :
  GITHUB_BOT_TOKEN env = Some token -> token <> EmptyString ->
  already_exists (prPost env 1) = true ->
  RepoManagerNoRetry.createPullRequest env repoDir originalOwner originalRepo branchName
    forkOwner nFixed nBugs nAttempts score
  = Ok {| pr_success := true; prNumber := None;
          prUrl := Some ("https://github.com/" ++ originalOwner ++ "/"
                         ++ originalRepo ++ "/pulls");
          pr_error := None |}.
Proof.
  intros Htok Hne H. apply already_exists_inv in H as (response & E & Hok & Hs & Hm).
  unfold RepoManagerNoRetry.createPullRequest, RepoManagerNoRetry.getBotToken.
  rewrite Htok. destruct token; [congruence|]. cbn [mbind Exc_bind].
  unfold RepoManagerNoRetry.prTry. rewrite E. cbn [mbind Exc_bind].
  rewrite Hok, Hs, Hm. reflexivity.
Qed.

(** C7, as amended. When the create call answers 422 with the message that
    a pull request already exists, [createPullRequest] returns a success
    with a URL and no error. In the revision with retries, where the answer
    may also come at the retry after a failed first try, the URL and the
    number are those of the first open pull request that the lookup finds,
    and the URL is the one of the repository's pull requests, without a
    number, when the lookup fails or finds none. The revision without
    retries makes no lookup: it always returns the URL of the repository's
    pull requests, without a number. *)
Theorem createPullRequest_already_exists (env : Env)
    (repoDir originalOwner originalRepo branchName forkOwner token : string)
    (nFixed nBugs nAttempts score : Z) :
  GITHUB_BOT_TOKEN env = Some token -> token <> EmptyString ->
  (already_exists (prPost env 1) = true
   \/ (create_failed (prPost env 1) = true /\ already_exists (prPost env 2) = true) ->
   exists (result : PullRequestResult) (url : string),
     RepoManager.createPullRequest env repoDir originalOwner originalRepo branchName
       forkOwner nFixed nBugs nAttempts score = Ok result
     /\ pr_success result = true
     /\ pr_error result = None
     /\ prUrl result = Some url
     /\ match openPrs env with
        | p :: _ => url = html_url p /\ prNumber result = Some (number p)
        | [] => url = "https://github.com/" ++ originalOwner ++ "/" ++ originalRepo ++ "/pulls"
                /\ prNumber result = None
        end)
  /\ (already_exists (prPost env 1) = true ->
      RepoManagerNoRetry.createPullRequest env repoDir originalOwner originalRepo branchName
        forkOwner nFixed nBugs nAttempts score
      = Ok {| pr_success := true; prNumber := None;
              prUrl := Some ("https://github.com/" ++ originalOwner ++ "/"
                             ++ originalRepo ++ "/pulls");
              pr_error := None |}).
Proof.
  intros Htok Hne. split.
  - intros Hcase.
    unfold RepoManager.createPullRequest. rewrite (getBotToken_present _ _ Htok Hne).
    cbn [mbind Exc_bind].
    assert (Hdone : forall n,
               already_exists (prPost env n) = true ->
               exists result url,
                 RepoManager.prTry env originalOwner originalRepo n
                 = Ok (RepoManager.Return result)
                 /\ pr_success result = true /\ pr_error result = None
                 /\ prUrl result = Some url
                 /\ match openPrs env with
                    | p :: _ => url = html_url p /\ prNumber result = Some (number p)
                    | [] => url = "https://github.com/" ++ originalOwner ++ "/"
                                  ++ originalRepo ++ "/pulls"
                            /\ prNumber result = None
                    end).
    { intros n H. rewrite (prTry_already_exists _ _ _ _ H).
      destruct (openPrs env) as [|p prs]; eexists; eexists; repeat split. }
    change (Z.to_nat RepoManager.maxRetries) with 2%nat.
    destruct (already_exists (prPost env 1)) eqn:E1.
    + destruct (Hdone 1 E1) as (result & url & Ht & H).
      exists result, url. cbn [RepoManager.prLoop]. rewrite Ht. split; [reflexivity | exact H].
    + destruct Hcase as [Hc | [Hf E2]]; [discriminate|].
      destruct (Hdone 2 E2) as (result & url & Ht & H).
      exists result, url. split; [|exact H].
      cbn [RepoManager.prLoop]. change (1 + 1) with 2.
      change (1 <? RepoManager.maxRetries) with true.
      destruct (prTry_failed env originalOwner originalRepo Hf E1) as [-> | [e ->]];
        cbv iota; rewrite Ht; reflexivity.
  - intros H.
    exact (createPullRequest_already_exists_no_retry env repoDir originalOwner originalRepo
             branchName forkOwner token nFixed nBugs nAttempts score Htok Hne H).
Qed.

Lemma createPullRequest_already_exists_witness :
  exists (result : PullRequestResult),
    RepoManager.createPullRequest Samples.prExists "/tmp/self-healing/s1" "octocat"
      "hello-world" "TEAM_LEAD_AI_Fix" "zero-bot" 1 2 3 45 = Ok result
    /\ prUrl result = Some "https://github.com/octocat/hello-world/pull/5"
    /\ prNumber result = Some 5.
Proof.
  destruct (proj1 (createPullRequest_already_exists Samples.prExists
                     "/tmp/self-healing/s1" "octocat" "hello-world" "TEAM_LEAD_AI_Fix"
                     "zero-bot" "ghp_token" 1 2 3 45 eq_refl ltac:(discriminate))
              (or_introl eq_refl))
    as (result & url & Hrun & _ & _ & Hurl & Hfound).
  exists result. split; [exact Hrun|].
  change (openPrs Samples.prExists)
    with [mkPrData 5 "https://github.com/octocat/hello-world/pull/5"] in Hfound.
  destruct Hfound as [-> Hnum]. split; [exact Hurl | exact Hnum].
Defined.

(** C7, as stated, fails in the revision without retries: the create call
    answers 422 with the message that a pull request already exists, an
    open pull request is there to be found, and the result has neither its
    URL nor its number. *)
Lemma createPullRequest_no_retry_does_not_look_up :
  already_exists (prPost Samples.prExists 1) = true
  /\ openPrs Samples.prExists = [mkPrData 5 "https://github.com/octocat/hello-world/pull/5"]
  /\ RepoManagerNoRetry.createPullRequest Samples.prExists "/tmp/self-healing/s1" "octocat"
       "hello-world" "TEAM_LEAD_AI_Fix" "zero-bot" 1 2 3 45
     = Ok {| pr_success := true; prNumber := None;
             prUrl := Some "https://github.com/octocat/hello-world/pulls";
             pr_error := None |}.
Proof. repeat split. Qed.

(** The result of the sample in which the search finds pull request 5. *)
Example createPullRequest_sample :
  RepoManager.createPullRequest Samples.prExists "/tmp/self-healing/s1" "octocat"
    "hello-world" "TEAM_LEAD_AI_Fix" "zero-bot" 1 2 3 45
  = Ok {| pr_success := true; prNumber := Some 5;
          prUrl := Some "https://github.com/octocat/hello-world/pull/5";
          pr_error := None |}.
Proof. reflexivity. Qed.

(** ** Forking *)








(** The failure modes end in a failure: when no attempt gets an answer that
    is a success, the result reports a failure. *)
Lemma forkRepo_failure_modes (env : Env) (owner repo token : string) :
  GITHUB_BOT_TOKEN env = Some token -> token <> EmptyString ->
  (forall n, match forkPost env n with
             | Ok response => ok response = false /\ resp_status response <> 202
             | Throw _ => True
             end) ->
  exists r, RepoManager.forkRepo env owner repo = Ok r /\ fork_success r = false.
Proof.
  intros Htok Hne Hfail.
  unfold RepoManager.forkRepo. rewrite (getBotToken_present _ _ Htok Hne).
  cbn [mbind Exc_bind]. eexists. split; [reflexivity|].
  assert (Hthrow : forall n, exists e, RepoManager.forkTry env owner repo n = Throw e).
  { intros n. specialize (Hfail n). unfold RepoManager.forkTry.
    destruct (forkPost env n) as [response|e]; [|eauto].
    destruct Hfail as [Hok Hs]. cbn [mbind Exc_bind]. rewrite Hok.
    apply Z.eqb_neq in Hs. rewrite Hs. cbn [negb andb].
    destruct (resp_status response =? 403); eauto. }
  change (Z.to_nat RepoManager.maxForkAttempts) with 2%nat.
  cbn [RepoManager.forkLoop]. change (1 + 1) with 2.
  change (1 <? RepoManager.maxForkAttempts) with true.
  change (2 <? RepoManager.maxForkAttempts) with false.
  destruct (Hthrow 1) as [e1 ->]. destruct (Hthrow 2) as [e2 ->]. reflexivity.
Qed.

(** The result when GitHub answers 403 to both attempts. *)
Example forkRepo_forbidden :
  RepoManager.forkRepo Samples.forkForbidden "octocat" "hello-world"
  = Ok (RepoManager.forkFailure
          ("Fork failed (403): Resource not accessible by personal access token. " ++
           "GitHub token may lack 'public_repo' or 'repo' scope. " ++
           "Go to GitHub Settings → Developer settings → Personal Access Tokens to update.")).
Proof. reflexivity. Qed.

(** ** Statements of the orchestrator *)

Lemma bind_eq {A B} (c : M A) (f : A -> M B) (st : OrchState) :
  (c ≫= f) st
  = match c st with
    | (Ok a, st') => f a st'
    | (Throw e, st') => (Throw e, st')
    end.
Proof. reflexivity. Qed.

Section Respects.

Variable R : OrchState -> OrchState -> Prop.
Hypothesis R_refl : forall st, R st st.
Hypothesis R_trans : forall a b c, R a b -> R b c -> R a c.

Lemma respects_ret {A} (a : A) : respects R (mret a : M A).
Proof. intros st. apply R_refl. Qed.

Lemma respects_lift {A} (c : Exc A) : respects R (lift c).
Proof. intros st. apply R_refl. Qed.

Lemma respects_get : respects R get.
Proof. intros st. apply R_refl. Qed.

Lemma respects_modify (f : OrchState -> OrchState) :
  (forall st, R st (f st)) -> respects R (modify f).
Proof. intros H st. apply H. Qed.

Lemma respects_bind {A B} (c : M A) (f : A -> M B) :
  respects R c -> (forall a, respects R (f a)) -> respects R (c ≫= f).
Proof.
  intros Hc Hf st. unfold exec. rewrite bind_eq.
  specialize (Hc st). unfold exec in Hc.
  destruct (c st) as [[a|e] st']; simpl in *.
  - eapply R_trans; [exact Hc | apply Hf].
  - exact Hc.
Qed.

End Respects.

Lemma same_sandbox_refl (st : OrchState) : same_sandbox st st.
Proof. split; reflexivity. Qed.

Lemma same_sandbox_trans (a b c : OrchState) :
  same_sandbox a b -> same_sandbox b c -> same_sandbox a c.
Proof. intros [H1 H2] [H3 H4]. split; congruence. Qed.

(** One step of a proof that a statement respects a relation [R] that is
    reflexive by [Hrefl] and transitive by [Htrans]; [Hmod] proves the goals
    [R st (f st)] of the assignments. *)
Ltac respects_step Hrefl Htrans Hmod :=
  lazymatch goal with
  | |- respects _ (mbind _ _) =>
      apply (respects_bind _ Htrans); [| intros ?]
  | |- respects _ (mret _) => apply (respects_ret _ Hrefl)
  | |- respects _ (lift _) => apply (respects_lift _ Hrefl)
  | |- respects _ get => apply (respects_get _ Hrefl)
  | |- respects _ (modify _) => apply respects_modify; intros ?; Hmod
  | |- respects _ (if ?b then _ else _) => destruct b
  | |- respects _ (match ?x with _ => _ end) => destruct x
  | |- respects _ (let _ := _ in _) => cbv zeta
  end.

Ltac unfold_helpers :=
  unfold updateSessionStatus, updateCurrentAttempt, updateBranchInfo,
    updateBugsAndAttempts, updatePr, finalizeSession, emitStatus, emitScore, emitError.

Ltac sandbox_step :=
  respects_step same_sandbox_refl same_sandbox_trans ltac:(split; reflexivity).

Lemma attemptCreatePR_sandbox (env : Env) (o r repoDir branchName forkOwner : string)
    (a b c d : Z) :
  respects same_sandbox (Orchestrator.attemptCreatePR env o r repoDir branchName forkOwner a b c d).
Proof. unfold Orchestrator.attemptCreatePR. unfold_helpers. repeat sandbox_step. Qed.

Lemma attemptBody_sandbox (env : Env) (o r : string) (attempt : Z) :
  respects same_sandbox (Orchestrator.attemptBody env o r attempt).
Proof.
  unfold Orchestrator.attemptBody. unfold_helpers.
  repeat first [apply attemptCreatePR_sandbox | sandbox_step].
Qed.

Lemma attemptLoop_sandbox (env : Env) (o r : string) (n : nat) (attempt : Z) :
  respects same_sandbox (Orchestrator.attemptLoop env o r n attempt).
Proof.
  revert attempt. induction n as [|n IH]; intros attempt; cbn [Orchestrator.attemptLoop].
  - sandbox_step.
  - sandbox_step; [apply attemptBody_sandbox|].
    sandbox_step; [apply IH | sandbox_step | sandbox_step].
Qed.

Lemma finalVerification_sandbox (env : Env) (o r : string) :
  respects same_sandbox (Orchestrator.finalVerification env o r).
Proof.
  unfold Orchestrator.finalVerification. unfold_helpers.
  repeat first [apply attemptCreatePR_sandbox | sandbox_step].
Qed.

Lemma loopAndVerify_sandbox (env : Env) (o r : string) :
  respects same_sandbox (Orchestrator.loopAndVerify env o r).
Proof.
  unfold Orchestrator.loopAndVerify.
  sandbox_step; [apply attemptLoop_sandbox|].
  repeat first [apply finalVerification_sandbox | sandbox_step].
Qed.

(** ** The sandbox *)

Lemma existsSync_true (p : string) (fs : FS) : existsSync p fs = true <-> p ∈ fs.
Proof. unfold existsSync. apply bool_decide_eq_true. Qed.

Lemma under_refl (d : string) : under d d = true.
Proof. unfold under. now rewrite String.eqb_refl. Qed.

Lemma rmSync_recursive_force (p : string) (fs : FS) :
  fst (rmSync p true true fs) = Ok tt
  /\ (p ∈ fs -> forall q, q ∈ snd (rmSync p true true fs) -> under p q = false)
  /\ (p ∉ fs -> snd (rmSync p true true fs) = fs).
Proof.
  unfold rmSync. destruct (existsSync p fs) eqn:E.
  - rewrite andb_false_r. cbn [fst snd]. split; [reflexivity|]. split.
    + intros _ q Hq. apply elem_of_filter in Hq as [Hq _]. exact Hq.
    + intros Hn. apply existsSync_true in E. contradiction.
  - cbn [fst snd]. split; [reflexivity|]. split; [|reflexivity].
    intros Hin. apply existsSync_true in Hin. congruence.
Qed.

Lemma cleanupSandbox_spec (sessionId : string) (fs : FS) :
  let d := RepoManager.getSandboxDir sessionId in
  fst (RepoManager.cleanupSandbox sessionId fs) = Ok tt
  /\ (d ∈ fs -> forall q, q ∈ snd (RepoManager.cleanupSandbox sessionId fs) -> under d q = false)
  /\ (d ∉ fs -> RepoManager.cleanupSandbox sessionId fs = (Ok tt, fs)).
Proof.
  cbv zeta. unfold RepoManager.cleanupSandbox.
  destruct (rmSync_recursive_force (RepoManager.getSandboxDir sessionId) fs) as (H1 & H2 & H3).
  destruct (existsSync (RepoManager.getSandboxDir sessionId) fs) eqn:E.
  - split; [exact H1|]. split; [exact H2|].
    intros Hn. apply existsSync_true in E. contradiction.
  - split; [reflexivity|]. split; [|reflexivity].
    intros Hin. apply existsSync_true in Hin. congruence.
Qed.

Lemma cleanupSandbox_same (sessionId : string) (fs : FS) :
  RepoManagerNoRetry.cleanupSandbox sessionId fs = RepoManager.cleanupSandbox sessionId fs.
Proof. reflexivity. Qed.

Lemma cloneRepo_fork_ok (env : Env) (repoUrl sessionId : string)
    (forkOwner forkRepoName : option string) (fs : FS) (token : string) (parsed : RepoRef) :
  RepoManager.getBotToken env = Ok token ->
  RepoManager.parseGitHubUrl repoUrl = Ok parsed ->
  gitClone env = Ok tt ->
  fst (cloneRepo env repoUrl sessionId forkOwner forkRepoName fs)
  = Ok (RepoManager.getSandboxDir sessionId)
  /\ RepoManager.getSandboxDir sessionId
     ∈ snd (cloneRepo env repoUrl sessionId forkOwner forkRepoName fs).
Proof.
  intros Htok Hparse Hclone. unfold cloneRepo.
  set (fs1 := if negb _ then _ else fs).
  assert (Hin : forall fs2, RepoManager.getSandboxDir sessionId
                            ∈ cloned env (RepoManager.getSandboxDir sessionId) fs2).
  { intros fs2. unfold cloned. set_solver. }
  destruct (existsSync (RepoManager.getSandboxDir sessionId) fs1) eqn:E.
  - unfold rmSync. rewrite E. rewrite andb_false_r.
    rewrite Htok, Hparse, Hclone. cbn [mbind Exc_bind].
    destruct (truthy forkOwner && truthy forkRepoName); cbn [fst snd]; split;
      try reflexivity; apply Hin.
  - rewrite Htok, Hparse, Hclone. cbn [mbind Exc_bind].
    destruct (truthy forkOwner && truthy forkRepoName); cbn [fst snd]; split;
      try reflexivity; apply Hin.
Qed.

Lemma forkRepo_token (env : Env) (o r : string) (fr : ForkResult) :
  RepoManager.forkRepo env o r = Ok fr ->
  exists token, RepoManager.getBotToken env = Ok token.
Proof.
  unfold RepoManager.forkRepo.
  destruct (RepoManager.getBotToken env); [eauto | discriminate].
Qed.

(** Runs the statements at the head of the goal that need no case
    distinction. *)
Ltac mstep :=
  repeat (progress (
    rewrite ?bind_eq;
    unfold updateSessionStatus, updateCurrentAttempt, updateBranchInfo,
      updateBugsAndAttempts, updatePr, finalizeSession, emitStatus, emitScore,
      emitError, modify, lift, get;
    cbv beta iota)).

(** The [try] block up to the clone. *)
Lemma tryBlock_cloned (env : Env) (input : Orchestrator.OrchestratorInput) (fs : FS)
    (parsed : RepoRef) (fr : ForkResult) :
  RepoManager.parseGitHubUrl (Orchestrator.repoUrl input) = Ok parsed ->
  RepoManager.forkRepo env (owner parsed) (repo parsed) = Ok fr ->
  fork_success fr = true ->
  gitClone env = Ok tt ->
  exists st,
    Orchestrator.tryBlock env input (owner parsed) (repo parsed) (initialState fs)
    = Orchestrator.afterClone env input (owner parsed) (repo parsed)
        (RepoManager.getSandboxDir (Orchestrator.sessionId input)) st
    /\ RepoManager.getSandboxDir (Orchestrator.sessionId input) ∈ st_fs st
    /\ st = mkOrchState
              (snd (cloneRepo env (Orchestrator.repoUrl input) (Orchestrator.sessionId input)
                      (Some (forkOwner fr)) (Some (forkRepo_ fr)) fs))
              (mkSessionDoc cloning None false 0 None [] [] None None None)
              [] [EStatus cloning; EStatus cloning] [] [] EmptyString EmptyString
              (forkOwner fr) EmptyString false.
Proof.
  intros Hparse Hfork Hsucc Hclone.
  destruct (forkRepo_token _ _ _ _ Hfork) as [token Htok].
  destruct (cloneRepo_fork_ok env (Orchestrator.repoUrl input)
              (Orchestrator.sessionId input) (Some (forkOwner fr)) (Some (forkRepo_ fr))
              fs token parsed Htok Hparse Hclone) as [Hdir Hin].
  destruct (cloneRepo env (Orchestrator.repoUrl input) (Orchestrator.sessionId input)
              (Some (forkOwner fr)) (Some (forkRepo_ fr)) fs) as [res fs'] eqn:E.
  cbn [fst snd] in Hdir, Hin. subst res.
  eexists. split; [|split].
  - unfold Orchestrator.tryBlock. mstep.
    rewrite Hfork. mstep. rewrite Hsucc. mstep.
    unfold Orchestrator.cloneRepoM.
    cbn [st_fs with_fs with_events with_doc with_fork initialState].
    rewrite E. mstep. reflexivity.
  - cbn [st_fs with_fs]. exact Hin.
  - reflexivity.
Qed.

(** The [try] block up to the loop: it enters the loop in the state
    [loopEntry]. *)
Lemma tryBlock_reaches_loop (env : Env) (input : Orchestrator.OrchestratorInput) (fs : FS)
    (parsed : RepoRef) (fr : ForkResult) :
  RepoManager.parseGitHubUrl (Orchestrator.repoUrl input) = Ok parsed ->
  RepoManager.forkRepo env (owner parsed) (repo parsed) = Ok fr ->
  fork_success fr = true ->
  gitClone env = Ok tt ->
  gitCheckout env = Ok tt ->
  Orchestrator.tryBlock env input (owner parsed) (repo parsed) (initialState fs)
  = Orchestrator.loopAndVerify env (owner parsed) (repo parsed) (loopEntry env input fr fs).
Proof.
  intros Hparse Hfork Hsucc Hclone Hcheckout.
  destruct (tryBlock_cloned env input fs parsed fr Hparse Hfork Hsucc Hclone)
    as (st & -> & _ & ->).
  unfold Orchestrator.afterClone. cbv zeta. mstep.
  unfold createBranch. rewrite Hcheckout. mstep.
  reflexivity.
Qed.

Lemma afterClone_sandbox (env : Env) (input : Orchestrator.OrchestratorInput)
    (o r dir : string) (st : OrchState) :
  st_fs (exec (Orchestrator.afterClone env input o r dir) st) = st_fs st
  /\ st_repoDir (exec (Orchestrator.afterClone env input o r dir) st) = dir.
Proof.
  assert (H : respects same_sandbox
                (let branchName :=
                   RepoManager.getHealingBranchName (Orchestrator.teamName input)
                     (Orchestrator.leaderName input) in
                 modify (with_branchName branchName);;
                 lift (createBranch env dir branchName);;
                 updateBranchInfo branchName;;
                 Orchestrator.loopAndVerify env o r)).
  { unfold_helpers. repeat first [apply loopAndVerify_sandbox | sandbox_step]. }
  specialize (H (with_repoDir dir st)). destruct H as [H1 H2].
  split; [exact H1 | exact H2].
Qed.

Lemma catchBlock_sandbox (error : JsError) :
  respects same_sandbox (Orchestrator.catchBlock error).
Proof. unfold Orchestrator.catchBlock. unfold_helpers. repeat sandbox_step. Qed.

Lemma getSandboxDir_truthy (sessionId : string) :
  truthy (Some (RepoManager.getSandboxDir sessionId)) = true.
Proof. reflexivity. Qed.

Lemma cleanupSandbox_idempotent (sessionId : string) (fs : FS) :
  RepoManager.cleanupSandbox sessionId (snd (RepoManager.cleanupSandbox sessionId fs))
  = (Ok tt, snd (RepoManager.cleanupSandbox sessionId fs)).
Proof.
  destruct (cleanupSandbox_spec sessionId fs) as (_ & Hrm & Habs).
  destruct (cleanupSandbox_spec sessionId (snd (RepoManager.cleanupSandbox sessionId fs)))
    as (_ & _ & Habs').
  apply Habs'. intros Hin.
  destruct (decide (RepoManager.getSandboxDir sessionId ∈ fs)) as [Hd|Hd].
  - specialize (Hrm Hd _ Hin). rewrite under_refl in Hrm. discriminate.
  - rewrite (Habs Hd) in Hin. contradiction.
Qed.

(** C4. When the clone has made the sandbox of a session, nothing of it is
    left on disk when [runHealingLoop] ends, whatever the calls of the loop
    return or throw; and [cleanupSandbox] succeeds on every disk, changes
    nothing when the directory is absent, and changes nothing when it is
    called a second time. *)
Theorem sandbox_removed_on_every_path :
  (forall (env : Env) (input : Orchestrator.OrchestratorInput) (fs : FS)
          (parsed : RepoRef) (fr : ForkResult),
      RepoManager.parseGitHubUrl (Orchestrator.repoUrl input) = Ok parsed ->
      RepoManager.forkRepo env (owner parsed) (repo parsed) = Ok fr ->
      fork_success fr = true ->
      gitClone env = Ok tt ->
      forall p : string,
        p ∈ st_fs (Orchestrator.runHealingLoop env input fs) ->
        under (RepoManager.getSandboxDir (Orchestrator.sessionId input)) p = false)
  /\ (forall (sessionId : string) (fs : FS),
      fst (RepoManager.cleanupSandbox sessionId fs) = Ok tt
      /\ (RepoManager.getSandboxDir sessionId ∉ fs ->
          RepoManager.cleanupSandbox sessionId fs = (Ok tt, fs))
      /\ RepoManager.cleanupSandbox sessionId (snd (RepoManager.cleanupSandbox sessionId fs))
         = (Ok tt, snd (RepoManager.cleanupSandbox sessionId fs))).
Proof.
  split.
  - intros env input fs parsed fr Hparse Hfork Hsucc Hclone p.
    unfold Orchestrator.runHealingLoop. rewrite Hparse.
    destruct (tryBlock_cloned env input fs parsed fr Hparse Hfork Hsucc Hclone)
      as (st & -> & Hin & _).
    destruct (afterClone_sandbox env input (owner parsed) (repo parsed)
                (RepoManager.getSandboxDir (Orchestrator.sessionId input)) st)
      as [Hfs Hdir].
    unfold exec in Hfs, Hdir.
    destruct (Orchestrator.afterClone env input (owner parsed) (repo parsed)
                (RepoManager.getSandboxDir (Orchestrator.sessionId input)) st)
      as [res st1].
    cbn [snd] in Hfs, Hdir.
    set (st2 := match res with
                | Ok _ => st1
                | Throw error => snd (Orchestrator.catchBlock error st1)
                end).
    assert (H2 : st_fs st2 = st_fs st /\ st_repoDir st2
                 = RepoManager.getSandboxDir (Orchestrator.sessionId input)).
    { subst st2. destruct res as [c|error]; [split; assumption|].
      destruct (catchBlock_sandbox error st1) as [H1 H2]. unfold exec in H1, H2.
      split; congruence. }
    destruct H2 as [Hfs2 Hdir2].
    unfold Orchestrator.finallyBlock. rewrite Hdir2, getSandboxDir_truthy.
    cbn [snd st_fs with_fs]. rewrite Hfs2.
    destruct (cleanupSandbox_spec (Orchestrator.sessionId input) (st_fs st))
      as (_ & Hrm & _).
    apply Hrm. exact Hin.
  - intros sessionId fs.
    destruct (cleanupSandbox_spec sessionId fs) as (H1 & _ & H3).
    split; [exact H1|]. split; [exact H3|]. apply cleanupSandbox_idempotent.
Qed.

(** The sandbox of the sample session in which the engineer throws in the
    first attempt. *)
Lemma sandbox_removed_witness :
  "/tmp/self-healing/s1" ∉ st_fs (Orchestrator.runHealingLoop Samples_engineerThrows
                                   Samples_input ∅).
Proof.
  intros Hin.
  pose proof (proj1 sandbox_removed_on_every_path Samples_engineerThrows Samples_input ∅
                {| owner := "octocat"; repo := "hello-world" |}
                (mkForkResult "zero-bot" "hello-world" "https://github.com/zero-bot/hello-world"
                   true None)
                eq_refl eq_refl eq_refl eq_refl "/tmp/self-healing/s1" Hin) as H.
  discriminate H.
Defined.

(** That session ends as failed with the engineer's error, after the clone
    had made the sandbox. *)
Example engineer_throws_session :
  let res := Orchestrator.runHealingLoop Samples_engineerThrows Samples_input ∅ in
  doc_status (st_doc res) = failed
  /\ doc_error (st_doc res) = Some "model overloaded"
  /\ st_repoDir res = "/tmp/self-healing/s1"
  /\ elements (st_fs res) = ["/tmp/self-healing"].
Proof. vm_compute. repeat split. Qed.

(** ** The exits of the loop *)

(** Reads the fields of states and session documents that are written out. *)
Ltac st_simpl :=
  cbn [st_fs st_doc st_prCalls st_events st_allBugs st_attempts st_repoDir
       st_branchName st_forkOwner st_forkRepoName st_useFork
       with_fs with_doc with_prCalls with_events with_allBugs with_attempts
       with_repoDir with_branchName with_fork
       doc_status doc_error doc_completedAt doc_currentAttempt doc_branchName
       doc_bugs doc_attempts doc_score doc_prUrl doc_prNumber] in *.

(** What [attemptCreatePR] leaves: the call is on record, and the state in
    memory is as before. *)
Lemma attemptCreatePR_outcome (env : Env) (o r repoDir branchName forkOwner token : string)
    (nFixed nBugs nAttempts score : Z) (st : OrchState) :
  RepoManager.getBotToken env = Ok token ->
  exists st',
    Orchestrator.attemptCreatePR env o r repoDir branchName forkOwner nFixed nBugs
      nAttempts score st = (Ok tt, st')
    /\ st_prCalls st'
       = (st_prCalls st
          ++ [mkPrCall o r branchName forkOwner nFixed nBugs nAttempts score])%list
    /\ doc_status (st_doc st') = doc_status (st_doc st)
    /\ doc_score (st_doc st') = doc_score (st_doc st)
    /\ doc_bugs (st_doc st') = doc_bugs (st_doc st)
    /\ doc_attempts (st_doc st') = doc_attempts (st_doc st)
    /\ st_allBugs st' = st_allBugs st
    /\ st_attempts st' = st_attempts st
    /\ st_events st' = st_events st.
Proof.
  intros Htok. unfold Orchestrator.attemptCreatePR. mstep.
  unfold RepoManager.createPullRequest. rewrite Htok. cbn [mbind Exc_bind].
  destruct (pr_success _); mstep; eexists; (split; [reflexivity|]); st_simpl;
    repeat split.
Qed.

(** An attempt whose tests pass is the last: the body returns from the
    function with the session finalized as completed. *)
Lemma attemptBody_tests_pass (env : Env) (o r token : string) (n : Z) (st : OrchState) :
  RepoManager.getBotToken env = Ok token ->
  timedOut env n 0 = false ->
  passed (testRun env n) = true ->
  exists st',
    Orchestrator.attemptBody env o r n st = (Ok Returned, st')
    /\ st_allBugs st' = st_allBugs st
    /\ st_attempts st'
       = (st_attempts st
          ++ [mkAttempt n att_passed (take_string 5000 (fullOutput (testRun env n)))
                0 0 None None])%list
    /\ doc_status (st_doc st') = completed
    /\ doc_bugs (st_doc st') = st_allBugs st
    /\ doc_attempts (st_doc st') = st_attempts st'
    /\ doc_score (st_doc st')
       = Some (calculateScore (st_allBugs st) true n (gitCommitCount env n)
                 (elapsedSeconds env n))
    /\ length (st_prCalls st') = S (length (st_prCalls st)).
Proof.
  intros Htok Htime Hpass. unfold Orchestrator.attemptBody. mstep.
  unfold Orchestrator.isTimedOut. rewrite Htime. mstep.
  unfold runTests. rewrite Hpass. mstep. cbv zeta. mstep.
  match goal with
  | |- context [Orchestrator.attemptCreatePR ?e ?a ?b ?c ?d ?f ?g ?h ?i ?j ?s] =>
      destruct (attemptCreatePR_outcome e a b c d f token g h i j s Htok)
        as (st' & -> & Hcalls & Hstatus & Hscore & Hbugs & Hatts & Hall & Hlog & _)
  end.
  mstep. eexists. split; [reflexivity|].
  st_simpl. repeat split; try assumption; try congruence.
  rewrite Hcalls, length_app. simpl. lia.
Qed.

Lemma finalScore_no_bugs (tested : bool) (n commits : Z) (elapsed : Q) :
  let s := calculateScore [] tested n commits elapsed in
  totalBugs s = 0 /\ bugsFixed s = 0
  /\ (tested = true -> n <= 2 ->
      finalScore s = Z.max 0 (30 + speedBonus s - commitPenalty s) /\ finalScore s <= 40).
Proof.
  cbv zeta. unfold calculateScore.
  cbn [totalBugs bugsFixed finalScore speedBonus commitPenalty length fixedCount
       List.filter Z.of_nat Z.ltb Z.compare].
  split; [reflexivity|]. split; [reflexivity|]. intros -> Hn.
  unfold MAX_COMMITS_PENALTY_THRESHOLD.
  change (0 <? Z.of_nat 0) with false. cbv iota.
  destruct (Z.leb_spec n 2); [|lia].
  destruct (Qltb elapsed SPEED_BONUS_THRESHOLD_SEC);
    destruct (Z.ltb_spec 20 commits); lia.
Qed.

(** C2, as amended. When the tests pass in the first run, which the first
    attempt makes in time, the loop is left in attempt 1: the session is
    finalized as completed, with no bug, one attempt on record and the pull
    request requested; the score has [testsPassed], one attempt and no bug,
    and its final value is [30 + speedBonus - commitPenalty], not below 0: at
    most 40. *)
Theorem first_run_passes (env : Env) (input : Orchestrator.OrchestratorInput) (fs : FS)
    (parsed : RepoRef) (fr : ForkResult) :
  RepoManager.parseGitHubUrl (Orchestrator.repoUrl input) = Ok parsed ->
  RepoManager.forkRepo env (owner parsed) (repo parsed) = Ok fr ->
  fork_success fr = true ->
  gitClone env = Ok tt ->
  gitCheckout env = Ok tt ->
  timedOut env 1 0 = false ->
  passed (testRun env 1) = true ->
  let res := Orchestrator.runHealingLoop env input fs in
  doc_status (st_doc res) = completed
  /\ st_allBugs res = [] /\ doc_bugs (st_doc res) = []
  /\ st_attempts res
     = [mkAttempt 1 att_passed (take_string 5000 (fullOutput (testRun env 1))) 0 0 None None]
  /\ doc_attempts (st_doc res) = st_attempts res
  /\ length (st_prCalls res) = 1%nat
  /\ exists s : HealingScore,
       doc_score (st_doc res) = Some s
       /\ s = calculateScore [] true 1 (gitCommitCount env 1) (elapsedSeconds env 1)
       /\ testsPassed s = true /\ attempts s = 1 /\ totalBugs s = 0
       /\ finalScore s = Z.max 0 (30 + speedBonus s - commitPenalty s)
       /\ finalScore s <= 40.
Proof.
  intros Hparse Hfork Hsucc Hclone Hcheckout Htime Hpass. cbv zeta.
  destruct (forkRepo_token _ _ _ _ Hfork) as [token Htok].
  unfold Orchestrator.runHealingLoop. rewrite Hparse.
  rewrite (tryBlock_reaches_loop env input fs parsed fr Hparse Hfork Hsucc Hclone Hcheckout).
  unfold Orchestrator.loopAndVerify. rewrite bind_eq.
  change (Z.to_nat Orchestrator.MAX_ATTEMPTS) with 3%nat.
  cbn [Orchestrator.attemptLoop]. rewrite bind_eq.
  destruct (attemptBody_tests_pass env (owner parsed) (repo parsed) token 1
              (loopEntry env input fr fs) Htok Htime Hpass)
    as (st' & -> & Hall & Hatts & Hstatus & Hbugs & Hdatts & Hscore & Hcalls).
  unfold loopEntry in Hall, Hatts, Hbugs, Hscore, Hcalls. st_simpl.
  cbv beta iota. unfold mret, M_ret. cbv beta iota.
  set (final := snd (Orchestrator.finallyBlock input st')).
  assert (Hfinal : st_doc final = st_doc st' /\ st_allBugs final = st_allBugs st'
                   /\ st_attempts final = st_attempts st'
                   /\ st_prCalls final = st_prCalls st').
  { subst final. unfold Orchestrator.finallyBlock.
    destruct (truthy (Some (st_repoDir st'))); repeat split. }
  destruct Hfinal as (-> & -> & -> & ->).
  destruct (finalScore_no_bugs true 1 (gitCommitCount env 1) (elapsedSeconds env 1))
    as (Ht & _ & Hf).
  destruct (Hf eq_refl ltac:(lia)) as [Hf1 Hf2].
  split; [exact Hstatus|]. split; [exact Hall|]. split; [exact Hbugs|].
  split; [exact Hatts|]. split; [exact Hdatts|]. split; [exact Hcalls|].
  eexists. split; [exact Hscore|]. repeat split; assumption.
Qed.

Lemma first_run_passes_witness :
  let res := Orchestrator.runHealingLoop Samples.healthy Samples_input ∅ in
  doc_status (st_doc res) = completed
  /\ st_allBugs res = [] /\ doc_bugs (st_doc res) = []
  /\ st_attempts res
     = [mkAttempt 1 att_passed
          (take_string 5000 (fullOutput (testRun Samples.healthy 1))) 0 0 None None]
  /\ doc_attempts (st_doc res) = st_attempts res
  /\ length (st_prCalls res) = 1%nat
  /\ exists s : HealingScore,
       doc_score (st_doc res) = Some s
       /\ s = calculateScore [] true 1 (gitCommitCount Samples.healthy 1)
                (elapsedSeconds Samples.healthy 1)
       /\ testsPassed s = true /\ attempts s = 1 /\ totalBugs s = 0
       /\ finalScore s = Z.max 0 (30 + speedBonus s - commitPenalty s)
       /\ finalScore s <= 40.
Proof.
  apply (first_run_passes Samples.healthy Samples_input ∅
           {| owner := "octocat"; repo := "hello-world" |}
           (mkForkResult "zero-bot" "hello-world" "https://github.com/zero-bot/hello-world"
              true None));
    reflexivity.
Defined.

(** C2, as stated, fails: in the sample session the tests pass in the first
    run, the session is completed in attempt 1 without a bug, within the
    time of the speed bonus and without a commit, and the final score is 40,
    below 80. *)
Lemma first_run_passes_scores_40 :
  let res := Orchestrator.runHealingLoop Samples.healthy Samples_input ∅ in
  passed (testRun Samples.healthy 1) = true
  /\ doc_status (st_doc res) = completed
  /\ st_allBugs res = []
  /\ length (st_attempts res) = 1%nat
  /\ (exists s : HealingScore,
        doc_score (st_doc res) = Some s /\ finalScore s = 40 /\ ~ 80 <= finalScore s).
Proof.
  vm_compute. repeat split. eexists. repeat split. intros H. apply H. reflexivity.
Qed.

(** ** The final verification *)

(** The pull request the final verification asks for. *)
Lemma finalVerification_outcome (env : Env) (o r token : string) (st : OrchState) :
  RepoManager.getBotToken env = Ok token ->
  let finalTest := testRun env (Orchestrator.MAX_ATTEMPTS + 1) in
  let score :=
    calculateScore (st_allBugs st) (passed finalTest) Orchestrator.MAX_ATTEMPTS
      (gitCommitCount env (Orchestrator.MAX_ATTEMPTS + 1))
      (elapsedSeconds env (Orchestrator.MAX_ATTEMPTS + 1)) in
  let finalStatus :=
    if passed finalTest then completed
    else if 0 <? bugsFixed score then partial_success
    else failed in
  let request :=
    mkPrCall o r (st_branchName st) (st_forkOwner st) (bugsFixed score) (totalBugs score)
      Orchestrator.MAX_ATTEMPTS (finalScore score) in
  exists st',
    Orchestrator.finalVerification env o r st = (Ok tt, st')
    /\ doc_status (st_doc st') = finalStatus
    /\ doc_score (st_doc st') = Some score
    /\ doc_bugs (st_doc st') = st_allBugs st
    /\ st_prCalls st'
       = (st_prCalls st
          ++ (if passed finalTest || (0 <? bugsFixed score) then [request] else []))%list
    /\ st_events st'
       = (st_events st ++ [EStatus testing; EScore score; EStatus finalStatus])%list.
Proof.
  intros Htok. cbv zeta. unfold Orchestrator.finalVerification. mstep. cbv zeta.
  unfold runTests, getCommitCount.
  destruct (passed (testRun env (Orchestrator.MAX_ATTEMPTS + 1))) eqn:Hp.
  - mstep.
    match goal with
    | |- context [Orchestrator.attemptCreatePR ?e ?a ?b ?c ?d ?f ?g ?h ?i ?j ?s] =>
        destruct (attemptCreatePR_outcome e a b c d f token g h i j s Htok)
          as (st' & -> & Hcalls & Hstatus & Hscore & Hbugs & Hatts & Hall & Hatt & Hlog)
    end.
    mstep. eexists. split; [reflexivity|]. st_simpl.
    rewrite Hstatus, Hscore, Hbugs, Hcalls, Hlog.
    repeat split. now rewrite <- !app_assoc.
  - mstep.
    destruct (0 <? bugsFixed _) eqn:Hfixed.
    + match goal with
      | |- context [Orchestrator.attemptCreatePR ?e ?a ?b ?c ?d ?f ?g ?h ?i ?j ?s] =>
          destruct (attemptCreatePR_outcome e a b c d f token g h i j s Htok)
            as (st' & -> & Hcalls & Hstatus & Hscore & Hbugs & Hatts & Hall & Hatt & Hlog)
      end.
      mstep. eexists. split; [reflexivity|]. st_simpl.
      rewrite Hstatus, Hscore, Hbugs, Hcalls, Hlog.
      repeat split. now rewrite <- !app_assoc.
    + unfold mret, M_ret. mstep. eexists. split; [reflexivity|]. st_simpl.
      repeat split; [now rewrite app_nil_r | now rewrite <- !app_assoc].
Qed.

(** The three outcomes on the samples: one bug fixed and the tests still
    failing; no bug fixed; the tests passing in the end. *)
Example final_verification_partial_success :
  let res := Orchestrator.runHealingLoop Samples_stubborn Samples_input ∅ in
  doc_status (st_doc res) = partial_success
  /\ length (st_attempts res) = 3%nat
  /\ length (st_prCalls res) = 1%nat
  /\ (bugsFixed <$> doc_score (st_doc res)) = Some 1
  /\ (totalBugs <$> doc_score (st_doc res)) = Some 3.
Proof. vm_compute. repeat split. Qed.

Example final_verification_failed :
  let res := Orchestrator.runHealingLoop Samples_hopeless Samples_input ∅ in
  doc_status (st_doc res) = failed
  /\ length (st_attempts res) = 3%nat
  /\ st_prCalls res = []
  /\ (bugsFixed <$> doc_score (st_doc res)) = Some 0.
Proof. vm_compute. repeat split. Qed.

Example final_verification_completed :
  let res := Orchestrator.runHealingLoop Samples_late Samples_input ∅ in
  doc_status (st_doc res) = completed
  /\ length (st_attempts res) = 3%nat
  /\ length (st_prCalls res) = 1%nat.
Proof. vm_compute. repeat split. Qed.


(** A timeout found at the start of an attempt leaves the loop for the
    final verification. *)
Lemma timeout_breaks_loop (env : Env) (o r : string) (n : nat) (attempt : Z)
    (st : OrchState) :
  timedOut env attempt 0 = true ->
  Orchestrator.attemptLoop env o r (S n) attempt st
  = (Ok Next, exec (updateCurrentAttempt attempt) st).
Proof.
  intros Htime. cbn [Orchestrator.attemptLoop]. rewrite bind_eq.
  unfold Orchestrator.attemptBody. mstep.
  unfold Orchestrator.isTimedOut. rewrite Htime. reflexivity.
Qed.

(** ** The list of bugs *)

Lemma same_location_spec (b bug : HealingBug) :
  same_location b bug = true <-> location b = location bug.
Proof.
  unfold same_location, location. rewrite andb_true_iff, String.eqb_eq, Z.eqb_eq.
  split; [intros [-> ->]; reflexivity | intros [= -> ->]; split; reflexivity].
Qed.

Lemma find_location_none (bug : HealingBug) (l : list HealingBug) :
  List.find (fun b => same_location b bug) l = None ->
  location bug ∉ map location l.
Proof.
  induction l as [|b l IH]; cbn [List.find map]; intros H.
  - apply not_elem_of_nil.
  - destruct (same_location b bug) eqn:E; [discriminate|].
    apply not_elem_of_cons. split; [|exact (IH H)].
    intros Heq. symmetry in Heq. apply same_location_spec in Heq. congruence.
Qed.

Lemma unique_push (bug : HealingBug) (l : list HealingBug) :
  unique_locations l ->
  List.find (fun b => same_location b bug) l = None ->
  unique_locations (l ++ [bug]).
Proof.
  unfold unique_locations. intros Hl Hfind. rewrite map_app. cbn [map].
  apply NoDup_app. split; [exact Hl|]. split.
  - intros x Hx Hin. apply list_elem_of_singleton in Hin. subst x.
    exact (find_location_none _ _ Hfind Hx).
  - apply NoDup_singleton.
Qed.

Lemma later_bug_refl (b : HealingBug) : later_bug b b.
Proof. repeat split. auto. Qed.

Lemma later_bug_trans (a b c : HealingBug) : later_bug a b -> later_bug b c -> later_bug a c.
Proof.
  intros (H1 & H2 & H3) (H4 & H5 & H6). repeat split; [congruence | congruence | auto].
Qed.

Lemma later_bugs_refl (l : list HealingBug) : Forall2 later_bug l l.
Proof. induction l; constructor; [apply later_bug_refl | assumption]. Qed.

Lemma later_bugs_locations (l k : list HealingBug) :
  Forall2 later_bug l k -> map location k = map location l.
Proof.
  induction 1 as [|a b l k (_ & H & _) _ IH]; [reflexivity|].
  cbn [map]. now rewrite H, IH.
Qed.

Lemma grows_refl (l : list HealingBug) : grows l l.
Proof. exists l, []. split; [now rewrite app_nil_r | apply later_bugs_refl]. Qed.

Lemma grows_push (l : list HealingBug) (bug : HealingBug) : grows l (l ++ [bug]).
Proof. exists l, [bug]. split; [reflexivity | apply later_bugs_refl]. Qed.

Lemma grows_trans (a b c : list HealingBug) : grows a b -> grows b c -> grows a c.
Proof.
  intros (k1 & e1 & -> & H1) (k2 & e2 & -> & H2).
  apply Forall2_app_inv_l in H2 as (k21 & k22 & H21 & H22 & ->).
  exists k21, (k22 ++ e2)%list. split; [now rewrite app_assoc|].
  clear H22. revert k21 H21. induction H1 as [|x y l k Hxy _ IH]; intros k21 H21.
  - inversion H21. constructor.
  - inversion H21 as [|? z ? k' Hyz Hrest]; subst. constructor.
    + eapply later_bug_trans; eassumption.
    + apply IH. exact Hrest.
Qed.

(** A fixed bug of a list is still there, and fixed, in every later list. *)
Lemma grows_keeps_fixed (l l' : list HealingBug) (b : HealingBug) :
  grows l l' -> b ∈ l -> fixed b = true ->
  exists b', b' ∈ l' /\ bug_id b' = bug_id b /\ location b' = location b
             /\ fixed b' = true.
Proof.
  intros (kept & added & -> & H) Hin Hfixed.
  induction H as [|x y l k (H1 & H2 & H3) _ IH]; [inversion Hin|].
  apply elem_of_cons in Hin as [-> | Hin].
  - exists y. split; [apply elem_of_cons; left; reflexivity|]. auto.
  - destruct (IH Hin) as (b' & Hb' & Hrest). exists b'. split; [|exact Hrest].
    cbn [app]. apply elem_of_cons. right. exact Hb'.
Qed.

Lemma mark_fixed_later (bugId : string) (attempt : Z) (l : list HealingBug) :
  Forall2 later_bug l (mark_fixed bugId attempt l).
Proof.
  induction l as [|b l IH]; cbn [mark_fixed]; [constructor|].
  destruct (String.eqb (bug_id b) bugId).
  - constructor; [repeat split | apply later_bugs_refl].
  - constructor; [apply later_bug_refl | exact IH].
Qed.

Lemma later_grows (l k : list HealingBug) : Forall2 later_bug l k -> grows l k.
Proof. intros H. exists k, []. split; [now rewrite app_nil_r | exact H]. Qed.

Lemma later_unique (l k : list HealingBug) :
  Forall2 later_bug l k -> unique_locations l -> unique_locations k.
Proof. intros H. unfold unique_locations. now rewrite (later_bugs_locations _ _ H). Qed.

Lemma markApplied_later (results : list FixResult) (attempt : Z) (l : list HealingBug) :
  grows l (markApplied results attempt l)
  /\ (unique_locations l -> unique_locations (markApplied results attempt l)).
Proof.
  revert l. induction results as [|result rest IH]; intros l; cbn [markApplied].
  - split; [apply grows_refl | auto].
  - destruct (applied result).
    + destruct (IH (mark_fixed (bugId result) attempt l)) as [H1 H2]. split.
      * eapply grows_trans; [apply later_grows, mark_fixed_later | exact H1].
      * intros Hu. apply H2. eapply later_unique; [apply mark_fixed_later | exact Hu].
    + apply IH.
Qed.

Lemma trackScanned_kept (bugs allBugs new : list HealingBug) :
  grows allBugs (fst (Orchestrator.trackScanned bugs allBugs new))
  /\ (unique_locations allBugs ->
      unique_locations (fst (Orchestrator.trackScanned bugs allBugs new))).
Proof.
  revert allBugs new. induction bugs as [|bug rest IH]; intros allBugs new;
    cbn [Orchestrator.trackScanned].
  - split; [apply grows_refl | auto].
  - destruct (List.find (fun b => same_location b bug && fixed b) allBugs); [apply IH|].
    cbv zeta.
    destruct (List.find (fun b => same_location b bug) allBugs) eqn:E; [apply IH|].
    destruct (IH (allBugs ++ [bug])%list (new ++ [bug])%list) as [H1 H2]. split.
    + eapply grows_trans; [apply grows_push | exact H1].
    + intros Hu. apply H2. now apply unique_push.
Qed.

Lemma trackSynthesized_kept (bugsToFix allBugs : list HealingBug) :
  grows allBugs (Orchestrator.trackSynthesized bugsToFix allBugs)
  /\ (unique_locations allBugs ->
      unique_locations (Orchestrator.trackSynthesized bugsToFix allBugs)).
Proof.
  revert allBugs. induction bugsToFix as [|bug rest IH]; intros allBugs;
    cbn [Orchestrator.trackSynthesized].
  - split; [apply grows_refl | auto].
  - destruct (List.find (fun b => same_location b bug) allBugs) eqn:E; [apply IH|].
    destruct (IH (allBugs ++ [bug])%list) as [H1 H2]. split.
    + eapply grows_trans; [apply grows_push | exact H1].
    + intros Hu. apply H2. now apply unique_push.
Qed.

Lemma trackNew_kept (bugs allBugs new : list HealingBug) :
  grows allBugs (fst (OrchestratorFallback.trackNew bugs allBugs new))
  /\ (unique_locations allBugs ->
      unique_locations (fst (OrchestratorFallback.trackNew bugs allBugs new))).
Proof.
  revert allBugs new. induction bugs as [|bug rest IH]; intros allBugs new;
    cbn [OrchestratorFallback.trackNew].
  - split; [apply grows_refl | auto].
  - destruct (List.find (fun b => same_location b bug) allBugs) eqn:E; [apply IH|].
    destruct (IH (allBugs ++ [bug])%list (new ++ [bug])%list) as [H1 H2]. split.
    + eapply grows_trans; [apply grows_push | exact H1].
    + intros Hu. apply H2. now apply unique_push.
Qed.

(** A scan that reports the location of a fixed bug again adds nothing. *)
Lemma trackScanned_skips_fixed (bug b : HealingBug) (allBugs new : list HealingBug) :
  b ∈ allBugs -> fixed b = true -> location b = location bug ->
  Orchestrator.trackScanned [bug] allBugs new = (allBugs, new).
Proof.
  intros Hin Hfixed Hloc. cbn [Orchestrator.trackScanned].
  destruct (List.find (fun b0 => same_location b0 bug && fixed b0) allBugs) eqn:E;
    [reflexivity|].
  exfalso. apply list_elem_of_In in Hin.
  pose proof (List.find_none _ _ E b Hin) as H. cbv beta in H.
  apply same_location_spec in Hloc. rewrite Hloc, Hfixed in H. discriminate.
Qed.

Lemma bugs_kept_refl (st : OrchState) : bugs_kept st st.
Proof. split; [apply grows_refl | auto]. Qed.

Lemma bugs_kept_trans (a b c : OrchState) : bugs_kept a b -> bugs_kept b c -> bugs_kept a c.
Proof. intros [H1 H2] [H3 H4]. split; [eapply grows_trans; eassumption | auto]. Qed.

Lemma keeps_ret {A} (a : A) (st : OrchState) : keeps_bugs (mret a : M A) st.
Proof. apply bugs_kept_refl. Qed.

Lemma keeps_lift {A} (c : Exc A) (st : OrchState) : keeps_bugs (lift c) st.
Proof. apply bugs_kept_refl. Qed.

Lemma keeps_get (st : OrchState) : keeps_bugs get st.
Proof. apply bugs_kept_refl. Qed.

Lemma keeps_modify (g : OrchState -> OrchState) (st : OrchState) :
  bugs_kept st (g st) -> keeps_bugs (modify g) st.
Proof. intros H. exact H. Qed.

Lemma keeps_bind {A B} (c : M A) (f : A -> M B) (st : OrchState) :
  keeps_bugs c st -> (forall a st', keeps_bugs (f a) st') -> keeps_bugs (c ≫= f) st.
Proof.
  intros Hc Hf. unfold keeps_bugs, exec in *. rewrite bind_eq.
  destruct (c st) as [[a|e] st']; cbn [snd] in *.
  - eapply bugs_kept_trans; [exact Hc | apply Hf].
  - exact Hc.
Qed.

(** After [st <- get] the statements that follow run from the state they
    were given. *)
Lemma keeps_get_bind {B} (f : OrchState -> M B) (st : OrchState) :
  keeps_bugs (f st) st -> keeps_bugs (get ≫= f) st.
Proof. intros H. exact H. Qed.

Lemma kept_doc (f : SessionDoc -> SessionDoc) (st : OrchState) :
  doc_bugs (f (st_doc st)) = doc_bugs (st_doc st)
  \/ doc_bugs (f (st_doc st)) = st_allBugs st ->
  bugs_kept st (with_doc f st).
Proof.
  intros H. split; [apply grows_refl|]. intros [H1 H2]. split; [exact H1|].
  cbn [st_doc with_doc]. destruct H as [-> | ->]; assumption.
Qed.

Lemma kept_frame (g : OrchState -> OrchState) (st : OrchState) :
  st_allBugs (g st) = st_allBugs st -> st_doc (g st) = st_doc st ->
  bugs_kept st (g st).
Proof.
  intros H1 H2. split; [rewrite H1; apply grows_refl|].
  unfold bugs_unique. now rewrite H1, H2.
Qed.

Lemma kept_allBugs (f : list HealingBug -> list HealingBug) (st : OrchState) :
  grows (st_allBugs st) (f (st_allBugs st))
  /\ (unique_locations (st_allBugs st) -> unique_locations (f (st_allBugs st))) ->
  bugs_kept st (with_allBugs f st).
Proof.
  intros [H1 H2]. split; [exact H1|]. intros [H3 H4]. split; [apply H2, H3 | exact H4].
Qed.

Ltac kept_solve :=
  cbv beta;
  first
    [ apply kept_doc; cbn [doc_bugs st_doc]; auto; fail
    | apply kept_frame; reflexivity
    | apply kept_allBugs; first [apply trackSynthesized_kept | apply markApplied_later]
    | match goal with
      | E : Orchestrator.trackScanned ?bugs (st_allBugs ?st) ?new = (?l, _)
        |- bugs_kept ?st (with_allBugs (fun _ => ?l) ?st) =>
          apply kept_allBugs;
          pose proof (trackScanned_kept bugs (st_allBugs st) new) as Hk;
          rewrite E in Hk; exact Hk
      | E : OrchestratorFallback.trackNew ?bugs (st_allBugs ?st) ?new = (?l, _)
        |- bugs_kept ?st (with_allBugs (fun _ => ?l) ?st) =>
          apply kept_allBugs;
          pose proof (trackNew_kept bugs (st_allBugs st) new) as Hk;
          rewrite E in Hk; exact Hk
      end ].

Ltac keeps_step :=
  lazymatch goal with
  | |- keeps_bugs (mbind _ get) _ => apply keeps_get_bind; cbv beta
  | |- keeps_bugs (mbind _ _) _ => apply keeps_bind; [| intros ? ?]
  | |- keeps_bugs (mret _) _ => apply keeps_ret
  | |- keeps_bugs (lift _) _ => apply keeps_lift
  | |- keeps_bugs get _ => apply keeps_get
  | |- keeps_bugs (modify _) _ => apply keeps_modify; kept_solve
  | |- keeps_bugs (if ?b then _ else _) _ => destruct b
  | |- keeps_bugs (match ?x with _ => _ end) _ => destruct x eqn:?
  | |- keeps_bugs (let _ := _ in _) _ => cbv zeta
  end.

Lemma attemptCreatePR_keeps (env : Env) (o r repoDir branchName forkOwner : string)
    (a b c d : Z) (st : OrchState) :
  keeps_bugs (Orchestrator.attemptCreatePR env o r repoDir branchName forkOwner a b c d) st.
Proof. unfold Orchestrator.attemptCreatePR. unfold_helpers. repeat keeps_step. Qed.

Lemma attemptBody_keeps (env : Env) (o r : string) (attempt : Z) (st : OrchState) :
  keeps_bugs (Orchestrator.attemptBody env o r attempt) st.
Proof.
  unfold Orchestrator.attemptBody. unfold_helpers.
  repeat first [apply attemptCreatePR_keeps | keeps_step].
Qed.

Lemma attemptLoop_keeps (env : Env) (o r : string) (n : nat) (attempt : Z) (st : OrchState) :
  keeps_bugs (Orchestrator.attemptLoop env o r n attempt) st.
Proof.
  revert attempt st. induction n as [|n IH]; intros attempt st;
    cbn [Orchestrator.attemptLoop].
  - keeps_step.
  - keeps_step; [apply attemptBody_keeps|].
    keeps_step; [apply IH | keeps_step | keeps_step].
Qed.

Lemma finalVerification_keeps (env : Env) (o r : string) (st : OrchState) :
  keeps_bugs (Orchestrator.finalVerification env o r) st.
Proof.
  unfold Orchestrator.finalVerification. unfold_helpers.
  repeat first [apply attemptCreatePR_keeps | keeps_step].
Qed.

Lemma tryBlock_keeps (env : Env) (input : Orchestrator.OrchestratorInput) (o r : string)
    (st : OrchState) :
  keeps_bugs (Orchestrator.tryBlock env input o r) st.
Proof.
  unfold Orchestrator.tryBlock, Orchestrator.afterClone, Orchestrator.loopAndVerify.
  unfold_helpers.
  repeat first
    [ apply attemptLoop_keeps | apply finalVerification_keeps
    | lazymatch goal with
      | |- keeps_bugs (Orchestrator.cloneRepoM _ _ _ _) ?s =>
          unfold keeps_bugs, exec, Orchestrator.cloneRepoM;
          destruct (cloneRepo _ _ _ _ _ _); apply kept_frame; reflexivity
      end
    | keeps_step ].
Qed.

Lemma catchBlock_keeps (error : JsError) (st : OrchState) :
  keeps_bugs (Orchestrator.catchBlock error) st.
Proof. unfold Orchestrator.catchBlock. unfold_helpers. repeat keeps_step. Qed.

Lemma initial_bugs_unique (fs : FS) : bugs_unique (initialState fs).
Proof. split; apply NoDup_nil_2. Qed.

Lemma runHealingLoop_bugs_unique (env : Env) (input : Orchestrator.OrchestratorInput)
    (fs : FS) :
  bugs_unique (Orchestrator.runHealingLoop env input fs).
Proof.
  unfold Orchestrator.runHealingLoop.
  destruct (RepoManager.parseGitHubUrl (Orchestrator.repoUrl input)) as [parsed|error].
  - pose proof (tryBlock_keeps env input (owner parsed) (repo parsed) (initialState fs))
      as [_ H].
    specialize (H (initial_bugs_unique fs)). unfold exec in H.
    destruct (Orchestrator.tryBlock env input (owner parsed) (repo parsed)
                (initialState fs)) as [res st]. cbn [snd] in H.
    assert (H2 : bugs_unique match res with
                             | Ok _ => st
                             | Throw error => snd (Orchestrator.catchBlock error st)
                             end).
    { destruct res as [c|error]; [exact H|]. apply (catchBlock_keeps error st). exact H. }
    unfold Orchestrator.finallyBlock.
    destruct (truthy _); cbn [snd]; exact H2.
  - assert (H : keeps_bugs (updateSessionStatus failed (Some (err_message error));;
                            emitError (err_message error)) (initialState fs)).
    { unfold_helpers. repeat keeps_step. }
    apply H. apply initial_bugs_unique.
Qed.

(** The revision that falls back to the original repository. *)

Lemma fallback_createPR_keeps (env : Env) (o r : string) (a b c d : Z) (st : OrchState) :
  keeps_bugs (OrchestratorFallback.createPR env o r a b c d) st.
Proof. unfold OrchestratorFallback.createPR. unfold_helpers. repeat keeps_step. Qed.

Lemma fallback_attemptBody_keeps (env : Env) (o r : string) (attempt : Z) (st : OrchState) :
  keeps_bugs (OrchestratorFallback.attemptBody env o r attempt) st.
Proof.
  unfold OrchestratorFallback.attemptBody. unfold_helpers.
  repeat first [apply fallback_createPR_keeps | keeps_step].
Qed.

Lemma fallback_attemptLoop_keeps (env : Env) (o r : string) (n : nat) (attempt : Z)
    (st : OrchState) :
  keeps_bugs (OrchestratorFallback.attemptLoop env o r n attempt) st.
Proof.
  revert attempt st. induction n as [|n IH]; intros attempt st;
    cbn [OrchestratorFallback.attemptLoop].
  - keeps_step.
  - keeps_step; [apply fallback_attemptBody_keeps|].
    keeps_step; [apply IH | keeps_step | keeps_step].
Qed.

Lemma fallback_finalVerification_keeps (env : Env) (o r : string) (st : OrchState) :
  keeps_bugs (OrchestratorFallback.finalVerification env o r) st.
Proof.
  unfold OrchestratorFallback.finalVerification. unfold_helpers.
  repeat first [apply fallback_createPR_keeps | keeps_step].
Qed.

Lemma fallback_tryBlock_keeps (env : Env) (input : OrchestratorFallback.OrchestratorInput)
    (o r : string) (st : OrchState) :
  keeps_bugs (OrchestratorFallback.tryBlock env input o r) st.
Proof.
  unfold OrchestratorFallback.tryBlock, OrchestratorFallback.afterClone,
    OrchestratorFallback.loopAndVerify.
  unfold_helpers.
  repeat first
    [ apply fallback_attemptLoop_keeps | apply fallback_finalVerification_keeps
    | lazymatch goal with
      | |- keeps_bugs (OrchestratorFallback.cloneRepoM _ _ _ _) ?s =>
          unfold keeps_bugs, exec, OrchestratorFallback.cloneRepoM;
          destruct (cloneRepoNoRetry _ _ _ _ _ _); apply kept_frame; reflexivity
      end
    | keeps_step ].
Qed.

Lemma fallback_runHealingLoop_bugs_unique (env : Env)
    (input : OrchestratorFallback.OrchestratorInput) (fs : FS) :
  bugs_unique (OrchestratorFallback.runHealingLoop env input fs).
Proof.
  unfold OrchestratorFallback.runHealingLoop.
  destruct (RepoManagerNoRetry.parseGitHubUrl (OrchestratorFallback.repoUrl input))
    as [parsed|error].
  - pose proof (fallback_tryBlock_keeps env input (owner parsed) (repo parsed)
                  (initialState fs)) as [_ H].
    specialize (H (initial_bugs_unique fs)). unfold exec in H.
    destruct (OrchestratorFallback.tryBlock env input (owner parsed) (repo parsed)
                (initialState fs)) as [res st]. cbn [snd] in H.
    assert (H2 : bugs_unique match res with
                             | Ok _ => st
                             | Throw error => snd (OrchestratorFallback.catchBlock error st)
                             end).
    { destruct res as [c|error]; [exact H|].
      assert (Hc : keeps_bugs (OrchestratorFallback.catchBlock error) st).
      { unfold OrchestratorFallback.catchBlock. unfold_helpers. repeat keeps_step. }
      apply Hc. exact H. }
    unfold OrchestratorFallback.finallyBlock.
    destruct (truthy _); cbn [snd]; exact H2.
  - assert (H : keeps_bugs (updateSessionStatus failed (Some (err_message error));;
                            emitError (err_message error)) (initialState fs)).
    { unfold_helpers. repeat keeps_step. }
    apply H. apply initial_bugs_unique.
Qed.

Lemma unique_location_determines (l : list HealingBug) (b c : HealingBug) :
  unique_locations l -> b ∈ l -> c ∈ l -> location c = location b -> c = b.
Proof.
  unfold unique_locations. induction l as [|x l IH]; intros Hnd Hb Hc Hloc;
    [inversion Hb|].
  cbn [map] in Hnd. apply NoDup_cons in Hnd as [Hx Hnd].
  apply elem_of_cons in Hb as [-> | Hb]; apply elem_of_cons in Hc as [-> | Hc].
  - reflexivity.
  - exfalso. apply Hx. rewrite <- Hloc. apply list_elem_of_fmap. eauto.
  - exfalso. apply Hx. rewrite Hloc. apply list_elem_of_fmap. eauto.
  - now apply IH.
Qed.

(** C5. The bug list of a session, in memory and in the store, has no two
    bugs at the same file and line when [runHealingLoop] ends, in both
    revisions; and any number of attempts from a state without duplicates
    leaves a state without duplicates in which every bug that was fixed is
    still fixed and is the only bug at its location. *)
Theorem bug_locations_stay_unique :
  (forall (env : Env) (input : Orchestrator.OrchestratorInput) (fs : FS),
      bugs_unique (Orchestrator.runHealingLoop env input fs))
  /\ (forall (env : Env) (input : OrchestratorFallback.OrchestratorInput) (fs : FS),
      bugs_unique (OrchestratorFallback.runHealingLoop env input fs))
  /\ (forall (env : Env) (o r : string) (n : nat) (attempt : Z) (st : OrchState),
      bugs_unique st ->
      forall st',
        st' = exec (Orchestrator.attemptLoop env o r n attempt) st
        \/ st' = exec (OrchestratorFallback.attemptLoop env o r n attempt) st ->
        bugs_unique st'
        /\ forall b : HealingBug,
             b ∈ st_allBugs st -> fixed b = true ->
             exists b' : HealingBug,
               b' ∈ st_allBugs st' /\ bug_id b' = bug_id b /\ fixed b' = true
               /\ forall c : HealingBug,
                    c ∈ st_allBugs st' -> location c = location b -> c = b').
Proof.
  split; [exact runHealingLoop_bugs_unique|].
  split; [exact fallback_runHealingLoop_bugs_unique|].
  intros env o r n attempt st Hu st' Hst'.
  assert (H : bugs_kept st st').
  { destruct Hst' as [-> | ->];
      [apply attemptLoop_keeps | apply fallback_attemptLoop_keeps]. }
  destruct H as [Hg Hk]. specialize (Hk Hu). split; [exact Hk|].
  intros b Hb Hfixed.
  destruct (grows_keeps_fixed _ _ b Hg Hb Hfixed) as (b' & Hb' & Hid & Hloc & Hf).
  exists b'. repeat split; try assumption.
  intros c Hc Hcloc. apply (unique_location_determines (st_allBugs st')); try assumption.
  - apply Hk.
  - congruence.
Qed.

Lemma bug_locations_stay_unique_witness :
  let st' := exec (Orchestrator.attemptLoop Samples_engineerThrows "octocat" "hello-world"
                     2 2) Samples_fixedState in
  bugs_unique st'
  /\ forall b : HealingBug,
       b ∈ st_allBugs Samples_fixedState -> fixed b = true ->
       exists b' : HealingBug,
         b' ∈ st_allBugs st' /\ bug_id b' = bug_id b /\ fixed b' = true
         /\ forall c : HealingBug,
              c ∈ st_allBugs st' -> location c = location b -> c = b'.
Proof.
  apply (proj2 (proj2 bug_locations_stay_unique) Samples_engineerThrows "octocat"
           "hello-world" 2%nat 2 Samples_fixedState).
  - split; [apply NoDup_singleton | apply NoDup_nil_2].
  - left. reflexivity.
Defined.

(** In that run the scanner reports the location of the fixed bug again, and
    the list of bugs is as before. *)
Example fixed_bug_is_not_added_again :
  scanForBugs Samples_engineerThrows 2 = Ok [Samples.bugAt "bug-1" "src/calc.js" 3]
  /\ st_allBugs (exec (Orchestrator.attemptLoop Samples_engineerThrows "octocat"
                         "hello-world" 2 2) Samples_fixedState)
     = st_allBugs Samples_fixedState.
Proof. split; reflexivity. Qed.

(** * Further properties *)

(** ** The record of a session *)

(** What [attemptCreatePR] changes: the call is on record and the store can
    have the pull request; everything else is as before. *)
Lemma attemptCreatePR_record (env : Env) (o r repoDir branchName forkOwner token : string)
    (nFixed nBugs nAttempts score : Z) (st : OrchState) :
  RepoManager.getBotToken env = Ok token ->
  exists st',
    Orchestrator.attemptCreatePR env o r repoDir branchName forkOwner nFixed nBugs
      nAttempts score st = (Ok tt, st')
    /\ st_prCalls st'
       = (st_prCalls st
          ++ [mkPrCall o r branchName forkOwner nFixed nBugs nAttempts score])%list
    /\ doc_status (st_doc st') = doc_status (st_doc st)
    /\ doc_error (st_doc st') = doc_error (st_doc st)
    /\ doc_completedAt (st_doc st') = doc_completedAt (st_doc st)
    /\ doc_score (st_doc st') = doc_score (st_doc st)
    /\ doc_bugs (st_doc st') = doc_bugs (st_doc st)
    /\ doc_attempts (st_doc st') = doc_attempts (st_doc st)
    /\ st_allBugs st' = st_allBugs st
    /\ st_attempts st' = st_attempts st
    /\ st_events st' = st_events st
    /\ same_locals st st'.
Proof.
  intros Htok. unfold Orchestrator.attemptCreatePR. mstep.
  unfold RepoManager.createPullRequest. rewrite Htok. cbn [mbind Exc_bind].
  destruct (pr_success _); mstep; eexists; (split; [reflexivity|]); st_simpl;
    unfold same_locals; st_simpl; repeat split.
Qed.

(** The innermost term a statement at the head of the goal waits for. *)
Ltac scrutinee t :=
  lazymatch t with
  | match ?x with _ => _ end => scrutinee x
  | ?f _ =>
      lazymatch f with
      | match ?x with _ => _ end => scrutinee x
      | _ => constr:(t)
      end
  | _ => constr:(t)
  end.

(** Runs the statements at the head of the goal that need no case
    distinction, and reads the fields of the states they build. *)
Ltac mrun :=
  repeat (progress (
    rewrite ?bind_eq;
    unfold updateSessionStatus, updateCurrentAttempt, updateBranchInfo,
      updateBugsAndAttempts, updatePr, finalizeSession, emitStatus, emitScore,
      emitError, modify, lift, get, mret, M_ret, runTests, getCommitCount,
      Orchestrator.isTimedOut;
    cbv beta iota zeta;
    cbn [st_fs st_doc st_prCalls st_events st_allBugs st_attempts st_repoDir
         st_branchName st_forkOwner st_forkRepoName st_useFork
         with_fs with_doc with_prCalls with_events with_allBugs with_attempts
         with_repoDir with_branchName with_fork
         doc_status doc_error doc_completedAt doc_currentAttempt doc_branchName
         doc_bugs doc_attempts doc_score doc_prUrl doc_prNumber
         is_terminal_write orb];
    change (truthy None) with false)).

(** Runs the statement at the head of the goal one case distinction further. *)
Ltac mcase token Htok :=
  mrun;
  lazymatch goal with
  | |- _ ?t =>
      let x := scrutinee t in
      lazymatch x with
      | Orchestrator.attemptCreatePR ?e ?a ?b ?c ?d ?f ?g ?h ?i ?j ?s =>
          let st' := fresh "st" in
          let Hpr := fresh "Hpr" in
          destruct (attemptCreatePR_record e a b c d f token g h i j s Htok)
            as (st' & -> & Hpr)
      | (_, _) => fail "done"
      | _ => destruct x eqn:?
      end
  end.

Lemma attempt_wf_passed (n : Z) (out : string) (found nfixed : Z) :
  attempt_wf n (mkAttempt n att_passed out found nfixed None None).
Proof. unfold attempt_wf. cbn. repeat split; intros; congruence. Qed.

Lemma attempt_wf_failed (n : Z) (out msg : string) (found nfixed : Z) (sha : option string) :
  attempt_wf n (mkAttempt n att_failed out found nfixed
                  (if truthy sha then sha else None)
                  (if truthy sha then Some ("[AI-AGENT] " ++ msg) else None)).
Proof.
  unfold attempt_wf. cbn [attempt status commitSha commitMessage].
  destruct sha as [[|c s]|]; cbn [truthy]; repeat split; intros; try congruence.
  inversion H; subst. eexists. reflexivity.
Qed.

Lemma attemptBody_effect (env : Env) (o r token : string) (n : Z) (st : OrchState) :
  RepoManager.getBotToken env = Ok token ->
  attempt_effect o r n st (Orchestrator.attemptBody env o r n st).
Proof.
  intros Htok. unfold Orchestrator.attemptBody.
  repeat mcase token Htok.
  all: mrun.
  all: unfold attempt_effect, same_locals, unfinished; cbn [fst snd]; st_simpl.
  all: try solve [repeat split; intros; first [reflexivity | assumption]].
  all: try solve [split; [repeat split|]; split;
                    [|repeat split; intros; first [reflexivity | assumption]];
                  eexists; split; [reflexivity|]; split;
                    [apply attempt_wf_failed|reflexivity]].
  all: destruct Hpr as (Hcalls & Hstatus & Herr & Hdone & Hscore & Hbugs & Hatts & Hall
                        & Hmem & Hev & (Hd & Hb & Hf)); st_simpl.
  all: (split; [repeat split; congruence|]); split;
    [eexists; split; [exact Hmem|]; split; [apply attempt_wf_passed|reflexivity]|].
  all: unfold finalized_as, describes; st_simpl.
  all: rewrite Hstatus, Hdone, Hbugs, Hatts, Hall, Hmem, Hscore, Hb, Hf, Herr.
  all: repeat split; try reflexivity; try apply last_snoc.
  all: eexists _, _, _; cbv zeta; split; [reflexivity|]; split; [exact I|].
  all: eexists; split; [exact Hcalls|]; reflexivity.
Qed.
Lemma unfinished_refl (st : OrchState) : unfinished st st.
Proof. repeat split; intros; first [reflexivity | assumption]. Qed.

Lemma unfinished_trans (a b c : OrchState) :
  unfinished a b -> unfinished b c -> unfinished a c.
Proof.
  intros (H1 & H2 & H3 & H4 & H5) (K1 & K2 & K3 & K4 & K5).
  repeat split; try congruence. intros H. apply K5, H5, H.
Qed.

Lemma same_locals_trans (a b c : OrchState) :
  same_locals a b -> same_locals b c -> same_locals a c.
Proof. intros (H1 & H2 & H3) (K1 & K2 & K3). repeat split; congruence. Qed.

(** A finalization since [b] is one since [a] when nothing was finalized
    between the two. *)
Lemma finalized_since (status : HealingStatus) (o r : string) (a b c : OrchState) :
  unfinished a b -> finalized_as status o r b c -> finalized_as status o r a c.
Proof.
  intros (H1 & H2 & H3 & H4 & H5) (K1 & K2 & K3 & K4 & K5 & K6 & n & commits & elapsed & K7).
  cbv zeta in K7. destruct K7 as (K7 & K8 & K9).
  unfold finalized_as. repeat split; try assumption; try congruence.
  exists n, commits, elapsed. cbv zeta. split; [exact K7|]. split; [exact K8|].
  rewrite <- H1. exact K9.
Qed.

Lemma attemptLoop_effect (env : Env) (o r token : string) (n : nat) (k : Z) (st : OrchState) :
  RepoManager.getBotToken env = Ok token ->
  loop_effect o r k n st (Orchestrator.attemptLoop env o r n k st).
Proof.
  intros Htok. revert k st. induction n as [|n IH]; intros k st.
  - cbn [Orchestrator.attemptLoop]. unfold loop_effect. cbn [fst snd mret M_ret].
    split; [repeat split|]. exists []. rewrite app_nil_r.
    split; [reflexivity|]. split; [cbn; lia|]. split; [intros i a H; discriminate|].
    split; [constructor | apply unfinished_refl].
  - cbn [Orchestrator.attemptLoop]. rewrite bind_eq.
    pose proof (attemptBody_effect env o r token k st Htok) as Hbody.
    destruct (Orchestrator.attemptBody env o r k st) as [[[]|e] st1];
      unfold attempt_effect in Hbody; cbn [fst snd] in Hbody.
    + (* the body ran to its end *)
      destruct Hbody as (Hloc & (a & Hatt & Hwf & Hfailed) & Hun).
      specialize (IH (k + 1) st1). unfold loop_effect in IH |- *.
      destruct (Orchestrator.attemptLoop env o r n (k + 1) st1) as [res st2].
      cbn [fst snd] in IH |- *.
      destruct IH as (Hloc' & recs & Hrecs & Hlen & Hnum & Hend).
      split; [eapply same_locals_trans; eassumption|].
      exists (a :: recs). split; [rewrite Hrecs, Hatt, <- app_assoc; reflexivity|].
      split; [cbn; lia|]. split.
      * intros [|i] b Hb; cbn in Hb.
        -- inversion Hb; subst b. rewrite Z.add_0_r. split; [exact Hwf | intros _; exact Hfailed].
        -- destruct (Hnum i b Hb) as [Hw Hl]. split.
           ++ replace (k + Z.of_nat (S i)) with (k + 1 + Z.of_nat i) by lia. exact Hw.
           ++ intros Hlt. apply Hl. cbn in Hlt. lia.
      * destruct res as [[]|e].
        -- destruct Hend as [Hf Hu]. split; [constructor; assumption|].
           eapply unfinished_trans; eassumption.
        -- destruct Hend as [Hf Hu]. split; [constructor; assumption|].
           eapply unfinished_trans; eassumption.
        -- eapply finalized_since; eassumption.
        -- destruct Hend as [Hf Hu]. split; [constructor; assumption|].
           eapply unfinished_trans; eassumption.
    + (* break *)
      destruct Hbody as (Hloc & Hatt & Hun).
      unfold loop_effect. cbn [fst snd mret M_ret].
      split; [exact Hloc|]. exists []. rewrite app_nil_r.
      split; [exact Hatt|]. split; [cbn; lia|]. split; [intros i a H; discriminate|].
      split; [constructor | exact Hun].
    + (* return *)
      destruct Hbody as (Hloc & (a & Hatt & Hwf & Hpassed) & Hfin).
      unfold loop_effect. cbn [fst snd mret M_ret].
      split; [exact Hloc|]. exists [a].
      split; [exact Hatt|]. split; [cbn; lia|]. split; [|exact Hfin].
      intros [|i] b Hb; cbn in Hb; [|discriminate].
      inversion Hb; subst b. rewrite Z.add_0_r. split; [exact Hwf|].
      cbn. lia.
    + (* an error *)
      destruct Hbody as (Hloc & Hatt & Hun).
      unfold loop_effect. cbn [fst snd].
      split; [exact Hloc|]. exists []. rewrite app_nil_r.
      split; [exact Hatt|]. split; [cbn; lia|]. split; [intros i a H; discriminate|].
      split; [constructor | exact Hun].
Qed.
Lemma finalVerification_effect (env : Env) (o r token : string) (st : OrchState) :
  RepoManager.getBotToken env = Ok token ->
  verification_effect o r st (Orchestrator.finalVerification env o r st).
Proof.
  intros Htok. unfold Orchestrator.finalVerification.
  repeat mcase token Htok.
  all: mrun.
  all: unfold verification_effect, same_locals; cbn [fst snd]; st_simpl.
  - destruct Hpr as (Hcalls & Hstatus & Herr & Hdone & Hscore & Hbugs & Hatts & Hall
                     & Hmem & Hev & (Hd & Hb & Hf)); st_simpl.
    split; [reflexivity|]. split; [repeat split; congruence|]. split; [exact Hmem|].
    exists completed. split; [reflexivity|].
    unfold finalized_as, describes; st_simpl.
    rewrite Hstatus, Hdone, Hbugs, Hatts, Hall, Hmem, Hscore, Hb, Hf, Herr.
    repeat split; try reflexivity; try apply last_snoc.
    eexists _, _, _; cbv zeta; split; [reflexivity|]; split; [exact I|].
    eexists; split; [exact Hcalls|]; reflexivity.
  - destruct Hpr as (Hcalls & Hstatus & Herr & Hdone & Hscore & Hbugs & Hatts & Hall
                     & Hmem & Hev & (Hd & Hb & Hf)); st_simpl.
    split; [reflexivity|]. split; [repeat split; congruence|]. split; [exact Hmem|].
    exists partial_success. split; [reflexivity|].
    unfold finalized_as, describes; st_simpl.
    rewrite Hstatus, Hdone, Hbugs, Hatts, Hall, Hmem, Hscore, Hb, Hf, Herr.
    repeat split; try reflexivity; try apply last_snoc.
    eexists _, _, _; cbv zeta; split; [reflexivity|]; split.
    + apply Z.ltb_lt. eassumption.
    + eexists; split; [exact Hcalls|]; reflexivity.
  - split; [reflexivity|]. split; [repeat split|]. split; [reflexivity|].
    exists failed. split; [reflexivity|].
    unfold finalized_as; st_simpl.
    repeat split; try reflexivity; try apply last_snoc.
    eexists _, _, _; cbv zeta; split; [reflexivity|]; split; [|reflexivity].
    match goal with H : (0 <? ?x) = false |- _ =>
      apply Z.ltb_ge in H; change x with (fixedCount (st_allBugs st)) in H end.
    change (fixedCount (st_allBugs st) = 0).
    pose proof (fixedCount_bounds (st_allBugs st)). lia.
Qed.

(** The [finally] block changes the disk and nothing else. *)
Lemma finallyBlock_frame (input : Orchestrator.OrchestratorInput) (st : OrchState) :
  exists fs', snd (Orchestrator.finallyBlock input st) = with_fs (fun _ => fs') st.
Proof.
  unfold Orchestrator.finallyBlock. destruct (truthy _); cbn [snd].
  - eexists. reflexivity.
  - exists (st_fs st). destruct st. reflexivity.
Qed.

(** An error that reaches the [catch] block before the session is finalized
    ends the session in an error. *)
Lemma caught_error (input : Orchestrator.OrchestratorInput) (e : JsError) (st : OrchState) :
  doc_score (st_doc st) = None ->
  st_prCalls st = [] ->
  doc_error (st_doc st) = None ->
  doc_attempts (st_doc st) = st_attempts st ->
  Forall (fun a => status a = att_failed) (st_attempts st) ->
  let st' := snd (Orchestrator.finallyBlock input (snd (Orchestrator.catchBlock e st))) in
  ended_in_error st' /\ st_attempts st' = st_attempts st.
Proof.
  intros Hscore Hcalls Herr Hstored Hfailed. cbv zeta.
  destruct (finallyBlock_frame input (snd (Orchestrator.catchBlock e st))) as [fs' ->].
  unfold Orchestrator.catchBlock. mrun. cbn [snd]. unfold ended_in_error. st_simpl.
  split; [|reflexivity].
  rewrite Hscore, Hcalls, Herr, Hstored. repeat split; try assumption.
  exists (err_message e). split; [apply last_snoc|].
  destruct (err_message e); reflexivity.
Qed.

Lemma audit_trail_from_one (recs : list HealingAttempt) :
  (forall i a, recs !! i = Some a ->
     attempt_wf (1 + Z.of_nat i) a /\ ((S i < length recs)%nat -> status a = att_failed)) ->
  audit_trail recs.
Proof.
  intros H i a Hi. destruct (H i a Hi) as [Hw Hl]. split; [|exact Hl].
  replace (Z.of_nat (S i)) with (1 + Z.of_nat i) by lia. exact Hw.
Qed.

(** The loop and the final verification, from a state without attempts. *)
Lemma loopAndVerify_effect (env : Env) (o r token : string) (st0 : OrchState) :
  RepoManager.getBotToken env = Ok token ->
  st_attempts st0 = [] ->
  let res := Orchestrator.loopAndVerify env o r st0 in
  let st := snd res in
  same_locals st0 st
  /\ audit_trail (st_attempts st)
  /\ (length (st_attempts st) <= Z.to_nat Orchestrator.MAX_ATTEMPTS)%nat
  /\ match fst res with
     | Throw e => Forall (fun a => status a = att_failed) (st_attempts st)
                  /\ unfinished st0 st
     | Ok _ => exists status, is_final status = true /\ finalized_as status o r st0 st
     end.
Proof.
  intros Htok Hempty. cbv zeta. unfold Orchestrator.loopAndVerify. rewrite bind_eq.
  pose proof (attemptLoop_effect env o r token (Z.to_nat Orchestrator.MAX_ATTEMPTS) 1 st0 Htok)
    as Hloop.
  destruct (Orchestrator.attemptLoop env o r (Z.to_nat Orchestrator.MAX_ATTEMPTS) 1 st0)
    as [res st1].
  unfold loop_effect in Hloop. cbn [fst snd] in Hloop.
  destruct Hloop as (Hloc & recs & Hrecs & Hlen & Hnum & Hend).
  rewrite Hempty in Hrecs. cbn [app] in Hrecs.
  apply audit_trail_from_one in Hnum.
  assert (Hverify : forall c, (c = Next \/ c = Break) -> res = Ok c ->
            let res' := (Orchestrator.finalVerification env o r;; mret Next) st1 in
            same_locals st0 (snd res')
            /\ audit_trail (st_attempts (snd res'))
            /\ (length (st_attempts (snd res')) <= Z.to_nat Orchestrator.MAX_ATTEMPTS)%nat
            /\ match fst res' with
               | Throw e => Forall (fun a => status a = att_failed) (st_attempts (snd res'))
                            /\ unfinished st0 (snd res')
               | Ok _ => exists status,
                           is_final status = true /\ finalized_as status o r st0 (snd res')
               end).
  { intros c Hc ->. cbv zeta. rewrite bind_eq.
    pose proof (finalVerification_effect env o r token st1 Htok) as Hfin.
    destruct (Orchestrator.finalVerification env o r st1) as [res2 st2].
    unfold verification_effect in Hfin. cbn [fst snd] in Hfin.
    destruct Hfin as (-> & Hloc2 & Hatt2 & status & Hfinal & Hfin).
    cbn [fst snd mret M_ret].
    assert (Hun : unfinished st0 st1) by (destruct Hc as [-> | ->]; apply Hend).
    split; [eapply same_locals_trans; eassumption|].
    rewrite Hatt2, Hrecs. split; [exact Hnum|]. split; [exact Hlen|].
    exists status. split; [exact Hfinal|]. eapply finalized_since; eassumption. }
  destruct res as [[]|e]; try (apply Hverify with (c := Next); auto; fail);
    try (apply (Hverify Break); auto; fail).
  - cbn [fst snd mret M_ret]. rewrite Hrecs.
    split; [exact Hloc|]. split; [exact Hnum|]. split; [exact Hlen|].
    exists completed. split; [reflexivity | exact Hend].
  - cbn [fst snd]. rewrite Hrecs.
    split; [exact Hloc|]. split; [exact Hnum|]. split; [exact Hlen|].
    destruct Hend as [Hf Hu]. split; assumption.
Qed.

(** The [try] block, by the way it ends: with an error before anything was
    finalized, by the return after a failed fork, or after a
    finalization. *)
Lemma tryBlock_effect (env : Env) (input : Orchestrator.OrchestratorInput) (fs : FS)
    (o r : string) :
  let res := Orchestrator.tryBlock env input o r (initialState fs) in
  let st := snd res in
  audit_trail (st_attempts st)
  /\ (length (st_attempts st) <= Z.to_nat Orchestrator.MAX_ATTEMPTS)%nat
  /\ doc_attempts (st_doc st) = st_attempts st
  /\ match fst res with
     | Throw e =>
         doc_score (st_doc st) = None /\ st_prCalls st = []
         /\ doc_error (st_doc st) = None
         /\ Forall (fun a => status a = att_failed) (st_attempts st)
     | Ok _ =>
         ended_in_error st
         \/ exists fr,
              RepoManager.forkRepo env o r = Ok fr
              /\ fork_success fr = true
              /\ ended_finalized o r st
              /\ st_branchName st
                 = RepoManager.getHealingBranchName (Orchestrator.teamName input)
                     (Orchestrator.leaderName input)
              /\ st_forkOwner st = forkOwner fr
     end.
Proof.
  assert (Hnone : audit_trail []) by (intros i a H; discriminate).
  cbv zeta. pattern (Orchestrator.tryBlock env input o r (initialState fs)).
  match goal with |- ?Q _ => set (P := Q) end.
  unfold Orchestrator.tryBlock, Orchestrator.cloneRepoM, Orchestrator.afterClone,
    createBranch.
  repeat mcase EmptyString I.
  all: mrun; subst P; cbv beta zeta; cbn [fst snd]; st_simpl.
  all: try solve [split; [exact Hnone|]; cbn; repeat split; try constructor; lia].
  - (* the loop was entered *)
    destruct (forkRepo_token _ _ _ _ Heqe) as [token Htok].
    match type of Heqp0 with
    | Orchestrator.loopAndVerify _ _ _ ?s = _ =>
        pose proof (loopAndVerify_effect env o r token s Htok eq_refl) as Hrun;
        assert (Hentry : unfinished (initialState (st_fs o0)) s)
          by (repeat split; intros; reflexivity)
    end.
    cbv zeta in Hrun. rewrite Heqp0 in Hrun. cbn [fst snd] in Hrun.
    destruct Hrun as ((Hd & Hb & Hf) & Haudit & Hlen & Hend). st_simpl.
    split; [exact Haudit|]. split; [exact Hlen|]. destruct e0 as [c|e1].
    + destruct Hend as (status & Hfinal & Hfin). split; [apply Hfin|].
      right. exists a. repeat split; try assumption.
      exists status. split; [exact Hfinal|]. eapply finalized_since; eassumption.
    + destruct Hend as (Hfailed & Hcalls & Hscore & Hdone & Herr & Hstored).
      st_simpl. split; [apply Hstored; reflexivity|]. repeat split; assumption.
  - (* the fork failed *)
    split; [exact Hnone|]. split; [cbn; lia|]. split; [reflexivity|]. left.
    unfold ended_in_error. st_simpl. cbn [initialState st_attempts st_doc st_prCalls
      st_events newSession doc_attempts doc_score doc_error app].
    repeat split; try constructor.
    eexists. split; reflexivity.
Qed.

Lemma runHealingLoop_outcome (env : Env) (input : Orchestrator.OrchestratorInput) (fs : FS) :
  let st := Orchestrator.runHealingLoop env input fs in
  audit_trail (st_attempts st)
  /\ (length (st_attempts st) <= Z.to_nat Orchestrator.MAX_ATTEMPTS)%nat
  /\ doc_attempts (st_doc st) = st_attempts st
  /\ (ended_in_error st
      \/ exists parsed fr,
           RepoManager.parseGitHubUrl (Orchestrator.repoUrl input) = Ok parsed
           /\ RepoManager.forkRepo env (owner parsed) (repo parsed) = Ok fr
           /\ fork_success fr = true
           /\ ended_finalized (owner parsed) (repo parsed) st
           /\ st_branchName st
              = RepoManager.getHealingBranchName (Orchestrator.teamName input)
                  (Orchestrator.leaderName input)
           /\ st_forkOwner st = forkOwner fr).
Proof.
  cbv zeta. unfold Orchestrator.runHealingLoop.
  assert (Hnone : audit_trail []) by (intros i a H; discriminate).
  destruct (RepoManager.parseGitHubUrl (Orchestrator.repoUrl input)) as [parsed|e] eqn:Hparse.
  2:{ mrun. cbn [snd]. st_simpl. cbn [initialState st_attempts st_doc doc_attempts newSession].
      split; [exact Hnone|]. split; [cbn; lia|]. split; [reflexivity|]. left.
      unfold ended_in_error; st_simpl. cbn.
      repeat split; try constructor.
      exists (err_message e). split; [reflexivity|]. destruct (err_message e); reflexivity. }
  pose proof (tryBlock_effect env input fs (owner parsed) (repo parsed)) as Htry.
  cbv zeta in Htry.
  destruct (Orchestrator.tryBlock env input (owner parsed) (repo parsed) (initialState fs))
    as [res st1].
  cbn [fst snd] in Htry. destruct Htry as (Haudit & Hlen & Hstored & Hend).
  destruct res as [c|e].
  - destruct (finallyBlock_frame input st1) as [fs' ->]. st_simpl.
    split; [exact Haudit|]. split; [exact Hlen|]. split; [exact Hstored|].
    destruct Hend as [Herr | (fr & Hfork & Hsucc & Hfin & Hbranch & Howner)].
    + left. exact Herr.
    + right. exists parsed, fr. repeat split; try assumption.
  - destruct Hend as (Hscore & Hcalls & Herr & Hfailed).
    destruct (caught_error input e st1 Hscore Hcalls Herr Hstored Hfailed) as [Hended Hsame].
    rewrite Hsame. split; [exact Haudit|]. split; [exact Hlen|].
    split; [|left; exact Hended]. destruct Hended as (_ & _ & _ & _ & H & _).
    rewrite H. exact Hsame.
Qed.

(** ** What every session leaves behind *)

(** X1. Every run of the healing loop ends by writing a final status:
    whatever the outside world answers, the last status that the
    orchestrator writes to the session document is [completed],
    [partial_success] or [failed], and a completion time is written with
    it. *)
Theorem session_always_ends (env : Env) (input : Orchestrator.OrchestratorInput) (fs : FS) :
  let doc := st_doc (Orchestrator.runHealingLoop env input fs) in
  is_final (doc_status doc) = true /\ doc_completedAt doc = true.
Proof.
  cbv zeta.
  destruct (runHealingLoop_outcome env input fs) as (_ & _ & _ & Hend). cbv zeta in Hend.
  destruct Hend as [(Hstatus & Hdone & _)
                   | (parsed & fr & _ & _ & _ & (status & Hfinal & Hfin) & _)].
  - rewrite Hstatus, Hdone. split; reflexivity.
  - destruct Hfin as (Hstatus & Hdone & _). rewrite Hstatus, Hdone. split; [exact Hfinal|reflexivity].
Qed.

(** X2. The attempts in the store are an audit trail: at most
    [MAX_ATTEMPTS] records, record [i] is the one of attempt [i], none is
    left running, every attempt before the last one failed, and a record
    carries a commit together with its [[AI-AGENT]] message or neither. *)
Theorem attempts_form_an_audit_trail (env : Env) (input : Orchestrator.OrchestratorInput)
    (fs : FS) :
  let doc := st_doc (Orchestrator.runHealingLoop env input fs) in
  audit_trail (doc_attempts doc)
  /\ Z.of_nat (length (doc_attempts doc)) <= Orchestrator.MAX_ATTEMPTS.
Proof.
  cbv zeta.
  destruct (runHealingLoop_outcome env input fs) as (Haudit & Hlen & Hstored & _).
  cbv zeta in *. rewrite Hstored. split; [exact Haudit|].
  unfold Orchestrator.MAX_ATTEMPTS in *. lia.
Qed.

(** X3. A pull request is requested at most once in a session, exactly when
    the session ends as [completed] or [partial_success]; the request names
    the parsed repository, the healing branch and the numbers of the score
    in the store. *)
Theorem pull_request_follows_the_outcome (env : Env)
    (input : Orchestrator.OrchestratorInput) (fs : FS) :
  let st := Orchestrator.runHealingLoop env input fs in
  let doc := st_doc st in
  (doc_status doc = failed /\ st_prCalls st = [])
  \/ ((doc_status doc = completed \/ doc_status doc = partial_success)
      /\ exists parsed s,
           RepoManager.parseGitHubUrl (Orchestrator.repoUrl input) = Ok parsed
           /\ doc_score doc = Some s
           /\ st_prCalls st
              = [mkPrCall (owner parsed) (repo parsed)
                   (RepoManager.getHealingBranchName (Orchestrator.teamName input)
                      (Orchestrator.leaderName input))
                   (st_forkOwner st) (bugsFixed s) (totalBugs s) (attempts s)
                   (finalScore s)]).
Proof.
  cbv zeta.
  destruct (runHealingLoop_outcome env input fs) as (_ & _ & _ & Hend). cbv zeta in Hend.
  destruct Hend as [(Hstatus & _ & _ & Hcalls & _)
                   | (parsed & fr & Hparse & _ & _ & (status & Hfinal & Hfin) & Hbranch & _)].
  - left. split; assumption.
  - destruct Hfin as (Hstatus & _ & _ & _ & _ & _ & n & commits & elapsed & Hscore).
    cbv zeta in Hscore. destruct Hscore as (Hscore & _ & Hcalls).
    destruct status; try discriminate Hfinal.
    + right. split; [left; exact Hstatus|].
      destruct Hcalls as (c & Hcalls & Hc). unfold describes in Hc.
      eexists parsed, _. split; [exact Hparse|]. split; [exact Hscore|].
      rewrite Hcalls, Hc, Hbranch. reflexivity.
    + right. split; [right; exact Hstatus|].
      destruct Hcalls as (c & Hcalls & Hc). unfold describes in Hc.
      eexists parsed, _. split; [exact Hparse|]. split; [exact Hscore|].
      rewrite Hcalls, Hc, Hbranch. reflexivity.
    + left. split; [exact Hstatus | exact Hcalls].
Qed.

(** X4. The score that the orchestrator writes belongs to the bug list it
    writes with it: the score counts the bugs of that list and the fixed
    ones among them, and the status written is the one the score stands
    for. When a run writes no score, the status it writes is [failed]. *)
Theorem stored_score_matches_the_store (env : Env)
    (input : Orchestrator.OrchestratorInput) (fs : FS) :
  let doc := st_doc (Orchestrator.runHealingLoop env input fs) in
  match doc_score doc with
  | Some s =>
      totalBugs s = Z.of_nat (length (doc_bugs doc))
      /\ bugsFixed s = fixedCount (doc_bugs doc)
      /\ doc_status doc
         = (if testsPassed s then completed
            else if 0 <? bugsFixed s then partial_success else failed)
  | None => doc_status doc = failed
  end.
Proof.
  cbv zeta.
  destruct (runHealingLoop_outcome env input fs) as (_ & _ & _ & Hend). cbv zeta in Hend.
  destruct Hend as [(Hstatus & _ & Hscore & _)
                   | (parsed & fr & _ & _ & _ & (status & Hfinal & Hfin) & _)].
  - rewrite Hscore. exact Hstatus.
  - destruct Hfin as (Hstatus & _ & Hbugs & _ & _ & _ & n & commits & elapsed & Hscore).
    cbv zeta in Hscore. destruct Hscore as (Hscore & Hfixed & _).
    rewrite Hscore, Hbugs, Hstatus.
    split; [reflexivity|]. split; [reflexivity|].
    destruct status; try discriminate Hfinal; cbn [testsPassed calculateScore].
    + reflexivity.
    + apply Z.ltb_lt in Hfixed. rewrite Hfixed. reflexivity.
    + rewrite Hfixed. reflexivity.
Qed.

(** X5. Of the status, score and error events of a run (log lines and the
    other events apart), the last one sent tells how the session ended: it
    is the status event of the status written last, or it is an error
    event, and then the status written is [failed], no score is written and
    no pull request requested, and the message of the error is written
    unless it is empty. *)
Theorem last_event_tells_the_outcome (env : Env)
    (input : Orchestrator.OrchestratorInput) (fs : FS) :
  let st := Orchestrator.runHealingLoop env input fs in
  let doc := st_doc st in
  last (st_events st) = Some (EStatus (doc_status doc))
  \/ exists msg,
       last (st_events st) = Some (EError msg)
       /\ doc_status doc = failed
       /\ doc_score doc = None
       /\ st_prCalls st = []
       /\ doc_error doc = (if String.eqb msg EmptyString then None else Some msg).
Proof.
  cbv zeta.
  destruct (runHealingLoop_outcome env input fs) as (_ & _ & _ & Hend). cbv zeta in Hend.
  destruct Hend as [(Hstatus & _ & Hscore & Hcalls & _ & _ & msg & Hlast & Herr)
                   | (parsed & fr & _ & _ & _ & (status & Hfinal & Hfin) & _)].
  - right. exists msg. repeat split; try assumption.
    rewrite Herr. destruct msg; reflexivity.
  - left. destruct Hfin as (Hstatus & _ & _ & _ & _ & Hlast & _).
    rewrite Hstatus. exact Hlast.
Qed.

(** ** Sessions that fail before the loop *)

Lemma parseGitHubUrl_rejects (url : string) :
  includes "github.com/" url = false ->
  RepoManager.parseGitHubUrl url = Throw (mkError ("Invalid GitHub URL: " ++ url)).
Proof.
  intros H. unfold RepoManager.parseGitHubUrl, RepoManager.patterns.
  cbn [RepoManager.first_match rseq foldr].
  rewrite !rexec_without_literal by exact H. reflexivity.
Qed.

(** X6. A repository URL in which [github.com/] does not occur fails the
    session before anything else happens: the result does not depend on the
    outside world, the disk is untouched, the store has the status [failed]
    with the message [Invalid GitHub URL: <url>], and the only event is that
    error. *)
Theorem invalid_url_fails_at_once (env : Env) (input : Orchestrator.OrchestratorInput)
    (fs : FS) :
  includes "github.com/" (Orchestrator.repoUrl input) = false ->
  let msg := "Invalid GitHub URL: " ++ Orchestrator.repoUrl input in
  Orchestrator.runHealingLoop env input fs
  = {| st_fs := fs;
       st_doc := mkSessionDoc failed (Some msg) true 0 None [] [] None None None;
       st_prCalls := [];
       st_events := [EError msg];
       st_allBugs := [];
       st_attempts := [];
       st_repoDir := EmptyString;
       st_branchName := EmptyString;
       st_forkOwner := EmptyString;
       st_forkRepoName := EmptyString;
       st_useFork := false |}.
Proof.
  intros H. cbv zeta. unfold Orchestrator.runHealingLoop.
  rewrite (parseGitHubUrl_rejects _ H). reflexivity.
Qed.

Lemma invalid_url_fails_at_once_witness :
  doc_error (st_doc (Orchestrator.runHealingLoop Samples.healthy
                       (Orchestrator.mkInput "s1" "https://gitlab.com/o/r" "u" "t" "l") ∅))
  = Some "Invalid GitHub URL: https://gitlab.com/o/r".
Proof.
  rewrite (invalid_url_fails_at_once Samples.healthy
             (Orchestrator.mkInput "s1" "https://gitlab.com/o/r" "u" "t" "l") ∅ eq_refl).
  reflexivity.
Defined.

(** X7. When the fork fails, the session fails without touching the disk:
    nothing is cloned, no attempt is made and no pull request is requested;
    the stored error names the repository, the reason the fork gave and the
    bot's user name. *)
Theorem fork_failure_fails_the_session (env : Env)
    (input : Orchestrator.OrchestratorInput) (fs : FS) (parsed : RepoRef) (fr : ForkResult) :
  RepoManager.parseGitHubUrl (Orchestrator.repoUrl input) = Ok parsed ->
  RepoManager.forkRepo env (owner parsed) (repo parsed) = Ok fr ->
  fork_success fr = false ->
  exists botUser,
    RepoManager.getBotUsername env = Ok botUser
    /\ let msg :=
         "Cannot fork " ++ owner parsed ++ "/" ++ repo parsed ++ ": "
         ++ default "undefined" (fork_error fr) ++ ". "
         ++ "Bot: " ++ botUser
         ++ ". Ensure the bot token has 'public_repo' or 'repo' scope." in
       Orchestrator.runHealingLoop env input fs
       = {| st_fs := fs;
            st_doc := mkSessionDoc failed (Some msg) true 0 None [] [] None None None;
            st_prCalls := [];
            st_events := [EStatus cloning; EError msg];
            st_allBugs := [];
            st_attempts := [];
            st_repoDir := EmptyString;
            st_branchName := EmptyString;
            st_forkOwner := EmptyString;
            st_forkRepoName := EmptyString;
            st_useFork := false |}.
Proof.
  intros Hparse Hfork Hfail.
  destruct (forkRepo_token _ _ _ _ Hfork) as [token Htok].
  unfold RepoManager.getBotUsername. rewrite Htok. cbn [mbind Exc_bind].
  eexists. split; [reflexivity|]. cbv zeta.
  unfold Orchestrator.runHealingLoop. rewrite Hparse.
  unfold Orchestrator.tryBlock. mrun. rewrite Hfork. mrun. rewrite Hfail. mrun.
  unfold RepoManager.getBotUsername. rewrite Htok. cbn [mbind Exc_bind]. mrun.
  rewrite !append_cons. cbn [truthy]. reflexivity.
Qed.

Lemma fork_failure_fails_the_session_witness :
  doc_status (st_doc (Orchestrator.runHealingLoop Samples.forkForbidden Samples_input ∅))
  = failed
  /\ st_fs (Orchestrator.runHealingLoop Samples.forkForbidden Samples_input ∅) = ∅.
Proof.
  destruct (fork_failure_fails_the_session Samples.forkForbidden Samples_input ∅
              {| owner := "octocat"; repo := "hello-world" |}
              (RepoManager.forkLoop Samples.forkForbidden "octocat" "hello-world" 2 1)
              ltac:(vm_compute; reflexivity) ltac:(vm_compute; reflexivity)
              ltac:(vm_compute; reflexivity)) as (botUser & _ & ->).
  split; reflexivity.
Defined.

(** ** A clone that fails *)

Lemma prefix_length (a b : string) :
  String.prefix a b = true -> (String.length a <= String.length b)%nat.
Proof.
  revert b. induction a as [|c a IH]; intros b H; cbn; [lia|].
  destruct b as [|d b]; cbn in H; [discriminate|].
  destruct (Ascii.ascii_dec c d); [|discriminate].
  apply IH in H. cbn. lia.
Qed.

Lemma under_length (d p : string) :
  under d p = true -> (String.length d <= String.length p)%nat.
Proof.
  unfold under. intros H. apply orb_prop in H as [H|H].
  - apply String.eqb_eq in H. subst. lia.
  - apply prefix_length in H. rewrite length_append in H. lia.
Qed.

(** The sandbox base is not inside the sandbox of a session. *)
Lemma base_outside_sandbox (sessionId : string) :
  under (RepoManager.getSandboxDir sessionId) RepoManager.SANDBOX_BASE = false.
Proof.
  destruct (under _ _) eqn:E; [|reflexivity].
  apply under_length in E. unfold RepoManager.getSandboxDir in E.
  rewrite !length_append in E. cbn in E. lia.
Qed.

(** [cloneRepo] when git fails: the error carries git's message. *)
Lemma cloneRepo_clone_throws (env : Env) (repoUrl sessionId : string)
    (forkOwner forkRepoName : option string) (fs : FS) (token : string) (parsed : RepoRef)
    (e : JsError) :
  RepoManager.getBotToken env = Ok token ->
  RepoManager.parseGitHubUrl repoUrl = Ok parsed ->
  gitClone env = Throw e ->
  fst (cloneRepo env repoUrl sessionId forkOwner forkRepoName fs)
  = Throw (mkError ("Failed to clone repository: " ++ err_message e)).
Proof.
  intros Htok Hparse Hclone. unfold cloneRepo.
  set (fs1 := if negb _ then _ else fs).
  destruct (existsSync (RepoManager.getSandboxDir sessionId) fs1) eqn:E.
  - unfold rmSync. rewrite E, andb_false_r, Htok, Hparse, Hclone. cbn [mbind Exc_bind].
    destruct (truthy forkOwner && truthy forkRepoName); reflexivity.
  - rewrite Htok, Hparse, Hclone. cbn [mbind Exc_bind].
    destruct (truthy forkOwner && truthy forkRepoName); reflexivity.
Qed.

(** X8. When git cannot clone the fork, the session fails with the message
    [Failed to clone repository: <git's message>] and makes no attempt and
    no pull request. [repoDir] is never assigned, so the [finally] block
    does not call [cleanupSandbox]: the disk stays as [cloneRepo] left
    it. *)
Theorem clone_failure_fails_the_session (env : Env)
    (input : Orchestrator.OrchestratorInput) (fs : FS) (parsed : RepoRef) (fr : ForkResult)
    (e : JsError) :
  RepoManager.parseGitHubUrl (Orchestrator.repoUrl input) = Ok parsed ->
  RepoManager.forkRepo env (owner parsed) (repo parsed) = Ok fr ->
  fork_success fr = true ->
  gitClone env = Throw e ->
  let st := Orchestrator.runHealingLoop env input fs in
  let msg := "Failed to clone repository: " ++ err_message e in
  doc_status (st_doc st) = failed
  /\ doc_error (st_doc st) = Some msg
  /\ last (st_events st) = Some (EError msg)
  /\ st_attempts st = [] /\ st_prCalls st = []
  /\ doc_branchName (st_doc st) = None
  /\ st_repoDir st = EmptyString
  /\ st_fs st
     = snd (cloneRepo env (Orchestrator.repoUrl input) (Orchestrator.sessionId input)
              (Some (forkOwner fr)) (Some (forkRepo_ fr)) fs).
Proof.
  intros Hparse Hfork Hsucc Hclone. cbv zeta.
  destruct (forkRepo_token _ _ _ _ Hfork) as [token Htok].
  pose proof (cloneRepo_clone_throws env (Orchestrator.repoUrl input)
                (Orchestrator.sessionId input) (Some (forkOwner fr)) (Some (forkRepo_ fr))
                fs token parsed e Htok Hparse Hclone) as Hres.
  unfold Orchestrator.runHealingLoop. rewrite Hparse.
  unfold Orchestrator.tryBlock. mrun. rewrite Hfork. mrun. rewrite Hsucc. mrun.
  unfold Orchestrator.cloneRepoM. mrun. cbn [initialState st_fs].
  destruct (cloneRepo env (Orchestrator.repoUrl input) (Orchestrator.sessionId input)
              (Some (forkOwner fr)) (Some (forkRepo_ fr)) fs) as [res fs'].
  cbn [fst snd] in Hres |- *. subst res. mrun.
  unfold Orchestrator.catchBlock, Orchestrator.finallyBlock. mrun.
  cbn [err_message snd initialState st_repoDir with_fs with_doc with_events with_fork truthy].
  st_simpl. cbn [newSession doc_branchName]. rewrite !append_cons. cbn [truthy].
  repeat split.
Qed.

Lemma clone_failure_fails_the_session_witness :
  doc_error (st_doc (Orchestrator.runHealingLoop
                       (mkEnv (Some "ghp_token") (fun _ => Ok Samples.forkCreated) []
                          (fun _ => Ok Samples.prCreated) (Ok Samples.prFound)
                          (Throw (mkError "offline"))
                          (Throw (mkError "fatal: repository not found")) []
                          (Ok tt) "main" (fun _ => Ok None) (fun _ => Ok tt) (fun _ => 0)
                          None (fun _ => Samples.failing) (fun _ => Ok [])
                          (fun _ _ => Ok (mkFixAllResult [] 0 0)) (fun _ _ => "id")
                          (fun _ _ => false) (fun _ => 1%Q))
                       Samples_input ∅))
  = Some "Failed to clone repository: fatal: repository not found".
Proof.
  refine (proj1 (proj2 (clone_failure_fails_the_session _ Samples_input ∅
            {| owner := "octocat"; repo := "hello-world" |} Samples_fork
            (mkError "fatal: repository not found") _ _ _ _))).
  - vm_compute; reflexivity.
  - vm_compute; reflexivity.
  - reflexivity.
  - reflexivity.
Defined.

(** ** Pushes that fail *)

Lemma cloneRepoNoRetry_ok (env : Env) (repoUrl sessionId : string)
    (forkOwner forkRepoName : option string) (fs : FS) (token : string) (parsed : RepoRef) :
  RepoManagerNoRetry.getBotToken env = Ok token ->
  RepoManagerNoRetry.parseGitHubUrl repoUrl = Ok parsed ->
  gitClone env = Ok tt ->
  fst (cloneRepoNoRetry env repoUrl sessionId forkOwner forkRepoName fs)
  = Ok (RepoManagerNoRetry.getSandboxDir sessionId).
Proof.
  intros Htok Hparse Hclone. unfold cloneRepoNoRetry.
  set (fs1 := if negb _ then _ else fs).
  destruct (existsSync (RepoManagerNoRetry.getSandboxDir sessionId) fs1) eqn:E.
  - unfold rmSync. rewrite E. rewrite andb_false_r.
    rewrite Htok, Hparse, Hclone. cbn [mbind Exc_bind].
    destruct (truthy forkOwner && truthy forkRepoName); reflexivity.
  - rewrite Htok, Hparse, Hclone. cbn [mbind Exc_bind].
    destruct (truthy forkOwner && truthy forkRepoName); reflexivity.
Qed.

(** The attempt of the fallback revision in which the push fails: the error
    leaves the loop before the attempt is put on record. *)
Lemma fallback_attemptBody_push_fails (env : Env) (o r : string) (n : Z) (st : OrchState)
    (bugs : list HealingBug) (fixResult : FixAllResult) (sha : string) (e : JsError) :
  passed (testRun env n) = false ->
  scanForBugs env n = Ok bugs ->
  (forall l, fixAllBugs env n l = Ok fixResult) ->
  gitCommit env n = Ok (Some sha) ->
  sha <> EmptyString ->
  gitPush env n = Throw e ->
  exists st',
    OrchestratorFallback.attemptBody env o r n st
    = (Throw (mkError ("Failed to push: " ++ err_message e)), st')
    /\ st_attempts st' = st_attempts st
    /\ st_prCalls st' = st_prCalls st
    /\ doc_score (st_doc st') = doc_score (st_doc st)
    /\ doc_error (st_doc st') = doc_error (st_doc st)
    /\ st_events st'
       = (st_events st ++ [EStatus scanning; EStatus testing; EStatus scanning;
                           EStatus fixing; EStatus pushing])%list
    /\ st_repoDir st' = st_repoDir st
    /\ st_fs st' = st_fs st.
Proof.
  intros Hfail Hscan Hfix Hcommit Hsha Hpush.
  unfold OrchestratorFallback.attemptBody. mrun. rewrite Hfail. mrun.
  rewrite Hscan. mrun.
  destruct (OrchestratorFallback.trackNew bugs (st_allBugs st) []) as [allBugs newBugs].
  mrun. rewrite Hfix. mrun.
  unfold commitChanges. rewrite Hcommit. mrun.
  destruct sha as [|c sha]; [congruence|]. cbn [truthy].
  unfold pushBranch. rewrite Hpush. mrun.
  eexists. split; [reflexivity|]. st_simpl.
  rewrite <- !app_assoc. repeat split.
Qed.

Lemma fallback_tryBlock_push_fails (env : Env)
    (input : OrchestratorFallback.OrchestratorInput) (fs : FS) (parsed : RepoRef)
    (token : string) (bugs : list HealingBug) (fixResult : FixAllResult) (sha : string)
    (e : JsError) :
  RepoManagerNoRetry.parseGitHubUrl (OrchestratorFallback.repoUrl input) = Ok parsed ->
  RepoManagerNoRetry.getBotToken env = Ok token ->
  gitClone env = Ok tt ->
  gitCheckout env = Ok tt ->
  passed (testRun env 1) = false ->
  scanForBugs env 1 = Ok bugs ->
  (forall l, fixAllBugs env 1 l = Ok fixResult) ->
  gitCommit env 1 = Ok (Some sha) ->
  sha <> EmptyString ->
  gitPush env 1 = Throw e ->
  exists st1,
    OrchestratorFallback.tryBlock env input (owner parsed) (repo parsed) (initialState fs)
    = (Throw (mkError ("Failed to push: " ++ err_message e)), st1)
    /\ st_attempts st1 = [] /\ st_prCalls st1 = []
    /\ doc_score (st_doc st1) = None.
Proof.
  intros Hparse Htok Hclone Hcheckout Hfail Hscan Hfix Hcommit Hsha Hpush.
  unfold OrchestratorFallback.tryBlock. mrun.
  unfold RepoManagerNoRetry.forkRepo. rewrite Htok. cbn [mbind Exc_bind]. mrun.
  destruct (fork_success _); mrun; unfold OrchestratorFallback.cloneRepoM; mrun.
  all: match goal with
       | |- context [cloneRepoNoRetry ?en ?u ?s ?a ?b ?f] =>
           pose proof (cloneRepoNoRetry_ok en u s a b f token parsed Htok Hparse Hclone)
             as Hdir;
           destruct (cloneRepoNoRetry en u s a b f) as [res fs']
       end.
  all: cbn [fst] in Hdir; subst res.
  all: unfold OrchestratorFallback.afterClone, OrchestratorFallback.loopAndVerify.
  all: mrun; unfold createBranch; rewrite Hcheckout; mrun.
  all: change (Z.to_nat OrchestratorFallback.MAX_ATTEMPTS) with 5%nat.
  all: cbn [OrchestratorFallback.attemptLoop]; rewrite bind_eq.
  all: match goal with
       | |- context [OrchestratorFallback.attemptBody ?en ?o ?r 1 ?s] =>
           destruct (fallback_attemptBody_push_fails en o r 1 s bugs fixResult sha e
                       Hfail Hscan Hfix Hcommit Hsha Hpush)
             as (st1 & -> & H1 & H2 & H3 & _)
       end.
  all: st_simpl; exists st1; (split; [reflexivity|]); repeat split; assumption.
Qed.

(** X9. In the revision that falls back to the original repository the
    push is not guarded: when the first attempt commits and the push fails,
    the session ends as [failed] with [Failed to push: <git's message>],
    without a record of the attempt, without a score and without a pull
    request. *)
Theorem fallback_push_failure_is_fatal (env : Env)
    (input : OrchestratorFallback.OrchestratorInput) (fs : FS) (parsed : RepoRef)
    (token : string) (bugs : list HealingBug) (fixResult : FixAllResult) (sha : string)
    (e : JsError) :
  RepoManagerNoRetry.parseGitHubUrl (OrchestratorFallback.repoUrl input) = Ok parsed ->
  RepoManagerNoRetry.getBotToken env = Ok token ->
  gitClone env = Ok tt ->
  gitCheckout env = Ok tt ->
  passed (testRun env 1) = false ->
  scanForBugs env 1 = Ok bugs ->
  (forall l, fixAllBugs env 1 l = Ok fixResult) ->
  gitCommit env 1 = Ok (Some sha) ->
  sha <> EmptyString ->
  gitPush env 1 = Throw e ->
  let st := OrchestratorFallback.runHealingLoop env input fs in
  doc_status (st_doc st) = failed
  /\ doc_error (st_doc st) = Some ("Failed to push: " ++ err_message e)
  /\ last (st_events st) = Some (EError ("Failed to push: " ++ err_message e))
  /\ st_attempts st = []
  /\ doc_score (st_doc st) = None
  /\ st_prCalls st = [].
Proof.
  intros Hparse Htok Hclone Hcheckout Hfail Hscan Hfix Hcommit Hsha Hpush. cbv zeta.
  unfold OrchestratorFallback.runHealingLoop. rewrite Hparse.
  destruct (fallback_tryBlock_push_fails env input fs parsed token bugs fixResult sha e
              Hparse Htok Hclone Hcheckout Hfail Hscan Hfix Hcommit Hsha Hpush)
    as (st1 & -> & Ha & Hc & Hs).
  unfold OrchestratorFallback.catchBlock, OrchestratorFallback.finallyBlock. mrun.
  cbn [err_message snd]. st_simpl.
  destruct (truthy (Some (st_repoDir st1))); cbn [snd]; st_simpl.
  all: rewrite !append_cons; cbn [truthy].
  all: repeat split; try assumption; apply last_snoc.
Qed.

Lemma fallback_push_failure_is_fatal_witness :
  doc_error (st_doc (OrchestratorFallback.runHealingLoop
                       (with_gitPush (fun _ => Throw (mkError "remote: Permission denied"))
                          Samples_hopeless)
                       (OrchestratorFallback.mkInput "s1"
                          "https://github.com/octocat/hello-world" "user-1") ∅))
  = Some "Failed to push: remote: Permission denied".
Proof.
  refine (proj1 (proj2 (fallback_push_failure_is_fatal _
            (OrchestratorFallback.mkInput "s1" "https://github.com/octocat/hello-world"
               "user-1") ∅
            {| owner := "octocat"; repo := "hello-world" |} "ghp_token"
            [Samples.bugAt "bug-1" "src/calc.js" 11] (mkFixAllResult [] 0 0)
            "0123456789abcdef" (mkError "remote: Permission denied")
            _ _ _ _ _ _ _ _ _ _))).
  - vm_compute; reflexivity.
  - reflexivity.
  - reflexivity.
  - reflexivity.
  - reflexivity.
  - vm_compute; reflexivity.
  - intros l. reflexivity.
  - reflexivity.
  - discriminate.
  - reflexivity.
Defined.

(** ** The final verification in the two revisions *)

(** The [try] block of the revision that falls back to the original
    repository enters the loop, whatever the fork request did. *)
Lemma fallback_tryBlock_reaches_loop (env : Env)
    (input : OrchestratorFallback.OrchestratorInput) (fs : FS) (parsed : RepoRef)
    (token : string) :
  RepoManagerNoRetry.parseGitHubUrl (OrchestratorFallback.repoUrl input) = Ok parsed ->
  RepoManagerNoRetry.getBotToken env = Ok token ->
  gitClone env = Ok tt ->
  gitCheckout env = Ok tt ->
  exists st0,
    OrchestratorFallback.tryBlock env input (owner parsed) (repo parsed) (initialState fs)
    = OrchestratorFallback.loopAndVerify env (owner parsed) (repo parsed) st0
    /\ st_allBugs st0 = [] /\ st_attempts st0 = [] /\ st_prCalls st0 = []
    /\ doc_score (st_doc st0) = None.
Proof.
  intros Hparse Htok Hclone Hcheckout.
  unfold OrchestratorFallback.tryBlock. mrun.
  unfold RepoManagerNoRetry.forkRepo. rewrite Htok. cbn [mbind Exc_bind]. mrun.
  destruct (fork_success _); mrun; unfold OrchestratorFallback.cloneRepoM; mrun.
  all: match goal with
       | |- context [cloneRepoNoRetry ?en ?u ?s ?a ?b ?f] =>
           pose proof (cloneRepoNoRetry_ok en u s a b f token parsed Htok Hparse Hclone)
             as Hdir;
           destruct (cloneRepoNoRetry en u s a b f) as [res fs']
       end.
  all: cbn [fst] in Hdir; subst res.
  all: unfold OrchestratorFallback.afterClone.
  all: mrun; unfold createBranch; rewrite Hcheckout; mrun.
  all: eexists; split; [reflexivity|]; repeat split.
Qed.

(** The final verification of that revision and the pull request it asks
    for: the head of the request is the fork's owner when the fork is used,
    and the owner of the repository otherwise. *)
Lemma fallback_finalVerification_outcome (env : Env) (o r token : string) (st : OrchState) :
  RepoManagerNoRetry.getBotToken env = Ok token ->
  let finalTest := testRun env (OrchestratorFallback.MAX_ATTEMPTS + 1) in
  let score :=
    calculateScore (st_allBugs st) (passed finalTest) OrchestratorFallback.MAX_ATTEMPTS
      (gitCommitCount env (OrchestratorFallback.MAX_ATTEMPTS + 1))
      (elapsedSeconds env (OrchestratorFallback.MAX_ATTEMPTS + 1)) in
  let request :=
    mkPrCall o r (st_branchName st) (if st_useFork st then st_forkOwner st else o)
      (bugsFixed score) (totalBugs score) OrchestratorFallback.MAX_ATTEMPTS
      (finalScore score) in
  exists st',
    OrchestratorFallback.finalVerification env o r st = (Ok tt, st')
    /\ doc_status (st_doc st') = (if passed finalTest then completed else failed)
    /\ doc_score (st_doc st') = Some score
    /\ st_prCalls st'
       = (st_prCalls st
          ++ (if passed finalTest || (0 <? bugsFixed score) then [request] else []))%list
    /\ st_repoDir st' = st_repoDir st.
Proof.
  intros Htok. cbv zeta. unfold OrchestratorFallback.finalVerification. mrun.
  assert (Hpr : forall a b c d st0,
             exists st1,
               OrchestratorFallback.createPR env o r a b c d st0 = (Ok tt, st1)
               /\ doc_status (st_doc st1) = doc_status (st_doc st0)
               /\ doc_score (st_doc st1) = doc_score (st_doc st0)
               /\ st_prCalls st1
                  = (st_prCalls st0
                     ++ [mkPrCall o r (st_branchName st0)
                           (if st_useFork st0 then st_forkOwner st0 else o) a b c d])%list
               /\ st_repoDir st1 = st_repoDir st0).
  { intros a b c d st0. unfold OrchestratorFallback.createPR. mrun.
    unfold RepoManagerNoRetry.createPullRequest. rewrite Htok. cbn [mbind Exc_bind].
    destruct (pr_success _); mrun; eexists; (split; [reflexivity|]); st_simpl;
      repeat split. }
  destruct (passed (testRun env (OrchestratorFallback.MAX_ATTEMPTS + 1))) eqn:Hp.
  - mrun.
    match goal with
    | |- context [OrchestratorFallback.createPR _ _ _ ?a ?b ?c ?d ?s] =>
        destruct (Hpr a b c d s) as (st1 & -> & Hstatus & Hscore & Hcalls & Hdir)
    end.
    mrun. eexists. split; [reflexivity|]. st_simpl.
    rewrite Hstatus, Hscore, Hcalls, Hdir. st_simpl. repeat split.
  - mrun. destruct (0 <? bugsFixed _) eqn:Hfixed.
    + match goal with
      | |- context [OrchestratorFallback.createPR _ _ _ ?a ?b ?c ?d ?s] =>
          destruct (Hpr a b c d s) as (st1 & -> & Hstatus & Hscore & Hcalls & Hdir)
      end.
      mrun. eexists. split; [reflexivity|]. st_simpl.
      rewrite Hstatus, Hscore, Hcalls, Hdir. st_simpl. repeat split.
    + mrun. eexists. split; [reflexivity|]. st_simpl.
      repeat split. now rewrite app_nil_r.
Qed.

(** C3, as amended. When the loop of the attempts is left at its end or by
    a [break], the final run of the tests decides how the session is
    finalized. In the revision with the session timeout: completed when the
    run passes, with the pull request requested; otherwise partial_success
    when a bug is marked fixed, again with the pull request requested;
    otherwise failed, with no pull request requested. In the revision that
    falls back to the original repository the same holds with failed in the
    place of partial_success: a session whose final run fails is finalized as
    failed whether or not a bug is marked fixed, and the pull request is
    still requested when one is. The score that is stored is computed from
    the bugs at that time. *)
Theorem final_verification_decides :
  (forall (env : Env) (input : Orchestrator.OrchestratorInput) (fs : FS)
          (parsed : RepoRef) (fr : ForkResult) (st1 : OrchState),
      RepoManager.parseGitHubUrl (Orchestrator.repoUrl input) = Ok parsed ->
      RepoManager.forkRepo env (owner parsed) (repo parsed) = Ok fr ->
      fork_success fr = true ->
      gitClone env = Ok tt ->
      gitCheckout env = Ok tt ->
      Orchestrator.attemptLoop env (owner parsed) (repo parsed)
        (Z.to_nat Orchestrator.MAX_ATTEMPTS) 1 (loopEntry env input fr fs) = (Ok Next, st1) ->
      let res := Orchestrator.runHealingLoop env input fs in
      let finalTest := testRun env (Orchestrator.MAX_ATTEMPTS + 1) in
      let score :=
        calculateScore (st_allBugs st1) (passed finalTest) Orchestrator.MAX_ATTEMPTS
          (gitCommitCount env (Orchestrator.MAX_ATTEMPTS + 1))
          (elapsedSeconds env (Orchestrator.MAX_ATTEMPTS + 1)) in
      let request :=
        mkPrCall (owner parsed) (repo parsed) (st_branchName st1) (st_forkOwner st1)
          (bugsFixed score) (totalBugs score) Orchestrator.MAX_ATTEMPTS (finalScore score) in
      doc_score (st_doc res) = Some score
      /\ bugsFixed score = fixedCount (st_allBugs st1)
      /\ (passed finalTest = true ->
          doc_status (st_doc res) = completed
          /\ st_prCalls res = (st_prCalls st1 ++ [request])%list)
      /\ (passed finalTest = false -> 0 < fixedCount (st_allBugs st1) ->
          doc_status (st_doc res) = partial_success
          /\ st_prCalls res = (st_prCalls st1 ++ [request])%list)
      /\ (passed finalTest = false -> fixedCount (st_allBugs st1) = 0 ->
          doc_status (st_doc res) = failed
          /\ st_prCalls res = st_prCalls st1))
  /\ (forall (env : Env) (input : OrchestratorFallback.OrchestratorInput) (fs : FS)
             (parsed : RepoRef) (token : string),
      RepoManagerNoRetry.parseGitHubUrl (OrchestratorFallback.repoUrl input) = Ok parsed ->
      RepoManagerNoRetry.getBotToken env = Ok token ->
      gitClone env = Ok tt ->
      gitCheckout env = Ok tt ->
      exists st0 : OrchState,
        OrchestratorFallback.tryBlock env input (owner parsed) (repo parsed) (initialState fs)
        = OrchestratorFallback.loopAndVerify env (owner parsed) (repo parsed) st0
        /\ forall st1 : OrchState,
             OrchestratorFallback.attemptLoop env (owner parsed) (repo parsed)
               (Z.to_nat OrchestratorFallback.MAX_ATTEMPTS) 1 st0 = (Ok Next, st1) ->
             let res := OrchestratorFallback.runHealingLoop env input fs in
             let finalTest := testRun env (OrchestratorFallback.MAX_ATTEMPTS + 1) in
             let score :=
               calculateScore (st_allBugs st1) (passed finalTest)
                 OrchestratorFallback.MAX_ATTEMPTS
                 (gitCommitCount env (OrchestratorFallback.MAX_ATTEMPTS + 1))
                 (elapsedSeconds env (OrchestratorFallback.MAX_ATTEMPTS + 1)) in
             let request :=
               mkPrCall (owner parsed) (repo parsed) (st_branchName st1)
                 (if st_useFork st1 then st_forkOwner st1 else owner parsed)
                 (bugsFixed score) (totalBugs score) OrchestratorFallback.MAX_ATTEMPTS
                 (finalScore score) in
             doc_score (st_doc res) = Some score
             /\ bugsFixed score = fixedCount (st_allBugs st1)
             /\ (passed finalTest = true ->
                 doc_status (st_doc res) = completed
                 /\ st_prCalls res = (st_prCalls st1 ++ [request])%list)
             /\ (passed finalTest = false -> 0 < fixedCount (st_allBugs st1) ->
                 doc_status (st_doc res) = failed
                 /\ st_prCalls res = (st_prCalls st1 ++ [request])%list)
             /\ (passed finalTest = false -> fixedCount (st_allBugs st1) = 0 ->
                 doc_status (st_doc res) = failed
                 /\ st_prCalls res = st_prCalls st1)).
Proof.
  split.
  - intros env input fs parsed fr st1 Hparse Hfork Hsucc Hclone Hcheckout Hloop. cbv zeta.
    destruct (forkRepo_token _ _ _ _ Hfork) as [token Htok].
    unfold Orchestrator.runHealingLoop. rewrite Hparse.
    rewrite (tryBlock_reaches_loop env input fs parsed fr Hparse Hfork Hsucc Hclone Hcheckout).
    unfold Orchestrator.loopAndVerify. rewrite bind_eq, Hloop. cbv beta iota.
    rewrite bind_eq.
    destruct (finalVerification_outcome env (owner parsed) (repo parsed) token st1 Htok)
      as (st' & -> & Hstatus & Hscore & _ & Hcalls & _).
    cbv beta iota. unfold mret, M_ret. cbv beta iota.
    set (final := snd (Orchestrator.finallyBlock input st')).
    assert (Hfinal : st_doc final = st_doc st' /\ st_prCalls final = st_prCalls st').
    { subst final. unfold Orchestrator.finallyBlock.
      destruct (truthy (Some (st_repoDir st'))); split; reflexivity. }
    destruct Hfinal as (-> & ->).
    rewrite Hstatus, Hscore, Hcalls.
    split; [reflexivity|]. split; [reflexivity|].
    cbn [bugsFixed calculateScore].
    split; [|split].
    + intros ->. split; reflexivity.
    + intros -> Hpos. apply Z.ltb_lt in Hpos. rewrite Hpos. split; reflexivity.
    + intros -> Hzero. rewrite Hzero. split; [reflexivity | apply app_nil_r].
  - intros env input fs parsed token Hparse Htok Hclone Hcheckout.
    destruct (fallback_tryBlock_reaches_loop env input fs parsed token
                Hparse Htok Hclone Hcheckout) as (st0 & Hentry & _).
    exists st0. split; [exact Hentry|]. intros st1 Hloop. cbv zeta.
    unfold OrchestratorFallback.runHealingLoop. rewrite Hparse, Hentry.
    unfold OrchestratorFallback.loopAndVerify. rewrite bind_eq, Hloop. cbv beta iota.
    rewrite bind_eq.
    destruct (fallback_finalVerification_outcome env (owner parsed) (repo parsed) token st1
                Htok) as (st' & -> & Hstatus & Hscore & Hcalls & _).
    cbv beta iota. unfold mret, M_ret. cbv beta iota.
    set (final := snd (OrchestratorFallback.finallyBlock input st')).
    assert (Hfinal : st_doc final = st_doc st' /\ st_prCalls final = st_prCalls st').
    { subst final. unfold OrchestratorFallback.finallyBlock.
      destruct (truthy (Some (st_repoDir st'))); split; reflexivity. }
    destruct Hfinal as (-> & ->).
    rewrite Hstatus, Hscore, Hcalls.
    split; [reflexivity|]. split; [reflexivity|].
    cbn [bugsFixed calculateScore].
    split; [|split].
    + intros ->. split; reflexivity.
    + intros -> Hpos. apply Z.ltb_lt in Hpos. rewrite Hpos. split; reflexivity.
    + intros -> Hzero. rewrite Hzero. split; [reflexivity | apply app_nil_r].
Qed.

Lemma final_verification_decides_witness :
  let env := Samples_stubborn in
  let st1 := Samples_afterLoop in
  let res := Orchestrator.runHealingLoop env Samples_input ∅ in
  doc_status (st_doc res) = partial_success
  /\ length (st_prCalls res) = S (length (st_prCalls st1)).
Proof.
  destruct (proj1 final_verification_decides Samples_stubborn Samples_input ∅
              {| owner := "octocat"; repo := "hello-world" |} Samples_fork Samples_afterLoop
              ltac:(vm_compute; reflexivity) ltac:(vm_compute; reflexivity)
              ltac:(vm_compute; reflexivity) ltac:(vm_compute; reflexivity)
              ltac:(vm_compute; reflexivity) ltac:(vm_compute; reflexivity))
    as (_ & _ & _ & Hpartial & _).
  destruct (Hpartial ltac:(vm_compute; reflexivity) ltac:(vm_compute; reflexivity))
    as [Hstatus Hcalls].
  cbv zeta. split; [exact Hstatus|]. rewrite Hcalls, length_app. cbn [length]. lia.
Defined.

(** C3, as stated, fails in the revision that falls back to the original
    repository: in the sample session a bug is fixed in the first attempt,
    the tests fail in every run, and after the last attempt the session is
    finalized as failed, not as partial_success; the pull request is
    requested all the same. *)
Lemma final_verification_fallback_stays_failed :
  let res := OrchestratorFallback.runHealingLoop Samples_stubborn Samples_fallbackInput ∅ in
  passed (testRun Samples_stubborn (OrchestratorFallback.MAX_ATTEMPTS + 1)) = false
  /\ length (st_attempts res) = 5%nat
  /\ 0 < fixedCount (st_allBugs res)
  /\ doc_status (st_doc res) = failed
  /\ doc_status (st_doc res) <> partial_success
  /\ length (st_prCalls res) = 1%nat.
Proof. vm_compute. repeat split; discriminate. Qed.

(** ** The exit without new bugs *)

Lemma find_some_of_existsb {A} (p : A -> bool) (l : list A) :
  existsb p l = true -> exists a, List.find p l = Some a.
Proof.
  induction l as [|x l IH]; cbn [existsb List.find]; [discriminate|].
  destruct (p x); [eauto | exact IH].
Qed.

(** A scan that reports only locations that are fixed adds nothing. *)
Lemma trackScanned_all_fixed (bugs allBugs new : list HealingBug) :
  forallb (fun bug => fixed_at allBugs (filePath bug) (line bug)) bugs = true ->
  Orchestrator.trackScanned bugs allBugs new = (allBugs, new).
Proof.
  induction bugs as [|bug rest IH]; cbn [forallb Orchestrator.trackScanned];
    [reflexivity|].
  intros H. apply andb_prop in H as [Hbug Hrest].
  destruct (find_some_of_existsb _ _ Hbug) as [b Hb].
  unfold same_location. rewrite Hb. exact (IH Hrest).
Qed.

(** Test errors at fixed locations give no bugs. *)
Lemma synthesize_all_fixed (env : Env) (n : Z) (allBugs : list HealingBug)
    (errs : list ParsedError) :
  forallb (fun e => fixed_at allBugs (pe_filePath e) (pe_line e)) errs = true ->
  Orchestrator.synthesize env n allBugs errs = [].
Proof.
  intros H. unfold Orchestrator.synthesize.
  replace (List.filter _ errs) with (@nil ParsedError); [reflexivity|].
  symmetry. induction errs as [|e errs IH]; cbn [List.filter forallb] in *; [reflexivity|].
  apply andb_prop in H as [He Hrest]. unfold fixed_at in He. rewrite He.
  cbn [negb]. exact (IH Hrest).
Qed.

(** X10. An attempt in which the tests fail, the scanner reports only
    locations that are already fixed and the test errors are all at fixed
    locations ends the session as [completed]: the attempt is recorded as
    passed, the score is computed with [testsPassed = true], and a pull
    request is requested, although no test run has passed. *)
Theorem no_new_bugs_ends_as_completed (env : Env) (o r token : string) (n : Z)
    (st : OrchState) (bugs : list HealingBug) :
  RepoManager.getBotToken env = Ok token ->
  timedOut env n 0 = false ->
  passed (testRun env n) = false ->
  timedOut env n 1 = false ->
  scanForBugs env n = Ok bugs ->
  forallb (fun bug => fixed_at (st_allBugs st) (filePath bug) (line bug)) bugs = true ->
  forallb (fun e => fixed_at (st_allBugs st) (pe_filePath e) (pe_line e))
    (errors (testRun env n)) = true ->
  exists st',
    Orchestrator.attemptBody env o r n st = (Ok Returned, st')
    /\ doc_status (st_doc st') = completed
    /\ doc_score (st_doc st')
       = Some (calculateScore (st_allBugs st) true n (gitCommitCount env n)
                 (elapsedSeconds env n))
    /\ st_attempts st'
       = (st_attempts st
          ++ [mkAttempt n att_passed (take_string 5000 (fullOutput (testRun env n)))
                0 (fixedCount (st_allBugs st)) None None])%list
    /\ st_allBugs st' = st_allBugs st
    /\ length (st_prCalls st') = S (length (st_prCalls st)).
Proof.
  intros Htok Ht0 Hfail Ht1 Hscan Hbugs Herrs.
  unfold Orchestrator.attemptBody. mrun. rewrite Ht0. mrun. rewrite Hfail. mrun.
  rewrite Ht1. mrun. rewrite Hscan. mrun.
  rewrite (trackScanned_all_fixed _ _ _ Hbugs). mrun.
  cbn [length Nat.eqb andb].
  rewrite (synthesize_all_fixed _ _ _ _ Herrs).
  destruct (0 <? length (errors (testRun env n)))%nat; mrun; cbn [length Nat.eqb]; mrun.
  all: cbn [Orchestrator.trackSynthesized].
  all: match goal with
       | |- context [Orchestrator.attemptCreatePR ?e ?a ?b ?c ?d ?f ?g ?h ?i ?j ?s] =>
           destruct (attemptCreatePR_record e a b c d f token g h i j s Htok)
             as (st' & -> & Hcalls & Hstatus & _ & _ & Hscore & _ & _ & Hall & Hatts & _)
       end.
  all: mrun; eexists; (split; [reflexivity|]); st_simpl.
  all: repeat split; try assumption.
  all: rewrite Hcalls, length_app; cbn; lia.
Qed.

Lemma no_new_bugs_ends_as_completed_witness :
  exists st',
    Orchestrator.attemptBody
      (Samples.with_agents (fun _ => Samples.failing)
         (fun _ => Ok [Samples.bugAt "bug-2" "src/calc.js" 3])
         (fun _ _ => Ok (mkFixAllResult [] 0 0)) Samples.healthy)
      "octocat" "hello-world" 2 Samples_fixedState = (Ok Returned, st')
    /\ doc_status (st_doc st') = completed.
Proof.
  destruct (no_new_bugs_ends_as_completed
              (Samples.with_agents (fun _ => Samples.failing)
                 (fun _ => Ok [Samples.bugAt "bug-2" "src/calc.js" 3])
                 (fun _ _ => Ok (mkFixAllResult [] 0 0)) Samples.healthy)
              "octocat" "hello-world" "ghp_token" 2 Samples_fixedState
              [Samples.bugAt "bug-2" "src/calc.js" 3]
              ltac:(reflexivity) ltac:(reflexivity) ltac:(reflexivity) ltac:(reflexivity)
              ltac:(reflexivity) ltac:(vm_compute; reflexivity)
              ltac:(vm_compute; reflexivity))
    as (st' & Hrun & Hstatus & _).
  exists st'. split; assumption.
Defined.

(** ** Bug bookkeeping *)

Lemma fixed_at_app (l k : list HealingBug) (file : string) (ln : Z) :
  fixed_at (l ++ k) file ln = fixed_at l file ln || fixed_at k file ln.
Proof. unfold fixed_at. apply existsb_app. Qed.

Lemma fixed_at_unfixed (b : HealingBug) (file : string) (ln : Z) :
  fixed b = false -> fixed_at [b] file ln = false.
Proof.
  intros H. unfold fixed_at. cbn [existsb]. rewrite H, andb_false_r. reflexivity.
Qed.

Lemma find_fixed_none (allBugs : list HealingBug) (bug : HealingBug) :
  fixed_at allBugs (filePath bug) (line bug) = false ->
  List.find (fun b => same_location b bug && fixed b) allBugs = None.
Proof.
  unfold fixed_at, same_location.
  induction allBugs as [|b l IH]; cbn [existsb List.find]; [reflexivity|].
  intros H. apply orb_false_elim in H as [Hb Hl]. rewrite Hb. exact (IH Hl).
Qed.

Lemma trackScanned_unfixed (bugs allBugs new : list HealingBug) :
  Forall (fun bug => fixed bug = false) bugs ->
  snd (Orchestrator.trackScanned bugs allBugs new)
  = (new ++ List.filter
              (fun bug => negb (fixed_at allBugs (filePath bug) (line bug))) bugs)%list.
Proof.
  intros Hun. revert allBugs new.
  induction Hun as [|bug rest Hbug Hrest IH]; intros allBugs new;
    cbn [Orchestrator.trackScanned List.filter].
  - rewrite app_nil_r. reflexivity.
  - destruct (fixed_at allBugs (filePath bug) (line bug)) eqn:E; cbn [negb].
    + destruct (find_some_of_existsb _ _ E) as [b Hb].
      unfold same_location. rewrite Hb. apply IH.
    + rewrite (find_fixed_none _ _ E). cbv zeta.
      destruct (List.find (fun b => same_location b bug) allBugs).
      * rewrite IH, <- app_assoc. reflexivity.
      * rewrite IH, <- app_assoc. cbn [app]. f_equal. f_equal.
        apply filter_ext. intros x. rewrite fixed_at_app, (fixed_at_unfixed _ _ _ Hbug).
        rewrite orb_false_r. reflexivity.
Qed.

(** X11. The list [genuinelyNewBugs] that the loop over a scanner report
    builds: when the report has only unfixed bugs, it is exactly the
    reported bugs whose location is not marked fixed in [allBugs], in the
    order of the report and with their repetitions, although the loop pushes
    on [allBugs] while it runs. *)
Theorem genuinelyNewBugs_are_the_unfixed_reports (bugs allBugs : list HealingBug) :
  Forall (fun bug => fixed bug = false) bugs ->
  snd (Orchestrator.trackScanned bugs allBugs [])
  = List.filter (fun bug => negb (fixed_at allBugs (filePath bug) (line bug))) bugs.
Proof. intros H. rewrite (trackScanned_unfixed _ _ _ H). reflexivity. Qed.

Lemma genuinelyNewBugs_are_the_unfixed_reports_witness :
  snd (Orchestrator.trackScanned
         [Samples.bugAt "a" "src/calc.js" 3; Samples.bugAt "b" "src/calc.js" 9;
          Samples.bugAt "c" "src/calc.js" 9]
         (st_allBugs Samples_fixedState) [])
  = [Samples.bugAt "b" "src/calc.js" 9; Samples.bugAt "c" "src/calc.js" 9].
Proof.
  rewrite genuinelyNewBugs_are_the_unfixed_reports; [reflexivity|].
  repeat constructor.
Defined.

Lemma mark_fixed_spec (bugId : string) (attempt : Z) (l : list HealingBug) :
  Forall2
    (fun b b' =>
       b' = b \/ (b' = set_fixed attempt b /\ bug_id b = bugId))
    l (mark_fixed bugId attempt l).
Proof.
  induction l as [|b l IH]; cbn [mark_fixed]; [constructor|].
  destruct (String.eqb (bug_id b) bugId) eqn:E.
  - constructor; [right; split; [reflexivity | now apply String.eqb_eq] |].
    clear. induction l; constructor; auto.
  - constructor; [left; reflexivity | exact IH].
Qed.

Lemma mark_fixed_hits (bugId : string) (attempt : Z) (l : list HealingBug) (b : HealingBug) :
  b ∈ l -> bug_id b = bugId ->
  exists b', b' ∈ mark_fixed bugId attempt l
             /\ bug_id b' = bugId /\ fixed b' = true /\ fixedAtAttempt b' = Some attempt.
Proof.
  induction l as [|x l IH]; intros Hin Hid; [inversion Hin|].
  cbn [mark_fixed]. destruct (String.eqb (bug_id x) bugId) eqn:E.
  - exists (set_fixed attempt x). split; [left|].
    apply String.eqb_eq in E. repeat split. exact E.
  - apply elem_of_cons in Hin as [-> | Hin].
    + apply String.eqb_neq in E. contradiction.
    + destruct (IH Hin Hid) as (b' & Hb' & H). exists b'. split; [right; exact Hb' | exact H].
Qed.

Lemma marked_refl (results : list FixResult) (attempt : Z) (b : HealingBug) :
  marked results attempt b b.
Proof. unfold marked. repeat split. left. reflexivity. Qed.

Lemma markApplied_marked (results : list FixResult) (attempt : Z) (l : list HealingBug) :
  Forall2 (marked results attempt) l (markApplied results attempt l).
Proof.
  revert l. induction results as [|res rest IH]; intros l; cbn [markApplied].
  - induction l; constructor; [apply marked_refl | assumption].
  - assert (Hweaken : forall k k', Forall2 (marked rest attempt) k k' ->
                                   Forall2 (marked (res :: rest) attempt) k k').
    { intros k k' H. eapply Forall2_impl; [exact H|].
      intros b b' (H1 & H2 & H3 & H4 & H5 & H6 & H7). repeat split; try assumption.
      destruct H7 as [-> | (Hf & Ha & r & Hr & Hap & Hid)]; [left; reflexivity|].
      right. repeat split; try assumption. exists r. split; [right; exact Hr|]. split; assumption. }
    destruct (applied res) eqn:Happlied; [|apply Hweaken, IH].
    pose proof (mark_fixed_spec (bugId res) attempt l) as Hstep.
    specialize (IH (mark_fixed (bugId res) attempt l)).
    revert Hstep IH. generalize (mark_fixed (bugId res) attempt l) as l1.
    generalize (markApplied rest attempt) as f. intros f l1 Hstep.
    generalize (f l1) as l2. clear f. intros l2 IH.
    revert l2 IH. induction Hstep as [|b b1 l l1 Hb Hl IHl]; intros l2 IH.
    + inversion IH; subst. constructor.
    + inversion IH as [|? b2 ? l2' Hb2 Hl2]; subst. constructor; [|apply IHl; exact Hl2].
      destruct Hb as [-> | [-> Hid]].
      * destruct Hb2 as (H1 & H2 & H3 & H4 & H5 & H6 & H7). repeat split; try assumption.
        destruct H7 as [-> | (Hf & Ha & r & Hr & Hap & Hid)]; [left; reflexivity|].
        right. repeat split; try assumption. exists r. split; [right; exact Hr|].
        split; assumption.
      * destruct Hb2 as (H1 & H2 & H3 & H4 & H5 & H6 & H7).
        cbn [set_fixed bug_id category filePath line message severity] in *.
        repeat split; try assumption. right.
        assert (Hres : exists r, r ∈ res :: rest /\ applied r = true /\ bugId r = bug_id b).
        { exists res. split; [left|]. split; [exact Happlied | symmetry; exact Hid]. }
        destruct H7 as [-> | (Hf & Ha & _)]; repeat split; try assumption; try reflexivity.
Qed.

Lemma Forall2_elem_of_l {A B} (R : A -> B -> Prop) (l : list A) (k : list B) (a : A) :
  Forall2 R l k -> a ∈ l -> exists b, b ∈ k /\ R a b.
Proof.
  intros H. induction H as [|x y l k Hxy _ IH]; intros Hin; [inversion Hin|].
  apply elem_of_cons in Hin as [-> | Hin].
  - exists y. split; [left | exact Hxy].
  - destruct (IH Hin) as (b & Hb & HR). exists b. split; [right; exact Hb | exact HR].
Qed.

Lemma marked_keeps_fixed (results : list FixResult) (attempt : Z) (b b' : HealingBug) :
  marked results attempt b b' -> fixed b = true -> fixed b' = true.
Proof.
  intros (_ & _ & _ & _ & _ & _ & [-> | (H & _)]) Hb; assumption.
Qed.

Lemma fixedCount_marked (results : list FixResult) (attempt : Z) (l k : list HealingBug) :
  Forall2 (marked results attempt) l k -> fixedCount l <= fixedCount k.
Proof.
  unfold fixedCount. intros H. apply inj_le.
  induction H as [|b b' l k Hb _ IH]; cbn [List.filter]; [lia|].
  destruct (fixed b) eqn:E.
  - rewrite (marked_keeps_fixed _ _ _ _ Hb E). cbn [length]. lia.
  - destruct (fixed b'); cbn [length]; lia.
Qed.

Lemma markApplied_hits (results : list FixResult) (attempt : Z) (l : list HealingBug)
    (res : FixResult) (b : HealingBug) :
  res ∈ results -> applied res = true -> b ∈ l -> bug_id b = bugId res ->
  exists b', b' ∈ markApplied results attempt l
             /\ bug_id b' = bugId res /\ fixed b' = true
             /\ fixedAtAttempt b' = Some attempt.
Proof.
  revert l b. induction results as [|res0 rest IH]; intros l b Hres Happlied Hin Hid;
    [inversion Hres|].
  cbn [markApplied]. apply elem_of_cons in Hres as [<- | Hres].
  - rewrite Happlied.
    destruct (mark_fixed_hits (bugId res) attempt l b Hin Hid) as (b1 & Hb1 & Hid1 & Hf1 & Ha1).
    destruct (Forall2_elem_of_l _ _ _ _
                (markApplied_marked rest attempt (mark_fixed (bugId res) attempt l)) Hb1)
      as (b2 & Hb2 & Hm).
    exists b2. split; [exact Hb2|].
    destruct Hm as (Hid2 & _ & _ & _ & _ & _ & [-> | (Hf2 & Ha2 & _)]); repeat split; congruence.
  - set (l1 := if applied res0 then mark_fixed (bugId res0) attempt l else l).
    assert (Hb1 : exists b1, b1 ∈ l1 /\ bug_id b1 = bug_id b).
    { subst l1. destruct (applied res0); [|exists b; split; [exact Hin | reflexivity]].
      destruct (Forall2_elem_of_l _ _ _ _ (mark_fixed_spec (bugId res0) attempt l) Hin)
        as (b1 & Hb1 & [-> | [-> _]]).
      - exists b. split; [exact Hb1 | reflexivity].
      - exists (set_fixed attempt b). split; [exact Hb1 | reflexivity]. }
    destruct Hb1 as (b1 & Hb1 & Hid1).
    apply (IH l1 b1 Hres Happlied Hb1). congruence.
Qed.

(** X12. The marking of fixes changes nothing but the marks: every bug
    keeps its identifier, location, category, message and severity; a bug is
    left as it was or is marked fixed in this attempt, and only because an
    applied result names it; every applied result that names a tracked bug
    leaves a bug of that name marked fixed in this attempt; and the number of
    fixed bugs does not go down. *)
Theorem markApplied_marks_the_named_bugs (results : list FixResult) (attempt : Z)
    (allBugs : list HealingBug) :
  Forall2 (marked results attempt) allBugs (markApplied results attempt allBugs)
  /\ (forall res b,
        res ∈ results -> applied res = true -> b ∈ allBugs -> bug_id b = bugId res ->
        exists b', b' ∈ markApplied results attempt allBugs
                   /\ bug_id b' = bugId res /\ fixed b' = true
                   /\ fixedAtAttempt b' = Some attempt)
  /\ fixedCount allBugs <= fixedCount (markApplied results attempt allBugs).
Proof.
  split; [apply markApplied_marked|]. split.
  - intros res b. apply markApplied_hits.
  - eapply fixedCount_marked. apply markApplied_marked.
Qed.

Lemma markApplied_marks_the_named_bugs_witness :
  exists b', b' ∈ markApplied [mkFixResult true "src/calc.js" "patched" "bug-1"] 2
                    [Samples.bugAt "bug-1" "src/calc.js" 3]
             /\ fixed b' = true /\ fixedAtAttempt b' = Some 2.
Proof.
  destruct (proj1 (proj2 (markApplied_marks_the_named_bugs
                            [mkFixResult true "src/calc.js" "patched" "bug-1"] 2
                            [Samples.bugAt "bug-1" "src/calc.js" 3]))
              (mkFixResult true "src/calc.js" "patched" "bug-1")
              (Samples.bugAt "bug-1" "src/calc.js" 3))
    as (b' & Hin & _ & Hf & Ha).
  - left.
  - reflexivity.
  - left.
  - reflexivity.
  - exists b'. repeat split; assumption.
Defined.

(** ** The results of the repository manager *)

Lemma prTry_wf (env : Env) (o r : string) (n : Z) (res : PullRequestResult) :
  RepoManager.prTry env o r n = Ok (RepoManager.Return res) -> pr_result_wf res.
Proof.
  unfold RepoManager.prTry.
  destruct (prPost env n) as [response|e]; [|discriminate]. cbn [mbind Exc_bind].
  destruct (negb (ok response)).
  - destruct (_ && _).
    + unfold RepoManager.findExistingPr.
      destruct (prSearch env) as [searchRes|e]; cbn [mbind Exc_bind catch_default].
      * destruct (ok searchRes); cbn [catch_default].
        -- destruct (json searchRes) as [[|p prs]|e]; cbn [mbind Exc_bind catch_default];
             intros [= <-]; (split; [reflexivity | discriminate]).
        -- intros [= <-]. split; [reflexivity | discriminate].
      * intros [= <-]. split; [reflexivity | discriminate].
    + destruct (n <? RepoManager.maxRetries); discriminate.
  - destruct (json response) as [prData|e]; cbn [mbind Exc_bind]; [|discriminate].
    intros [= <-]. split; [reflexivity | discriminate].
Qed.

(** A try whose create call fails goes on to the next try when there is one,
    and throws the error of the call otherwise. *)
Lemma prTry_create_failed (env : Env) (o r : string) (n : Z) :
  create_failed (prPost env n) = true -> already_exists (prPost env n) = false ->
  ((n <? RepoManager.maxRetries) = true ->
   RepoManager.prTry env o r n = Ok RepoManager.Continue
   \/ exists e, RepoManager.prTry env o r n = Throw e)
  /\ ((n <? RepoManager.maxRetries) = false ->
      RepoManager.prTry env o r n = Throw (mkError (create_error (prPost env n)))).
Proof.
  unfold create_failed, already_exists, create_error, RepoManager.prTry.
  destruct (prPost env n) as [response|[msg]];
    [|intros; split; intros; [right; eauto | reflexivity]].
  cbn [mbind Exc_bind]. intros Hf Hn.
  destruct (ok response); cbn [negb orb] in *.
  - destruct (json response) as [d|[msg]]; [discriminate|].
    split; intros; [right; eauto | reflexivity].
  - rewrite Hn. split; intros H; rewrite H; [left | ]; reflexivity.
Qed.

Lemma prTry_created (env : Env) (o r : string) (n : Z) (response : Response PrData)
    (prData : PrData) :
  prPost env n = Ok response -> ok response = true -> json response = Ok prData ->
  RepoManager.prTry env o r n
  = Ok (RepoManager.Return
          {| pr_success := true; prNumber := Some (number prData);
             prUrl := Some (html_url prData); pr_error := None |}).
Proof.
  intros H Hok Hjson. unfold RepoManager.prTry. rewrite H. cbn [mbind Exc_bind].
  rewrite Hok, Hjson. reflexivity.
Qed.

Lemma prTry_last_returns (env : Env) (o r : string) :
  RepoManager.prTry env o r 2 <> Ok RepoManager.Continue.
Proof.
  unfold RepoManager.prTry.
  destruct (prPost env 2) as [response|e]; [|discriminate]. cbn [mbind Exc_bind].
  destruct (negb (ok response)).
  - destruct (_ && _); [destruct (RepoManager.findExistingPr env); discriminate|].
    change (2 <? RepoManager.maxRetries) with false. discriminate.
  - destruct (json response); discriminate.
Qed.

(** X13. With the bot token set, [createPullRequest] never throws, and its
    result is a success with a URL and without an error, or a failure with
    an error message and without URL and number. The pull request of the
    first create call is the result when that call succeeds. When it fails,
    other than by a pull request that already exists, the second call
    decides: its pull request is the result when it succeeds, and its error
    is the one reported when it fails too; the error of the first call is
    not reported. *)
Theorem createPullRequest_result (env : Env)
    (repoDir originalOwner originalRepo branchName forkOwner token : string)
    (nFixed nBugs nAttempts score : Z) :
  RepoManager.getBotToken env = Ok token ->
  exists result,
    RepoManager.createPullRequest env repoDir originalOwner originalRepo branchName
      forkOwner nFixed nBugs nAttempts score = Ok result
    /\ pr_result_wf result
    /\ (forall response prData,
          prPost env 1 = Ok response -> ok response = true -> json response = Ok prData ->
          result = {| pr_success := true; prNumber := Some (number prData);
                      prUrl := Some (html_url prData); pr_error := None |})
    /\ (create_failed (prPost env 1) = true -> already_exists (prPost env 1) = false ->
        (forall response prData,
           prPost env 2 = Ok response -> ok response = true -> json response = Ok prData ->
           result = {| pr_success := true; prNumber := Some (number prData);
                       prUrl := Some (html_url prData); pr_error := None |})
        /\ (create_failed (prPost env 2) = true -> already_exists (prPost env 2) = false ->
            result = {| pr_success := false; prNumber := None; prUrl := None;
                        pr_error := Some (create_error (prPost env 2)) |})).
Proof.
  intros Htok. unfold RepoManager.createPullRequest. rewrite Htok. cbn [mbind Exc_bind].
  eexists. split; [reflexivity|].
  change (Z.to_nat RepoManager.maxRetries) with 2%nat.
  cbn [RepoManager.prLoop]. change (1 + 1) with 2.
  change (1 <? RepoManager.maxRetries) with true.
  change (2 <? RepoManager.maxRetries) with false.
  pose proof (prTry_last_returns env originalOwner originalRepo) as Hlast.
  split; [|split].
  - destruct (RepoManager.prTry env originalOwner originalRepo 1) as [[res|]|e] eqn:E1;
      [eapply prTry_wf; exact E1 | |];
      (destruct (RepoManager.prTry env originalOwner originalRepo 2) as [[res|]|e2] eqn:E2;
       [eapply prTry_wf; exact E2
       | congruence
       | split; [discriminate | split; reflexivity]]).
  - intros response prData H Hok Hjson.
    rewrite (prTry_created _ _ _ _ _ _ H Hok Hjson). reflexivity.
  - intros Hf Hn.
    destruct (proj1 (prTry_create_failed env originalOwner originalRepo 1 Hf Hn) eq_refl)
      as [-> | [e ->]]; cbv iota.
    all: split;
      [intros response prData H Hok Hjson;
       rewrite (prTry_created _ _ _ _ _ _ H Hok Hjson); reflexivity
      |intros Hf2 Hn2;
       rewrite (proj2 (prTry_create_failed env originalOwner originalRepo 2 Hf2 Hn2) eq_refl);
       reflexivity].
Qed.

Lemma createPullRequest_result_witness :
  exists result,
    RepoManager.createPullRequest
      (Samples.with_prPost
         (fun n => if n =? 1 then Throw (mkError "socket hang up") else Ok Samples.prCreated)
         Samples.healthy)
      "/tmp/self-healing/s1" "octocat" "hello-world" "TEAM_LEAD_AI_Fix" "zero-bot" 1 2 3 45
    = Ok result
    /\ result = {| pr_success := true; prNumber := Some 7;
                   prUrl := Some "https://github.com/octocat/hello-world/pull/7";
                   pr_error := None |}.
Proof.
  destruct (createPullRequest_result
              (Samples.with_prPost
                 (fun n => if n =? 1 then Throw (mkError "socket hang up")
                           else Ok Samples.prCreated)
                 Samples.healthy)
              "/tmp/self-healing/s1" "octocat" "hello-world" "TEAM_LEAD_AI_Fix" "zero-bot"
              "ghp_token" 1 2 3 45 eq_refl)
    as (result & Hrun & _ & _ & Hretry).
  exists result. split; [exact Hrun|].
  apply (proj1 (Hretry eq_refl eq_refl) Samples.prCreated
           (mkPrData 7 "https://github.com/octocat/hello-world/pull/7"));
    reflexivity.
Defined.

Lemma forkTry_shape (env : Env) (owner repo : string) (n : Z) (r : ForkResult) :
  RepoManager.forkTry env owner repo n = Ok r ->
  fork_success r = true /\ fork_error r = None
  /\ (forkOwner r <> EmptyString ->
      forkUrl r = "https://github.com/" ++ forkOwner r ++ "/" ++ forkRepo_ r)
  /\ (repo <> EmptyString -> forkRepo_ r <> EmptyString).
Proof.
  unfold RepoManager.forkTry.
  destruct (forkPost env n) as [response|e]; [|discriminate]. cbn [mbind Exc_bind].
  destruct (negb (ok response) && negb (resp_status response =? 202)).
  - destruct (resp_status response =? 403); discriminate.
  - destruct (json response) as [forkData|e]; [|discriminate]. cbn [mbind Exc_bind].
    intros [= <-]. cbn [fork_success fork_error forkUrl forkOwner forkRepo_].
    split; [reflexivity|]. split; [reflexivity|]. split.
    + destruct (or_undefined _ _) as [o|]; cbn [default template];
        [reflexivity | congruence].
    + intros Hrepo. unfold or_str.
      destruct (name forkData); [exact Hrepo | discriminate].
Qed.

(** X14. With the bot token set, [forkRepo] returns the fork of the first
    attempt when that attempt succeeds, and the fork of the second attempt
    when the first fails and the second succeeds. A success carries no
    error, the URL [https://github.com/<forkOwner>/<forkRepo>] when the
    owner of the fork is known, and a repository name that is not empty
    when the name asked for is not. *)
Theorem forkRepo_returns_first_success (env : Env) (owner repo token : string) :
  RepoManager.getBotToken env = Ok token ->
  exists r,
    RepoManager.forkRepo env owner repo = Ok r
    /\ (forall r1, RepoManager.forkTry env owner repo 1 = Ok r1 -> r = r1)
    /\ (forall e1 r2, RepoManager.forkTry env owner repo 1 = Throw e1 ->
                      RepoManager.forkTry env owner repo 2 = Ok r2 -> r = r2)
    /\ (fork_success r = true ->
        fork_error r = None
        /\ (forkOwner r <> EmptyString ->
            forkUrl r = "https://github.com/" ++ forkOwner r ++ "/" ++ forkRepo_ r)
        /\ (repo <> EmptyString -> forkRepo_ r <> EmptyString)).
Proof.
  intros Htok. unfold RepoManager.forkRepo. rewrite Htok. cbn [mbind Exc_bind].
  eexists. split; [reflexivity|].
  change (Z.to_nat RepoManager.maxForkAttempts) with 2%nat.
  cbn [RepoManager.forkLoop]. change (1 + 1) with 2.
  change (1 <? RepoManager.maxForkAttempts) with true.
  change (2 <? RepoManager.maxForkAttempts) with false.
  destruct (RepoManager.forkTry env owner repo 1) as [r1|e1] eqn:E1.
  - split; [intros ? [= <-]; reflexivity|]. split; [discriminate|].
    intros _. apply (forkTry_shape _ _ _ _ _ E1).
  - split; [discriminate|].
    destruct (RepoManager.forkTry env owner repo 2) as [r2|e2] eqn:E2.
    + split; [intros ? ? _ [= <-]; reflexivity|].
      intros _. apply (forkTry_shape _ _ _ _ _ E2).
    + split; [discriminate|]. cbn [fork_success RepoManager.forkFailure]. discriminate.
Qed.

Lemma forkRepo_returns_first_success_witness :
  exists r,
    RepoManager.forkRepo
      (Samples.with_forkPost
         (fun n => if n =? 1 then Throw (mkError "socket hang up") else Ok Samples.forkCreated)
         Samples.healthy)
      "octocat" "hello-world" = Ok r
    /\ r = Samples_fork.
Proof.
  destruct (forkRepo_returns_first_success
              (Samples.with_forkPost
                 (fun n => if n =? 1 then Throw (mkError "socket hang up")
                           else Ok Samples.forkCreated)
                 Samples.healthy)
              "octocat" "hello-world" "ghp_token" eq_refl)
    as (r & Hrun & _ & Hsecond & _).
  exists r. split; [exact Hrun|].
  apply (Hsecond (mkError "socket hang up")); reflexivity.
Defined.

(** ** The footprint of the sandbox operations *)

Lemma under_child (d f : string) : under d (d ++ "/" ++ f) = true.
Proof.
  unfold under. rewrite <- append_assoc', prefix_app. apply orb_true_r.
Qed.

(** [fs'] differs from [fs] only in the sandbox base and below the sandbox
    of the session. *)
Lemma cloneRepo_footprint (env : Env) (repoUrl sessionId : string)
    (forkOwner forkRepoName : option string) (fs : FS) (p : string) :
  p <> RepoManager.SANDBOX_BASE ->
  under (RepoManager.getSandboxDir sessionId) p = false ->
  p ∈ snd (cloneRepo env repoUrl sessionId forkOwner forkRepoName fs) <-> p ∈ fs.
Proof.
  intros Hbase Hout. unfold cloneRepo.
  set (dir := RepoManager.getSandboxDir sessionId) in *.
  set (fs1 := if negb _ then _ else fs).
  assert (H1 : p ∈ fs1 <-> p ∈ fs).
  { subst fs1. destruct (negb _); [|reflexivity]. unfold mkdirSync.
    rewrite elem_of_union, elem_of_singleton. tauto. }
  set (step := if existsSync dir fs1 then rmSync dir true true fs1 else (Ok tt, fs1)).
  assert (H2 : p ∈ snd step <-> p ∈ fs).
  { subst step. destruct (existsSync dir fs1) eqn:E; [|exact H1].
    unfold rmSync. rewrite E, andb_false_r. cbn [snd].
    rewrite elem_of_filter. tauto. }
  assert (H3 : p ∈ cloned env dir (snd step) <-> p ∈ fs).
  { unfold cloned. rewrite !elem_of_union, elem_of_singleton, elem_of_list_to_set, H2.
    split; [|tauto]. intros [[-> | Hin] | Hin]; [| |exact Hin].
    - subst dir. rewrite under_refl in Hout. discriminate.
    - apply list_elem_of_In, in_map_iff in Hin as (f & <- & _).
      subst dir. rewrite under_child in Hout. discriminate. }
  destruct step as [[[]|e] fs2]; cbn [snd] in *; [|exact H2].
  destruct (RepoManager.getBotToken env); [|exact H2].
  destruct (if truthy forkOwner && truthy forkRepoName then _ else _); [|exact H2].
  destruct (gitClone env); [|exact H2].
  destruct (if truthy forkOwner && truthy forkRepoName then _ else _); exact H3.
Qed.

Lemma cleanupSandbox_footprint (sessionId : string) (fs : FS) (p : string) :
  under (RepoManager.getSandboxDir sessionId) p = false ->
  p ∈ snd (RepoManager.cleanupSandbox sessionId fs) <-> p ∈ fs.
Proof.
  intros Hout. unfold RepoManager.cleanupSandbox.
  destruct (existsSync _ fs) eqn:E; [|reflexivity].
  unfold rmSync. rewrite E, andb_false_r. cbn [snd]. rewrite elem_of_filter. tauto.
Qed.

Lemma prefix_split (a b : string) : String.prefix a b = true -> exists x, b = a ++ x.
Proof.
  revert b. induction a as [|c a IH]; intros b H; [exists b; reflexivity|].
  destruct b as [|d b]; cbn in H; [discriminate|].
  destruct (Ascii.ascii_dec c d) as [<-|]; [|discriminate].
  destruct (IH b H) as [x ->]. exists x. rewrite append_cons. reflexivity.
Qed.

Lemma under_inv (d p : string) :
  under d p = true -> p = d \/ exists x, p = d ++ "/" ++ x.
Proof.
  unfold under. intros H. apply orb_prop in H as [H|H].
  - left. symmetry. now apply String.eqb_eq.
  - right. apply prefix_split in H as [x ->]. exists x. now rewrite append_assoc'.
Qed.

Lemma append_inj_l (a x y : string) : a ++ x = a ++ y -> x = y.
Proof.
  induction a as [|c a IH]; [now rewrite !append_nil_l|].
  rewrite !append_cons. intros [= H]. exact (IH H).
Qed.

(** Two names without a slash that are followed by a slash in the same
    string are the same name. *)
Lemma slash_free_split (a b x y : string) :
  forall_string RepoManager.not_slash a = true ->
  forall_string RepoManager.not_slash b = true ->
  a ++ String "/" x = b ++ String "/" y -> a = b.
Proof.
  revert b. induction a as [|c a IH]; intros [|d b] Ha Hb;
    rewrite ?append_cons, ?append_nil_l; intros H.
  - reflexivity.
  - injection H as <- _. cbn in Hb. discriminate.
  - injection H as -> _. cbn in Ha. discriminate.
  - injection H as <- H. cbn [forall_string] in Ha, Hb.
    apply andb_prop in Ha as [_ Ha]. apply andb_prop in Hb as [_ Hb].
    f_equal. exact (IH b Ha Hb H).
Qed.

Lemma slash_free_whole (a b y : string) :
  forall_string RepoManager.not_slash a = true -> a <> b ++ String "/" y.
Proof.
  revert b. induction a as [|c a IH]; intros [|d b] Ha;
    rewrite ?append_cons, ?append_nil_l; try discriminate.
  - intros [= -> _]. cbn in Ha. discriminate.
  - intros [= <- H]. cbn [forall_string] in Ha. apply andb_prop in Ha as [_ Ha].
    exact (IH b Ha H).
Qed.

(** The sandboxes of two sessions with different names are disjoint. *)
Lemma sandboxes_disjoint (s1 s2 p : string) :
  s1 <> s2 ->
  forall_string RepoManager.not_slash s1 = true ->
  forall_string RepoManager.not_slash s2 = true ->
  under (RepoManager.getSandboxDir s2) p = true ->
  under (RepoManager.getSandboxDir s1) p = false.
Proof.
  intros Hne H1 H2 Hp. destruct (under (RepoManager.getSandboxDir s1) p) eqn:E; [|reflexivity].
  exfalso. apply under_inv in Hp. apply under_inv in E.
  unfold RepoManager.getSandboxDir in *.
  destruct E as [-> | [x ->]]; destruct Hp as [Hp | [y Hp]].
  - apply append_inj_l in Hp. change ("/" ++ s1) with (String "/" s1) in Hp.
    change ("/" ++ s2) with (String "/" s2) in Hp. congruence.
  - rewrite !append_assoc' in Hp. apply append_inj_l in Hp.
    change ("/" ++ s1) with (String "/" s1) in Hp.
    change ("/" ++ s2 ++ "/" ++ y) with (String "/" (s2 ++ String "/" y)) in Hp.
    injection Hp as Hp. exact (slash_free_whole _ _ _ H1 Hp).
  - rewrite !append_assoc' in Hp. apply append_inj_l in Hp.
    change ("/" ++ s2) with (String "/" s2) in Hp.
    change ("/" ++ s1 ++ "/" ++ x) with (String "/" (s1 ++ String "/" x)) in Hp.
    injection Hp as Hp. symmetry in Hp. exact (slash_free_whole _ _ _ H2 Hp).
  - rewrite !append_assoc' in Hp. apply append_inj_l in Hp.
    change ("/" ++ s1 ++ "/" ++ x) with (String "/" (s1 ++ String "/" x)) in Hp.
    change ("/" ++ s2 ++ "/" ++ y) with (String "/" (s2 ++ String "/" y)) in Hp.
    injection Hp as Hp. apply Hne. exact (slash_free_split _ _ _ _ H1 H2 Hp).
Qed.

(** X15. The disk operations of [cloneRepo] and [cleanupSandbox] stay inside
    the sandbox of their session, for a session id that is a plain file
    name: but for the sandbox base, which [cloneRepo] may create, they
    neither create nor remove a path outside the sandbox directory; and so
    they leave the sandbox of every other session as it is. *)
Theorem sandbox_operations_stay_inside (env : Env) (repoUrl sessionId : string)
    (forkOwner forkRepoName : option string) (fs : FS) (p : string) :
  plain_name sessionId = true ->
  (p <> RepoManager.SANDBOX_BASE /\ under (RepoManager.getSandboxDir sessionId) p = false)
  \/ (exists other, plain_name other = true /\ other <> sessionId
                    /\ under (RepoManager.getSandboxDir other) p = true) ->
  (p ∈ snd (cloneRepo env repoUrl sessionId forkOwner forkRepoName fs) <-> p ∈ fs)
  /\ (p ∈ snd (RepoManager.cleanupSandbox sessionId fs) <-> p ∈ fs).
Proof.
  intros Hplain Hp.
  assert (Hout : p <> RepoManager.SANDBOX_BASE
                 /\ under (RepoManager.getSandboxDir sessionId) p = false).
  { destruct Hp as [Hp | (other & Hother & Hne & Hunder)]; [exact Hp|]. split.
    - intros ->. rewrite base_outside_sandbox in Hunder. discriminate.
    - unfold plain_name in Hplain, Hother.
      apply andb_prop in Hplain as [_ Hs]. apply andb_prop in Hother as [_ Ho].
      apply (sandboxes_disjoint _ other); auto. }
  destruct Hout as [Hbase Hout]. split.
  - apply cloneRepo_footprint; assumption.
  - apply cleanupSandbox_footprint; assumption.
Qed.

Lemma sandbox_operations_stay_inside_witness :
  "/tmp/self-healing/s2/package.json"
  ∈ snd (RepoManager.cleanupSandbox "s1"
           ({[ "/tmp/self-healing/s2/package.json"; "/tmp/self-healing/s1" ]} : FS)).
Proof.
  refine (proj2 (proj2 (sandbox_operations_stay_inside Samples.healthy
                  "https://github.com/octocat/hello-world" "s1"
                  (Some "zero-bot") (Some "hello-world")
                  ({[ "/tmp/self-healing/s2/package.json"; "/tmp/self-healing/s1" ]} : FS)
                  "/tmp/self-healing/s2/package.json" _ _)) _).
  - vm_compute; reflexivity.
  - right. exists "s2". split; [vm_compute; reflexivity|].
    split; [discriminate | vm_compute; reflexivity].
  - apply elem_of_union. left. apply elem_of_singleton. reflexivity.
Defined.

(** ** What [parseGitHubUrl] returns *)

(** X16. What [parseGitHubUrl] returns is in the URL: the URL ends with
    [github.com/<owner>/<repo>], followed by nothing, by [.git] or by a
    slash; the owner and the repository name are not empty and contain no
    slash. *)
Theorem parseGitHubUrl_result_is_in_the_url (url : string) (r : RepoRef) :
  RepoManager.parseGitHubUrl url = Ok r ->
  exists pre tail,
    url = pre ++ "github.com/" ++ owner r ++ "/" ++ repo r ++ tail
    /\ (tail = EmptyString \/ tail = ".git" \/ tail = "/")
    /\ owner r <> EmptyString
    /\ forall_string RepoManager.not_slash (owner r) = true
    /\ repo r <> EmptyString
    /\ forall_string RepoManager.not_slash (repo r) = true.
Proof.
  unfold RepoManager.parseGitHubUrl, RepoManager.patterns.
  cbn [RepoManager.first_match].
  destruct (rexec _ url) as [caps|] eqn:E1.
  - intros [= <-]. apply rexec_sound in E1 as (pre & s' & -> & Hm).
    apply pattern_sound in Hm as (x1 & x2 & tail & -> & Htail & Hx1 & Hp1 & Hx2 & Hp2 & ->).
    cbn [capture Nat.eqb owner repo]. exists pre, tail.
    repeat split; auto; [tauto | apply not_slash_dot_not_slash; exact Hp2].
  - match goal with
    | |- context [rexec ?p url] => destruct (rexec p url) as [caps|] eqn:E2
    end; [|discriminate].
    intros [= <-]. apply rexec_sound in E2 as (pre & s' & -> & Hm).
    apply pattern_sound in Hm as (x1 & x2 & tail & -> & Htail & Hx1 & Hp1 & Hx2 & Hp2 & ->).
    cbn [capture Nat.eqb owner repo]. exists pre, tail.
    repeat split; auto. tauto.
Qed.

Lemma parseGitHubUrl_result_is_in_the_url_witness :
  exists pre tail,
    "ssh://git@github.com/octocat/hello-world.git"
    = pre ++ "github.com/" ++ "octocat" ++ "/" ++ "hello-world" ++ tail.
Proof.
  destruct (parseGitHubUrl_result_is_in_the_url
              "ssh://git@github.com/octocat/hello-world.git"
              {| owner := "octocat"; repo := "hello-world" |} eq_refl)
    as (pre & tail & H & _).
  exists pre, tail. exact H.
Defined.

(** ** The test runner *)

Section ParseErrors.

Variable parseErrorLine : string -> string -> option ParsedError.
Variable repoDir : string.

Lemma parseLines_spec (lines : list string) (seen : gset string)
    (errors : list ParsedError) :
  (forall k, k ∈ seen <-> k ∈ map TestRunner.error_key errors) ->
  NoDup (map TestRunner.error_key errors) ->
  exists added,
    TestRunner.parseLines parseErrorLine lines repoDir seen errors = (errors ++ added)%list
    /\ NoDup (map TestRunner.error_key (errors ++ added))
    /\ sublist added (omap (fun line => parseErrorLine line repoDir) lines)
    /\ (forall l1 line l2 e,
          lines = (l1 ++ line :: l2)%list ->
          parseErrorLine line repoDir = Some e ->
          (forall line' e', line' ∈ l1 -> parseErrorLine line' repoDir = Some e' ->
                            TestRunner.error_key e' <> TestRunner.error_key e) ->
          TestRunner.error_key e ∉ seen ->
          e ∈ added).
Proof.
  revert seen errors. induction lines as [|line rest IH]; intros seen errors Hseen Hnd;
    cbn [TestRunner.parseLines].
  - exists []. rewrite app_nil_r. repeat split; [exact Hnd | constructor |].
    intros [|x l1] line l2 e H; discriminate H.
  - cbn [omap list_omap].
    destruct (parseErrorLine line repoDir) as [p|] eqn:Eline.
    + cbv zeta. destruct (bool_decide (TestRunner.error_key p ∈ seen)) eqn:Ein.
      * apply bool_decide_eq_true in Ein.
        destruct (IH seen errors Hseen Hnd) as (added & -> & Hnd' & Hsub & Hfirst).
        exists added. repeat split; [exact Hnd' | apply sublist_cons; exact Hsub |].
        intros [|x l1] line0 l2 e Hl Hline Hbefore Hout; cbn [app] in Hl.
        -- injection Hl as <- <-. rewrite Eline in Hline. injection Hline as <-.
           contradiction.
        -- injection Hl as <- ->. apply (Hfirst l1 line0 l2 e eq_refl Hline); [|exact Hout].
           intros line' e' Hin. apply Hbefore. right. exact Hin.
      * apply bool_decide_eq_false in Ein.
        destruct (IH ({[TestRunner.error_key p]} ∪ seen) (errors ++ [p])%list)
          as (added & -> & Hnd' & Hsub & Hfirst).
        { intros k. rewrite map_app, elem_of_app, elem_of_union, elem_of_singleton, Hseen.
          cbn [map]. rewrite list_elem_of_singleton. tauto. }
        { rewrite map_app. apply NoDup_app. split; [exact Hnd|]. split.
          - intros k Hk Hk'. cbn [map] in Hk'. apply list_elem_of_singleton in Hk'. subst k.
            apply Ein, Hseen, Hk.
          - apply NoDup_singleton. }
        exists (p :: added).
        split; [rewrite <- app_assoc; reflexivity|].
        split; [rewrite <- app_assoc in Hnd'; exact Hnd'|].
        split; [apply sublist_skip; exact Hsub|].
        intros [|x l1] line0 l2 e Hl Hline Hbefore Hout; cbn [app] in Hl.
        -- injection Hl as <- <-. rewrite Eline in Hline. injection Hline as <-. left.
        -- injection Hl as <- ->. right.
           apply (Hfirst l1 line0 l2 e eq_refl Hline).
           ++ intros line' e' Hin. apply Hbefore. right. exact Hin.
           ++ rewrite elem_of_union, elem_of_singleton. intros [Heq | Hin]; [|contradiction].
              apply (Hbefore line p); [left | exact Eline | symmetry; exact Heq].
    + destruct (IH seen errors Hseen Hnd) as (added & -> & Hnd' & Hsub & Hfirst).
      exists added. repeat split; [exact Hnd' | exact Hsub |].
      intros [|x l1] line0 l2 e Hl Hline Hbefore Hout; cbn [app] in Hl.
      * injection Hl as <- <-. congruence.
      * injection Hl as <- ->. apply (Hfirst l1 line0 l2 e eq_refl Hline); [|exact Hout].
        intros line' e' Hin. apply Hbefore. right. exact Hin.
Qed.

(** X17. [parseErrors] keeps one error for every key
    [<file>:<line>:<message>]: no two errors of its result have the same
    key, its result is a part of the errors parsed from the lines of the
    output, in their order, and the first error parsed with a key is in the
    result. *)
Theorem parseErrors_keeps_the_first_of_each_key (output : string) :
  let lines := TestRunner.split_on "010" output in
  let errs := TestRunner.parseErrors parseErrorLine output repoDir in
  NoDup (map TestRunner.error_key errs)
  /\ sublist errs (omap (fun line => parseErrorLine line repoDir) lines)
  /\ (forall l1 line l2 e,
        lines = (l1 ++ line :: l2)%list ->
        parseErrorLine line repoDir = Some e ->
        (forall line' e', line' ∈ l1 -> parseErrorLine line' repoDir = Some e' ->
                          TestRunner.error_key e' <> TestRunner.error_key e) ->
        e ∈ errs).
Proof.
  cbv zeta. unfold TestRunner.parseErrors.
  destruct (parseLines_spec (TestRunner.split_on "010" output) ∅ [])
    as (added & -> & Hnd & Hsub & Hfirst).
  - intros k. cbn [map]. split; intros H; [apply elem_of_empty in H | apply elem_of_nil in H];
      contradiction.
  - constructor.
  - cbn [app] in *. split; [exact Hnd|]. split; [exact Hsub|].
    intros l1 line l2 e Hl Hline Hbefore.
    apply (Hfirst l1 line l2 e Hl Hline Hbefore). apply not_elem_of_empty.
Qed.

End ParseErrors.

Lemma parseErrors_keeps_the_first_of_each_key_witness :
  map pe_filePath
    (TestRunner.parseErrors
       (fun line _ => if String.eqb line EmptyString then None
                      else Some (mkParsedError line 1 "failed" RUNTIME))
       ("a.js" ++ String "010" ("b.js" ++ String "010" "a.js")) "/tmp/self-healing/s1")
  = ["a.js"; "b.js"]
  /\ NoDup (map TestRunner.error_key
              (TestRunner.parseErrors
                 (fun line _ => if String.eqb line EmptyString then None
                                else Some (mkParsedError line 1 "failed" RUNTIME))
                 ("a.js" ++ String "010" ("b.js" ++ String "010" "a.js"))
                 "/tmp/self-healing/s1")).
Proof.
  split; [vm_compute; reflexivity|].
  apply (parseErrors_keeps_the_first_of_each_key
           (fun line _ => if String.eqb line EmptyString then None
                          else Some (mkParsedError line 1 "failed" RUNTIME))
           "/tmp/self-healing/s1"
           ("a.js" ++ String "010" ("b.js" ++ String "010" "a.js"))).
Defined.

(** The characterisation of [includes]: the string has the other as a
    part. *)
Lemma strip_prefix_complete (l s : string) : strip_prefix l (l ++ s) = Some s.
Proof. apply strip_prefix_app. Qed.

Lemma includes_spec (sub s : string) :
  includes sub s = true <-> exists pre post, s = pre ++ sub ++ post.
Proof.
  split.
  - induction s as [|c s IH]; cbn [includes].
    + destruct (strip_prefix sub EmptyString) as [rest|] eqn:E; [|discriminate].
      intros _. apply strip_prefix_sound in E. exists EmptyString, rest. exact E.
    + destruct (strip_prefix sub (String c s)) as [rest|] eqn:E.
      * intros _. apply strip_prefix_sound in E. exists EmptyString, rest. exact E.
      * intros H. destruct (IH H) as (pre & post & ->).
        exists (String c pre), post. rewrite append_cons. reflexivity.
  - intros (pre & post & ->). induction pre as [|c pre IH].
    + rewrite append_nil_l.
      destruct (sub ++ post) eqn:E; cbn [includes]; rewrite <- E, strip_prefix_app;
        reflexivity.
    + rewrite append_cons. cbn [includes].
      destruct (strip_prefix sub _); [reflexivity | exact IH].
Qed.

(** A string that has [x] as a part has every part of [x]. *)
Lemma includes_trans (y x s : string) :
  includes y x = true -> includes x s = true -> includes y s = true.
Proof.
  rewrite !includes_spec. intros (a & b & ->) (pre & post & ->).
  exists (pre ++ a), (b ++ post). rewrite !append_assoc'. reflexivity.
Qed.

(** X18. Three of the keywords of [classifyError] never decide: a line
    with [eslint] or [pylint] has [lint], and a line with [assertionerror]
    has [assert]; so the category is the one the remaining keywords give, in
    the order of the rules. *)
Theorem classifyError_decisive_keywords (line : string) :
  let lower := TestRunner.toLowerCase line in
  TestRunner.classifyError line
  = if includes "syntaxerror" lower || includes "syntax error" lower
       || includes "unexpected token" lower
    then SYNTAX
    else if includes "importerror" lower || includes "modulenotfounderror" lower
            || includes "cannot find module" lower
    then IMPORT
    else if includes "typeerror" lower || includes "type error" lower
            || includes "ts2" lower
    then TYPE
    else if includes "lint" lower
    then LINTING
    else if includes "nameerror" lower || includes "referenceerror" lower
            || includes "undefined" lower
    then RUNTIME
    else if includes "dependency" lower || includes "package" lower
            || includes "install" lower
    then DEPENDENCY
    else if includes "expect" lower || includes "assert" lower
    then LOGIC
    else RUNTIME.
Proof.
  cbv zeta. unfold TestRunner.classifyError.
  set (lower := TestRunner.toLowerCase line).
  assert (H1 : includes "lint" lower || includes "eslint" lower || includes "pylint" lower
               = includes "lint" lower).
  { destruct (includes "lint" lower) eqn:E; [reflexivity|]. cbn [orb].
    destruct (includes "eslint" lower) eqn:E1.
    - rewrite (includes_trans "lint" "eslint" lower eq_refl E1) in E. discriminate.
    - cbn [orb]. destruct (includes "pylint" lower) eqn:E2; [|reflexivity].
      rewrite (includes_trans "lint" "pylint" lower eq_refl E2) in E. discriminate. }
  assert (H2 : includes "assertionerror" lower || includes "expect" lower
               || includes "assert" lower
               = includes "expect" lower || includes "assert" lower).
  { destruct (includes "assertionerror" lower) eqn:E; [|reflexivity].
    rewrite (includes_trans "assert" "assertionerror" lower eq_refl E).
    cbn [orb]. rewrite orb_true_r. reflexivity. }
  rewrite H1, H2. reflexivity.
Qed.

(** X19. [detectTestCommand] always names a command, and it names an
    install command except for Go, Cargo and Maven. A [package.json] that
    can be read and has a test script decides alone: the repository is run
    through npm whatever other project files it has, and with [npm test]
    itself unless jest, vitest or mocha is among the dependencies, even
    when the script is the placeholder that npm writes. *)
Theorem detectTestCommand_invariants (readPkg : Exc TestRunner.PackageJson) (fs : FS)
    (repoDir : string) :
  let testCmd := TestRunner.detectTestCommand readPkg fs repoDir in
  TestRunner.command testCmd <> EmptyString
  /\ (TestRunner.tc_installCommand testCmd = None
      <-> TestRunner.framework testCmd = "go" \/ TestRunner.framework testCmd = "cargo"
          \/ TestRunner.framework testCmd = "maven")
  /\ (forall pkg,
        existsSync (repoDir ++ "/package.json") fs = true ->
        readPkg = Ok pkg ->
        truthy (TestRunner.scripts_test pkg) = true ->
        TestRunner.tc_installCommand testCmd = Some "npm install"
        /\ (TestRunner.dep_jest pkg || TestRunner.dep_jest_core pkg
            || TestRunner.dep_vitest pkg || TestRunner.dep_mocha pkg = false ->
            testCmd = TestRunner.mkTestCommand "npm test" (Some "npm install") "npm")).
Proof.
  cbv zeta. unfold TestRunner.detectTestCommand.
  set (fromPackage := if existsSync (repoDir ++ "/package.json") fs then _ else None).
  assert (Hpkg : fromPackage = None
                 \/ exists testCmd,
                      fromPackage = Some testCmd
                      /\ TestRunner.command testCmd <> EmptyString
                      /\ TestRunner.tc_installCommand testCmd = Some "npm install"
                      /\ TestRunner.framework testCmd <> "go"
                      /\ TestRunner.framework testCmd <> "cargo"
                      /\ TestRunner.framework testCmd <> "maven").
  { subst fromPackage.
    destruct (existsSync (repoDir ++ "/package.json") fs); [|left; reflexivity].
    destruct readPkg as [pkg|e]; [|left; reflexivity].
    destruct (truthy (TestRunner.scripts_test pkg) && negb _);
      [right; eexists; split; [reflexivity|]; repeat split; discriminate|].
    destruct (TestRunner.dep_jest pkg || TestRunner.dep_jest_core pkg);
      [right; eexists; split; [reflexivity|]; repeat split; discriminate|].
    destruct (TestRunner.dep_vitest pkg);
      [right; eexists; split; [reflexivity|]; repeat split; discriminate|].
    destruct (TestRunner.dep_mocha pkg);
      [right; eexists; split; [reflexivity|]; repeat split; discriminate|].
    destruct (truthy (TestRunner.scripts_test pkg));
      [right; eexists; split; [reflexivity|]; repeat split; discriminate|].
    left. reflexivity. }
  split; [|split].
  - destruct Hpkg as [-> | (testCmd & -> & Hcmd & _)]; [|exact Hcmd].
    destruct (_ || _ || _); [discriminate|].
    repeat (destruct (existsSync _ fs); [discriminate|]). discriminate.
  - destruct Hpkg as [-> | (testCmd & -> & _ & Hinstall & Hgo & Hcargo & Hmaven)].
    + destruct (_ || _ || _);
        [split; [discriminate | intros [H | [H | H]]; discriminate H]|].
      repeat (destruct (existsSync _ fs);
              [cbn [TestRunner.tc_installCommand TestRunner.framework];
               split; [intros _ | reflexivity]; auto|]).
      split; [discriminate | intros [H | [H | H]]; discriminate H].
    + rewrite Hinstall. split; [discriminate | tauto].
  - intros pkg Hexists -> Hscript. subst fromPackage. rewrite Hexists, Hscript. cbn [andb].
    destruct (negb _); cbn [TestRunner.tc_installCommand].
    + split; reflexivity.
    + destruct (TestRunner.dep_jest pkg), (TestRunner.dep_jest_core pkg),
        (TestRunner.dep_vitest pkg), (TestRunner.dep_mocha pkg);
        cbn [orb TestRunner.tc_installCommand]; split;
        try reflexivity; discriminate.
Qed.

Lemma detectTestCommand_invariants_witness :
  TestRunner.detectTestCommand
    (Ok (TestRunner.mkPackageJson (Some TestRunner.placeholder_script) false false false false))
    ({[ "/tmp/self-healing/s1/package.json"; "/tmp/self-healing/s1/requirements.txt" ]} : FS)
    "/tmp/self-healing/s1"
  = TestRunner.mkTestCommand "npm test" (Some "npm install") "npm".
Proof.
  refine (proj2 (proj2 (proj2 (detectTestCommand_invariants
            (Ok (TestRunner.mkPackageJson (Some TestRunner.placeholder_script)
                   false false false false))
            ({[ "/tmp/self-healing/s1/package.json";
                "/tmp/self-healing/s1/requirements.txt" ]} : FS)
            "/tmp/self-healing/s1"))
           (TestRunner.mkPackageJson (Some TestRunner.placeholder_script)
              false false false false) _ eq_refl _) _).
  - vm_compute; reflexivity.
  - vm_compute; reflexivity.
  - reflexivity.
Defined.







(** ** The dashboard *)

Lemma percent_round (f t : Z) :
  0 < t -> Math_round ((inject_Z f / inject_Z t) * 100)%Q = (200 * f + t) / (2 * t).
Proof.
  intros Ht. unfold Math_round.
  assert (E : ((inject_Z f / inject_Z t) * 100 + (1 # 2)
               == (200 * f + t) # (Z.to_pos (2 * t)))%Q).
  { destruct t as [|p|p]; try lia.
    unfold Qeq, Qdiv, Qmult, Qplus, Qinv, inject_Z. simpl.
    repeat rewrite Pos2Z.inj_mul. ring. }
  rewrite E. unfold Qfloor. rewrite Z2Pos.id by lia. reflexivity.
Qed.

Lemma percent_bounds (f t : Z) :
  0 < t -> 0 <= f <= t -> 0 <= (200 * f + t) / (2 * t) <= 100.
Proof.
  intros Ht Hf. split.
  - apply Z.div_pos; lia.
  - apply Z.lt_succ_r. apply Z.div_lt_upper_bound; lia.
Qed.

(** The points for the fixed bugs that the breakdown shows are those of
    the score. *)
Lemma bugFixPoints_of_score (bugs : list HealingBug) (tested : bool) (n commits : Z)
    (elapsed : Q) :
  let s := calculateScore bugs tested n commits elapsed in
  Dashboard.bugFixPoints s
  = (if 0 <? Z.of_nat (length bugs)
     then Math_round ((inject_Z (fixedCount bugs) / inject_Z (Z.of_nat (length bugs))) * 60)%Q
     else 0)
  /\ 0 <= Dashboard.bugFixPoints s <= 60.
Proof.
  cbv zeta. unfold Dashboard.bugFixPoints. cbn [bugsFixed totalBugs calculateScore].
  pose proof (fixedCount_bounds bugs) as Hb.
  destruct (0 <? Z.of_nat (length bugs)) eqn:E.
  - apply Z.ltb_lt in E. rewrite Z.max_l by lia. split; [reflexivity|].
    rewrite bug_ratio_round by exact E. apply bug_ratio_bounds; [exact E | exact Hb].
  - apply Z.ltb_ge in E. assert (Hf : fixedCount bugs = 0) by lia.
    rewrite Hf, Z.max_r by lia. split; [reflexivity | ].
    change (0 <= Math_round ((inject_Z 0 / inject_Z 1) * 60)%Q <= 60).
    rewrite bug_ratio_round by lia.
    replace ((120 * 0 + 1) / (2 * 1)) with 0 by reflexivity. lia.
Qed.

(** X21. The score breakdown adds up: for a score that [calculateScore]
    made, the values of the bars of the chart sum to the final score, but
    for the clamp to 0..100. The bars for fixed bugs, tests, efficiency
    and speed stay within their maxima, and the penalty bar is there
    exactly when more than 20 commits were made. *)
Theorem score_breakdown_adds_up (bugs : list HealingBug) (tested : bool) (n commits : Z)
    (elapsed : Q) :
  let s := calculateScore bugs tested n commits elapsed in
  finalScore s
  = Z.max 0 (Z.min 100 (sum_Z (map Dashboard.entry_value (Dashboard.chartData s))))
  /\ Forall (fun e => Dashboard.entry_name e <> "Penalty" ->
                      0 <= Dashboard.entry_value e <= Dashboard.entry_max e)
       (Dashboard.chartData s)
  /\ ((exists e, e ∈ Dashboard.chartData s /\ Dashboard.entry_name e = "Penalty")
      <-> 20 < commits).
Proof.
  cbv zeta.
  destruct (bugFixPoints_of_score bugs tested n commits elapsed) as [Hpoints Hrange].
  cbv zeta in Hpoints, Hrange.
  unfold Dashboard.chartData.
  set (s := calculateScore bugs tested n commits elapsed) in *.
  assert (Hpen : commitPenalty s = if 20 <? commits then commits - 20 else 0) by reflexivity.
  assert (Hspeed : speedBonus s = if Qltb elapsed SPEED_BONUS_THRESHOLD_SEC then 10 else 0)
    by reflexivity.
  split; [|split].
  - rewrite map_app. unfold sum_Z. rewrite foldr_app. cbn [map foldr Dashboard.entry_value].
    rewrite Hpoints.
    replace (foldr Z.add 0
               (map Dashboard.entry_value
                  (if 0 <? commitPenalty s
                   then [Dashboard.mkChartEntry "Penalty" (- commitPenalty s) 0] else [])))
      with (- commitPenalty s).
    2:{ destruct (0 <? commitPenalty s) eqn:E; cbn [map foldr Dashboard.entry_value]; [lia|].
        apply Z.ltb_ge in E. rewrite Hpen in *. destruct (20 <? commits) eqn:E2; [|lia].
        apply Z.ltb_lt in E2. lia. }
    subst s. unfold calculateScore, Dashboard.testPoints, Dashboard.efficiencyPoints.
    cbn [finalScore testsPassed attempts speedBonus commitPenalty].
    unfold MAX_COMMITS_PENALTY_THRESHOLD.
    destruct (0 <? Z.of_nat (length bugs)), tested, (n <=? 2), (n <=? 3),
      (Qltb elapsed SPEED_BONUS_THRESHOLD_SEC), (20 <? commits); f_equal; f_equal; lia.
  - apply Forall_app. split.
    + constructor; [intros _; exact Hrange|].
      constructor; [intros _; cbn [Dashboard.entry_value Dashboard.entry_max];
                    unfold Dashboard.testPoints; destruct (testsPassed s); lia|].
      constructor; [intros _; cbn [Dashboard.entry_value Dashboard.entry_max];
                    unfold Dashboard.efficiencyPoints;
                    destruct (attempts s <=? 2), (attempts s <=? 3); lia|].
      constructor; [intros _; cbn [Dashboard.entry_value Dashboard.entry_max];
                    rewrite Hspeed; destruct (Qltb _ _); lia|].
      constructor.
    + destruct (0 <? commitPenalty s); constructor; [|constructor].
      cbn [Dashboard.entry_name]. congruence.
  - rewrite Hpen. split.
    + intros (e & Hin & Hname). apply elem_of_app in Hin as [Hin | Hin].
      * repeat (apply elem_of_cons in Hin as [-> | Hin]; [discriminate Hname|]).
        inversion Hin.
      * destruct (20 <? commits) eqn:E; [apply Z.ltb_lt in E; exact E|].
        cbn in Hin. inversion Hin.
    + intros H. apply Z.ltb_lt in H as H'. rewrite H'.
      assert (E : (0 <? commits - 20) = true) by (apply Z.ltb_lt; lia). rewrite E.
      eexists. split; [apply elem_of_app; right; left | reflexivity].
Qed.

Lemma score_breakdown_adds_up_witness :
  finalScore (calculateScore [Samples.bugAt "bug-1" "src/calc.js" 3] false 3 25 10)
  = Z.max 0 (Z.min 100
       (sum_Z (map Dashboard.entry_value
                 (Dashboard.chartData
                    (calculateScore [Samples.bugAt "bug-1" "src/calc.js" 3] false 3 25 10))))).
Proof.
  exact (proj1 (score_breakdown_adds_up [Samples.bugAt "bug-1" "src/calc.js" 3] false 3 25 10)).
Defined.

Lemma has_category_spec (cat : BugCategory) (b : HealingBug) :
  Dashboard.has_category cat b = true <-> category b = cat.
Proof.
  unfold Dashboard.has_category. rewrite String.eqb_eq.
  split; [|intros ->; reflexivity].
  destruct (category b), cat; cbn; intros H; try reflexivity; discriminate H.
Qed.

(** Every bug is counted in one category. *)
Lemma categories_partition (p : HealingBug -> bool) (bugs : list HealingBug) :
  sum_Z (map (fun cat =>
                Z.of_nat (length (List.filter p
                                    (List.filter (Dashboard.has_category cat) bugs))))
           Dashboard.categories)
  = Z.of_nat (length (List.filter p bugs)).
Proof.
  unfold Dashboard.categories, sum_Z. cbn [map foldr].
  induction bugs as [|b bugs IH]; [reflexivity|].
  cbn [List.filter]. unfold Dashboard.has_category in *.
  destruct (category b) eqn:E; cbn [show_category] in *;
    repeat match goal with
           | |- context [String.eqb ?x ?y] =>
               lazymatch x with
               | show_category _ => fail
               | _ => let v := eval vm_compute in (String.eqb x y) in
                      change (String.eqb x y) with v
               end
           end;
    cbn [List.filter]; destruct (p b); cbn [length]; lia.
Qed.

Lemma filter_true {A} (l : list A) : List.filter (fun _ => true) l = l.
Proof. induction l as [|x l IH]; cbn; [reflexivity | now rewrite IH]. Qed.

Lemma sum_filter_positive {A} (f g : A -> Z) (l : list A) :
  (forall a, a ∈ l -> 0 <= g a <= f a) ->
  sum_Z (map g (List.filter (fun a => 0 <? f a) l)) = sum_Z (map g l).
Proof.
  unfold sum_Z. induction l as [|a l IH]; intros H; [reflexivity|].
  cbn [List.filter].
  assert (Ha : 0 <= g a <= f a) by (apply H; left).
  assert (Hl : forall x, x ∈ l -> 0 <= g x <= f x) by (intros x Hx; apply H; right; exact Hx).
  specialize (IH Hl).
  destruct (0 <? f a) eqn:E; cbn [map foldr]; rewrite IH; [reflexivity|].
  apply Z.ltb_ge in E. lia.
Qed.

Lemma length_filter_le {A} (p : A -> bool) (l : list A) :
  (length (List.filter p l) <= length l)%nat.
Proof. induction l as [|x l IH]; cbn; [lia|]. destruct (p x); cbn; lia. Qed.

(** X22. The cards of the bug table partition the bugs: the totals of
    the cards sum to the number of bugs and their fixed counts to the number
    of fixed bugs; every card has at least one bug, a rate between 0 and
    100, and as total the number of rows the table shows when the card is
    clicked. The table without filters shows every bug, and under a category
    filter the fixed and the unfixed rows are all its rows. *)
Theorem bug_table_cards_partition (bugs : list HealingBug) :
  let cards := Dashboard.byCat bugs in
  sum_Z (map Dashboard.stat_total cards) = Z.of_nat (length bugs)
  /\ sum_Z (map Dashboard.stat_fixed cards) = fixedCount bugs
  /\ Forall (fun c =>
               0 < Dashboard.stat_total c
               /\ 0 <= Dashboard.stat_fixed c <= Dashboard.stat_total c
               /\ 0 <= Dashboard.stat_rate c <= 100
               /\ Dashboard.stat_total c
                  = Z.of_nat (length (Dashboard.filteredBugs
                                        (Some (Dashboard.stat_category c))
                                        Dashboard.ShowAll bugs)))
       cards
  /\ Dashboard.filteredBugs None Dashboard.ShowAll bugs = bugs
  /\ (forall filterCategory,
        (length (Dashboard.filteredBugs filterCategory Dashboard.ShowFixed bugs)
         + length (Dashboard.filteredBugs filterCategory Dashboard.ShowUnfixed bugs))%nat
        = length (Dashboard.filteredBugs filterCategory Dashboard.ShowAll bugs)).
Proof.
  cbv zeta. unfold Dashboard.byCat.
  set (stats := map _ Dashboard.categories).
  assert (Hstats : forall c, c ∈ stats ->
            0 <= Dashboard.stat_fixed c <= Dashboard.stat_total c
            /\ 0 <= Dashboard.stat_rate c <= 100
            /\ Dashboard.stat_total c
               = Z.of_nat (length (Dashboard.filteredBugs
                                     (Some (Dashboard.stat_category c))
                                     Dashboard.ShowAll bugs))).
  { intros c Hc. subst stats. apply list_elem_of_In, in_map_iff in Hc as (cat & <- & _).
    cbv zeta. cbn [Dashboard.stat_fixed Dashboard.stat_total Dashboard.stat_rate
                   Dashboard.stat_category].
    pose proof (length_filter_le fixed (List.filter (Dashboard.has_category cat) bugs)) as Hle.
    split; [lia|]. split.
    - destruct (0 <? _) eqn:E; [|lia]. apply Z.ltb_lt in E.
      rewrite percent_round by exact E. apply percent_bounds; lia.
    - unfold Dashboard.filteredBugs. f_equal. f_equal.
      apply filter_ext. intros b. destruct (Dashboard.has_category cat b); reflexivity. }
  split; [|split; [|split; [|split]]].
  - rewrite (sum_filter_positive Dashboard.stat_total Dashboard.stat_total).
    + subst stats. rewrite map_map. cbn [Dashboard.stat_total].
      transitivity (Z.of_nat (length (List.filter (fun _ : HealingBug => true) bugs)));
        [|now rewrite filter_true].
      rewrite <- categories_partition.
      f_equal. apply map_ext. intros cat. rewrite filter_true. reflexivity.
    + intros c Hc. destruct (Hstats c Hc) as (H1 & _). lia.
  - rewrite (sum_filter_positive Dashboard.stat_total Dashboard.stat_fixed).
    + subst stats. rewrite map_map. cbn [Dashboard.stat_fixed].
      apply (categories_partition fixed bugs).
    + intros c Hc. destruct (Hstats c Hc) as (H1 & _). exact H1.
  - apply Forall_forall. intros c Hc. apply list_elem_of_In, List.filter_In in Hc as [Hc Hpos].
    apply list_elem_of_In in Hc. apply Z.ltb_lt in Hpos.
    destruct (Hstats c Hc) as (H1 & H2 & H3). repeat split; try assumption; lia.
  - unfold Dashboard.filteredBugs. apply filter_true.
  - intros filterCategory. unfold Dashboard.filteredBugs. clear Hstats. clear stats.
    induction bugs as [|b bugs IH]; [reflexivity|]. cbn [List.filter].
    destruct (match filterCategory with
              | Some cat => negb (Dashboard.has_category cat b)
              | None => false
              end); [exact IH|].
    destruct (fixed b); cbn [negb length]; rewrite <- IH; lia.
Qed.

Lemma bug_table_cards_partition_witness :
  map Dashboard.stat_total
    (Dashboard.byCat [Samples.bugAt "bug-1" "src/calc.js" 3;
                      Samples.bugAt "bug-2" "src/calc.js" 9])
  = [2]
  /\ sum_Z (map Dashboard.stat_total
              (Dashboard.byCat [Samples.bugAt "bug-1" "src/calc.js" 3;
                                Samples.bugAt "bug-2" "src/calc.js" 9]))
     = 2.
Proof.
  split; [vm_compute; reflexivity|].
  exact (proj1 (bug_table_cards_partition [Samples.bugAt "bug-1" "src/calc.js" 3;
                                           Samples.bugAt "bug-2" "src/calc.js" 9])).
Defined.

(** ** The session timeout *)

(** X23. A session whose time is up at the first check of the first
    attempt makes no attempt, but it still runs the final verification: it
    ends as [completed] when that run of the tests passes and as [failed]
    otherwise, with a score that records [MAX_ATTEMPTS] attempts although
    none is on record, and it requests the pull request only when the run
    passed. *)
Theorem timeout_before_the_first_attempt (env : Env)
    (input : Orchestrator.OrchestratorInput) (fs : FS) (parsed : RepoRef) (fr : ForkResult) :
  RepoManager.parseGitHubUrl (Orchestrator.repoUrl input) = Ok parsed ->
  RepoManager.forkRepo env (owner parsed) (repo parsed) = Ok fr ->
  fork_success fr = true ->
  gitClone env = Ok tt ->
  gitCheckout env = Ok tt ->
  timedOut env 1 0 = true ->
  let st := Orchestrator.runHealingLoop env input fs in
  let finalTest := testRun env (Orchestrator.MAX_ATTEMPTS + 1) in
  let score :=
    calculateScore [] (passed finalTest) Orchestrator.MAX_ATTEMPTS
      (gitCommitCount env (Orchestrator.MAX_ATTEMPTS + 1))
      (elapsedSeconds env (Orchestrator.MAX_ATTEMPTS + 1)) in
  doc_attempts (st_doc st) = []
  /\ doc_bugs (st_doc st) = []
  /\ doc_score (st_doc st) = Some score
  /\ attempts score = Orchestrator.MAX_ATTEMPTS
  /\ doc_status (st_doc st) = (if passed finalTest then completed else failed)
  /\ length (st_prCalls st) = (if passed finalTest then 1%nat else 0%nat)
  /\ Forall (fun e => match e with
                      | EStatus scanning | EStatus fixing | EStatus pushing => False
                      | _ => True
                      end) (st_events st).
Proof.
  intros Hparse Hfork Hsucc Hclone Hcheckout Htime. cbv zeta.
  destruct (forkRepo_token _ _ _ _ Hfork) as [token Htok].
  unfold Orchestrator.runHealingLoop. rewrite Hparse.
  rewrite (tryBlock_reaches_loop env input fs parsed fr Hparse Hfork Hsucc Hclone Hcheckout).
  unfold Orchestrator.loopAndVerify. rewrite bind_eq.
  change (Z.to_nat Orchestrator.MAX_ATTEMPTS) with 3%nat.
  rewrite (timeout_breaks_loop env _ _ 2 1 _ Htime). cbv beta iota.
  unfold exec, Orchestrator.finalVerification, loopEntry. cbv zeta. mrun. cbn [snd].
  mrun.
  destruct (passed (testRun env (Orchestrator.MAX_ATTEMPTS + 1))) eqn:Hpass; mrun.
  - match goal with
    | |- context [Orchestrator.attemptCreatePR ?e ?a ?b ?c ?d ?f ?g ?h ?i ?j ?s] =>
        destruct (attemptCreatePR_record e a b c d f token g h i j s Htok)
          as (st' & -> & Hcalls & Hstatus & _ & _ & Hscore & Hbugs & Hatts & _ & _ & Hev & _)
    end.
    mrun. cbn [fst snd].
    destruct (finallyBlock_frame input
                (with_events (fun l => (l ++ [EStatus completed])%list) st')) as [fs' ->].
    st_simpl. rewrite Hatts, Hbugs, Hscore, Hstatus, Hcalls, Hev.
    repeat split. repeat constructor.
  - change (0 <? bugsFixed (calculateScore [] false Orchestrator.MAX_ATTEMPTS
                              (gitCommitCount env (Orchestrator.MAX_ATTEMPTS + 1))
                              (elapsedSeconds env (Orchestrator.MAX_ATTEMPTS + 1))))
      with false.
    mrun. cbn [fst snd].
    match goal with
    | |- context [Orchestrator.finallyBlock input ?s] =>
        destruct (finallyBlock_frame input s) as [fs' ->]
    end.
    st_simpl. repeat split. repeat constructor.
Qed.

Lemma timeout_before_the_first_attempt_witness :
  doc_status (st_doc (Orchestrator.runHealingLoop Samples_expired Samples_input ∅))
  = completed.
Proof.
  refine (proj1 (proj2 (proj2 (proj2 (proj2
            (timeout_before_the_first_attempt Samples_expired Samples_input ∅
               {| owner := "octocat"; repo := "hello-world" |} Samples_fork _ _ _ _ _ _)))))).
  - vm_compute; reflexivity.
  - vm_compute; reflexivity.
  - reflexivity.
  - reflexivity.
  - reflexivity.
  - reflexivity.
Defined.
